(** * Iyzico transaction-count forecasting: feature pipeline, split and SMAPE

    A shallow embedding of [Iyzico_Transaction_Count_Forecasting.py]: the
    group-wise lag, rolling-mean and exponentially-weighted-mean feature
    builders, the calendar indicators, the log transform of the target,
    the time-based train/validation split and the SMAPE metric; further,
    the date features, the renaming of the columns and the
    feature-importance table.

    Conventions of the embedding.
    - A finite float is an exact rational; [NaN], [PInf] and [NInf] are the
      three special float values.  Rounding and signed zeros are not
      modelled.  Overflow to an infinity is modelled in [smape_f64], the
      metric on arrays that may hold [NaN] and infinities; [smape] is the
      metric on arrays of finite numbers in exact arithmetic.
    - A timestamp is a day number (days since 1970-01-01), the daily
      granularity of the [transaction_date] column.  The rows of the
      feature builders carry a day number; the split is given as well on
      a date column that may hold the missing timestamp [NaT]
      ([train_of], [val_of]).
    - A data frame is the list of its rows in index order; the columns the
      script adds live in a finite map from column name to cell.
    - [numpy.random] is an explicit generator state that is threaded
      through the feature builders.
    - The pandas, numpy and scipy operations the script calls ([shift],
      [rolling(...).mean()], [ewm(...).mean()], [groupby(...).transform],
      boolean indexing, broadcasting) are defined here by their library
      semantics. *)

From Stdlib Require Import ZArith QArith Qabs Lia Lqa.
From stdpp Require Import base list strings gmap pretty sorting.

Local Open Scope Q_scope.

(** ** Floats *)

Inductive float64 : Type :=
  | Fin (q : Q)
  | NaN
  | PInf
  | NInf.

Definition isnan (x : float64) : bool :=
  match x with NaN => true | _ => false end.

Definition Qsign_pos (q : Q) : bool :=
  match Qcompare 0 q with Lt => true | _ => false end.

Definition Qis_zero (q : Q) : bool := Qeq_bool q 0.

Definition fadd (x y : float64) : float64 :=
  match x, y with
  | NaN, _ | _, NaN => NaN
  | Fin a, Fin b => Fin (a + b)
  | PInf, NInf | NInf, PInf => NaN
  | PInf, _ | _, PInf => PInf
  | NInf, _ | _, NInf => NInf
  end.

Definition inf_of_sign (positive : bool) : float64 :=
  if positive then PInf else NInf.

Definition fmul (x y : float64) : float64 :=
  match x, y with
  | NaN, _ | _, NaN => NaN
  | Fin a, Fin b => Fin (a * b)
  | PInf, PInf | NInf, NInf => PInf
  | PInf, NInf | NInf, PInf => NInf
  | PInf, Fin b | Fin b, PInf =>
      if Qis_zero b then NaN else inf_of_sign (Qsign_pos b)
  | NInf, Fin b | Fin b, NInf =>
      if Qis_zero b then NaN else inf_of_sign (negb (Qsign_pos b))
  end.

(** True division.  A zero divisor is taken as [+0.0]. *)
Definition fdiv (x y : float64) : float64 :=
  match x, y with
  | NaN, _ | _, NaN => NaN
  | Fin a, Fin b =>
      if Qis_zero b
      then (if Qis_zero a then NaN else inf_of_sign (Qsign_pos a))
      else Fin (a / b)
  | Fin _, PInf | Fin _, NInf => Fin 0
  | PInf, Fin b => inf_of_sign (Qsign_pos b || Qis_zero b)
  | NInf, Fin b => inf_of_sign (negb (Qsign_pos b || Qis_zero b))
  | _, _ => NaN
  end.

(** [x != y] on floats: [NaN] differs from everything, itself included. *)
Definition fne (x y : float64) : bool :=
  match x, y with
  | Fin a, Fin b => negb (Qeq_bool a b)
  | PInf, PInf | NInf, NInf => false
  | _, _ => true
  end.

(** ** Python outcomes *)

Inductive exn : Type := ValueError | IndexError.

Inductive outcome (A : Type) : Type :=
  | Returns (a : A)
  | Raises (e : exn).
Arguments Returns {A} a.
Arguments Raises {A} e.

#[global] Instance outcome_ret : MRet outcome := fun A a => Returns a.
#[global] Instance outcome_bind : MBind outcome := fun A B k m =>
  match m with
  | Returns a => k a
  | Raises e => Raises e
  end.

(** ** SMAPE (source lines 204-211) *)

(** [~((preds == 0) & (target == 0))] with numpy broadcasting of two
    one-dimensional arrays: equal lengths, or one of them of length 1. *)
Definition masked (p t : Q) : bool := negb (Qis_zero p && Qis_zero t).

Definition np_mask (preds target : list Q) : outcome (list bool) :=
  if (length preds =? length target)%nat
  then Returns (zip_with masked preds target)
  else match preds, target with
       | [p], _ => Returns (map (masked p) target)
       | _, [t] => Returns (map (fun p => masked p t) preds)
       | _, _ => Raises ValueError
       end.

(** [a[mask]] for a boolean mask: the mask must be as long as the array,
    except that numpy lets an empty mask index an array of any length and
    select nothing. *)
Fixpoint select {A} (a : list A) (mask : list bool) : list A :=
  match a, mask with
  | x :: a', b :: mask' => if b then x :: select a' mask' else select a' mask'
  | _, _ => []
  end.

Definition bool_index {A} (a : list A) (mask : list bool) : outcome (list A) :=
  if ((length a =? length mask) || (length mask =? 0))%nat
  then Returns (select a mask)
  else Raises IndexError.

(** [np.sum] of a float array. *)
Definition np_sum (xs : list float64) : float64 := foldl fadd (Fin 0) xs.

Definition np_divide (x y : Q) : float64 := fdiv (Fin x) (Fin y).

Definition smape (preds target : list Q) : outcome float64 :=
  let n := length preds in
  masked_arr ← np_mask preds target;
  preds' ← bool_index preds masked_arr;
  target' ← bool_index target masked_arr;
  let num := zip_with (fun p t => Qabs (p - t)) preds' target' in
  let denom := zip_with (fun p t => Qabs p + Qabs t) preds' target' in
  let smape_val :=
    fdiv (fmul (Fin 200) (np_sum (zip_with np_divide num denom)))
         (Fin (inject_Z (Z.of_nat n))) in
  Returns smape_val.

(** The metric as section 4.5 of the specification words it: a both-zero
    position contributes zero, any other position contributes
    [200 * |p - t| / (|p| + |t|)], and the terms are averaged over the
    original length. *)
Definition smape_term (p t : Q) : Q :=
  if Qis_zero p && Qis_zero t then 0
  else 200 * Qabs (p - t) / (Qabs p + Qabs t).

Definition Qsum (xs : list Q) : Q := foldr Qplus 0 xs.

(** Error ratio of one position, before the factor 200. *)
Definition ratio (p t : Q) : Q :=
  if Qis_zero p && Qis_zero t then 0 else Qabs (p - t) / (Qabs p + Qabs t).

Definition smape_spec (preds target : list Q) : Q :=
  Qsum (zip_with smape_term preds target) / inject_Z (Z.of_nat (length preds)).

(** *** The metric on float arrays

    [smape] above takes arrays of finite numbers and computes without
    overflow.  [smape_f64] is the same function on arrays that may hold
    [NaN] and infinities, with every arithmetic result that is too large
    for a float64 turned into an infinity. *)

(** The least magnitude that float64 rounds to an infinity: the largest
    float64, [2^1024 - 2^971], plus half a unit in its last place. *)
Definition f64_overflow_bound : Q := inject_Z (2 ^ 1024 - 2 ^ 970).

(** The float64 a result becomes, as far as overflow goes. *)
Definition overflow (x : float64) : float64 :=
  match x with
  | Fin q => if Qle_bool f64_overflow_bound (Qabs q)
             then inf_of_sign (Qsign_pos q) else Fin q
  | _ => x
  end.

Definition fsub (x y : float64) : float64 :=
  match x, y with
  | NaN, _ | _, NaN => NaN
  | Fin a, Fin b => Fin (a - b)
  | PInf, PInf | NInf, NInf => NaN
  | PInf, _ | _, NInf => PInf
  | NInf, _ | _, PInf => NInf
  end.

(** [np.abs]. *)
Definition np_abs (x : float64) : float64 :=
  match x with
  | Fin q => Fin (Qabs q)
  | NaN => NaN
  | PInf | NInf => PInf
  end.

(** [x == 0] on a float. *)
Definition feq0 (x : float64) : bool :=
  match x with Fin q => Qis_zero q | _ => false end.

Definition f64_add (x y : float64) : float64 := overflow (fadd x y).
Definition f64_sub (x y : float64) : float64 := overflow (fsub x y).
Definition f64_mul (x y : float64) : float64 := overflow (fmul x y).
Definition f64_div (x y : float64) : float64 := overflow (fdiv x y).

Definition masked_f64 (p t : float64) : bool := negb (feq0 p && feq0 t).

Definition np_mask_f64 (preds target : list float64) : outcome (list bool) :=
  if (length preds =? length target)%nat
  then Returns (zip_with masked_f64 preds target)
  else match preds, target with
       | [p], _ => Returns (map (masked_f64 p) target)
       | _, [t] => Returns (map (fun p => masked_f64 p t) preds)
       | _, _ => Raises ValueError
       end.

(** [np.sum], adding from the left. *)
Definition np_sum_f64 (xs : list float64) : float64 := foldl f64_add (Fin 0) xs.

Definition smape_f64 (preds target : list float64) : outcome float64 :=
  let n := length preds in
  masked_arr ← np_mask_f64 preds target;
  preds' ← bool_index preds masked_arr;
  target' ← bool_index target masked_arr;
  let num := zip_with (fun p t => np_abs (f64_sub p t)) preds' target' in
  let denom :=
    zip_with (fun p t => f64_add (np_abs p) (np_abs t)) preds' target' in
  let smape_val :=
    f64_div (f64_mul (Fin 200) (np_sum_f64 (zip_with f64_div num denom)))
            (Fin (inject_Z (Z.of_nat n))) in
  Returns smape_val.

(** The quotients [num / denom] of [smape_f64] on arrays of one length. *)
Definition smape_terms_f64 (preds target : list float64) : list float64 :=
  let m := zip_with masked_f64 preds target in
  let preds' := select preds m in
  let target' := select target m in
  zip_with f64_div
    (zip_with (fun p t => np_abs (f64_sub p t)) preds' target')
    (zip_with (fun p t => f64_add (np_abs p) (np_abs t)) preds' target').






(** ** Timestamps *)

(** Day number of a proleptic Gregorian calendar date, as
    [pd.Timestamp("yyyy-mm-dd")] resolves a date string. *)
Definition ymd (y m d : Z) : Z :=
  let y' := (if m <=? 2 then y - 1 else y)%Z in
  let era := (y' / 400)%Z in
  let yoe := (y' - era * 400)%Z in
  let mp := (if m <=? 2 then m + 9 else m - 3)%Z in
  let doy := ((153 * mp + 2) / 5 + d - 1)%Z in
  let doe := (yoe * 365 + yoe / 4 - yoe / 100 + doy)%Z in
  (era * 146097 + doe - 719468)%Z.

(** [.dt.year] of a day number. *)
Definition dt_year (z : Z) : Z :=
  let z' := (z + 719468)%Z in
  let era := (z' / 146097)%Z in
  let doe := (z' - era * 146097)%Z in
  let yoe := ((doe - doe / 1460 + doe / 36524 - doe / 146096) / 365)%Z in
  let doy := (doe - (365 * yoe + yoe / 4 - yoe / 100))%Z in
  let mp := ((5 * doy + 2) / 153)%Z in
  let m := (if mp <? 10 then mp + 3 else mp - 9)%Z in
  (yoe + era * 400 + (if m <=? 2 then 1 else 0))%Z.

(** ** Data frames *)

Record Row : Type := mkRow {
  merchant_id : Z;
  transaction_date : Z;
  Total_Transaction : float64;
  Total_Paid : float64;
  features : gmap string float64
}.

Abbreviation DataFrame := (list Row).

(** [df[name]] at row [r], for a column the script added. *)
Definition cell (df : DataFrame) (r : nat) (name : string) : option float64 :=
  row ← df !! r; features row !! name.

(** [df[name] = col] for a series [col] on the index of [df]: a label the
    series lacks becomes NaN. *)
Definition set_column (name : string) (col : list float64) (df : DataFrame)
  : DataFrame :=
  imap (fun r row =>
          mkRow (merchant_id row) (transaction_date row)
                (Total_Transaction row) (Total_Paid row)
                (<[name := default NaN (col !! r)]> (features row))) df.

(** [df.loc[mask, name] = v]. *)
Definition loc_assign (mask : Row -> bool) (name : string) (v : float64)
    (df : DataFrame) : DataFrame :=
  map (fun row =>
         if mask row
         then mkRow (merchant_id row) (transaction_date row)
                    (Total_Transaction row) (Total_Paid row)
                    (<[name := v]> (features row))
         else row) df.

(** ** The random generator *)

(** [draws] is the sequence of standard normal variates the generator is
    going to produce, [pos] how many of them have been consumed. *)
Record RandomState : Type := mkRandomState {
  draws : nat -> Q;
  pos : nat
}.

(** A computation that may draw random numbers and may raise. *)
Definition M (A : Type) : Type := RandomState -> outcome (A * RandomState).

#[global] Instance M_ret : MRet M := fun A a rs => Returns (a, rs).
#[global] Instance M_bind : MBind M := fun A B k m rs =>
  match m rs with
  | Returns (a, rs') => k a rs'
  | Raises e => Raises e
  end.

Definition lift {A} (o : outcome A) : M A := fun rs =>
  match o with
  | Returns a => Returns (a, rs)
  | Raises e => Raises e
  end.

(** [for p in ps: a = body(a, p)]. *)
Fixpoint for_each {P A} (body : A -> P -> M A) (a : A) (ps : list P) : M A :=
  match ps with
  | [] => mret a
  | p :: ps' => a' ← body a p; for_each body a' ps'
  end.

(** [np.random.normal(scale=scale, size=(size,))]. *)
Definition np_random_normal (scale : Q) (size : nat) : M (list Q) := fun rs =>
  Returns (map (fun i => scale * draws rs (pos rs + i)%nat) (seq 0 size),
           mkRandomState (draws rs) (pos rs + size)).

(** ** Series operations *)

(** [x.shift(periods)] for [periods >= 0]. *)
Definition shift (periods : nat) (x : list float64) : list float64 :=
  take (length x) (replicate periods NaN ++ x).

(** [scipy.signal.windows.triang(M)] (symmetric). *)
Definition triang (M : nat) : list Q :=
  let n := seq 1 ((M + 1) / 2) in
  if Nat.even M then
    let w := map (fun k => (2 * inject_Z (Z.of_nat k) - 1)
                           / inject_Z (Z.of_nat M)) n in
    w ++ rev w
  else
    let w := map (fun k => 2 * inject_Z (Z.of_nat k)
                           / (inject_Z (Z.of_nat M) + 1)) n in
    w ++ rev (removelast w).

(** The observations under the window that ends at position [j]: weight
    [win_i] meets the value [win_n - 1 - win_i] places back, and missing
    values are skipped. *)
Definition window_terms (values : list float64) (weights : list Q) (j : nat)
  : list (float64 * Q) :=
  let win_n := length weights in
  omap (fun '(win_i, w) =>
          let back := (win_n - 1 - win_i)%nat in
          if decide (back <= j)%nat
          then v ← values !! (j - back)%nat;
               if isnan v then None else Some (v, w)
          else None)
       (imap pair weights).

(** pandas' [roll_weighted_mean]. *)
Definition roll_weighted_mean (values : list float64) (weights : list Q)
    (minp : nat) : list float64 :=
  let minp := Nat.max minp 1 in
  map (fun j =>
         let terms := window_terms values weights j in
         let tot_wgt := Qsum (map snd terms) in
         if (length terms <? minp)%nat then NaN
         else if Qis_zero tot_wgt then NaN
         else fdiv (np_sum (map (fun '(v, w) => fmul v (Fin w)) terms))
                   (Fin tot_wgt))
      (seq 0 (length values)).

(** [x.rolling(window=window, min_periods=min_periods,
    win_type="triang").mean()]. *)
Definition rolling_triang_mean (window min_periods : nat) (x : list float64)
  : outcome (list float64) :=
  if (window <? min_periods)%nat then Raises ValueError
  else Returns (roll_weighted_mean x (triang window) min_periods).

(** State of pandas' [ewm] loop ([adjust=True], [ignore_na=False]). *)
Record ewm_acc : Type := mkEwm {
  weighted : float64;
  old_wt : Q;
  nobs : nat
}.

Definition ewm_first (v : float64) : ewm_acc :=
  mkEwm v 1 (if isnan v then 0 else 1).

Definition ewm_step (alpha : Q) (s : ewm_acc) (cur : float64) : ewm_acc :=
  let old_wt_factor := 1 - alpha in
  let new_wt := 1 in
  let is_observation := negb (isnan cur) in
  let nobs' := (nobs s + (if is_observation then 1 else 0))%nat in
  if negb (isnan (weighted s)) then
    let old_wt' := old_wt s * old_wt_factor in
    if is_observation then
      let weighted' :=
        if fne (weighted s) cur
        then fdiv (fadd (fmul (Fin old_wt') (weighted s))
                        (fmul (Fin new_wt) cur))
                  (Fin (old_wt' + new_wt))
        else weighted s in
      mkEwm weighted' (old_wt' + new_wt) nobs'
    else mkEwm (weighted s) old_wt' nobs'
  else if is_observation then mkEwm cur (old_wt s) nobs'
  else mkEwm (weighted s) (old_wt s) nobs'.

Definition ewm_out (minp : nat) (s : ewm_acc) : float64 :=
  if (minp <=? nobs s)%nat then weighted s else NaN.

Fixpoint ewm_scan (alpha : Q) (minp : nat) (s : ewm_acc) (xs : list float64)
  : list float64 :=
  match xs with
  | [] => []
  | cur :: xs' =>
      let s' := ewm_step alpha s cur in
      ewm_out minp s' :: ewm_scan alpha minp s' xs'
  end.

Definition ewm_values (alpha : Q) (minp : nat) (x : list float64)
  : list float64 :=
  match x with
  | [] => []
  | v :: x' =>
      let s := ewm_first v in
      ewm_out minp s :: ewm_scan alpha minp s x'
  end.

(** [x.ewm(alpha=alpha).mean()]: [alpha] must lie in (0, 1], and the
    default [min_periods=0] is raised to 1. *)
Definition ewm_mean (alpha : Q) (x : list float64) : outcome (list float64) :=
  if Qle_bool alpha 0 || negb (Qle_bool alpha 1) then Raises ValueError
  else Returns (ewm_values alpha 1 x).

(** ** Group-wise transforms *)

Definition group_series (df : DataFrame) (m : Z) : list float64 :=
  Total_Transaction <$> filter (fun row => merchant_id row = m) df.

(** In-group position of the row at index [r], when its merchant is [m]. *)
Definition group_pos (df : DataFrame) (r : nat) (m : Z) : nat :=
  length (filter (fun row => merchant_id row = m) (take r df)).

(** [df.groupby("merchant_id")['Total_Transaction'].transform(f)]: each row
    receives the entry of [f] applied to its own group's series, at the
    row's position within the group.  pandas applies [f] once per group;
    [f] is a function, so asking it again for every row gives the same
    series, and the call raises when [f] raises on a group. *)
Definition groupby_transform (f : list float64 -> outcome (list float64))
    (df : DataFrame) : outcome (list float64) :=
  mapM (fun '(r, row) =>
          ys ← f (group_series df (merchant_id row));
          mret (default NaN (ys !! group_pos df r (merchant_id row))))
       (imap pair df).

(** Series plus array, position by position. *)
Definition series_add (s : list float64) (a : list Q) : list float64 :=
  zip_with (fun x e => fadd x (Fin e)) s a.

(** ** The feature builders (source lines 128-165) *)

Definition random_noise (dataframe : DataFrame) : M (list Q) :=
  np_random_normal (16 # 10) (length dataframe).

Definition lag_name (lag : nat) : string := "sales_lag_" +:+ pretty lag.

Definition lag_features (dataframe : DataFrame) (lags : list nat)
  : M DataFrame :=
  for_each (fun dataframe lag =>
              t ← lift (groupby_transform
                          (fun x => Returns (shift lag x)) dataframe);
              noise ← random_noise dataframe;
              mret (set_column (lag_name lag) (series_add t noise) dataframe))
           dataframe lags.

Definition roll_name (window : nat) : string :=
  "sales_roll_mean_" +:+ pretty window.

Definition roll_mean_features (dataframe : DataFrame) (windows : list nat)
  : M DataFrame :=
  for_each (fun dataframe window =>
              t ← lift (groupby_transform
                          (fun x => rolling_triang_mean window 10 (shift 1 x))
                          dataframe);
              noise ← random_noise dataframe;
              mret (set_column (roll_name window) (series_add t noise)
                               dataframe))
           dataframe windows.

(** A Python float together with [str] of it. *)
Record pyfloat : Type := mkFloat {
  fval : Q;
  fstr : string
}.

(** [s.replace(".", "")]. *)
Fixpoint replace_dot (s : string) : string :=
  match s with
  | EmptyString => EmptyString
  | String c s' =>
      if Ascii.eqb c (Ascii.ascii_of_nat 46) then replace_dot s' else String c (replace_dot s')
  end.

Definition ewm_name (alpha : pyfloat) (lag : nat) : string :=
  "sales_ewm_alpha_" +:+ replace_dot (fstr alpha) +:+ "_lag_" +:+ pretty lag.

Definition ewm_features (dataframe : DataFrame) (alphas : list pyfloat)
    (lags : list nat) : M DataFrame :=
  for_each (fun dataframe alpha =>
    for_each (fun dataframe lag =>
                t ← lift (groupby_transform
                            (fun x => ewm_mean (fval alpha) (shift lag x))
                            dataframe);
                mret (set_column (ewm_name alpha lag) t dataframe))
             dataframe lags)
    dataframe alphas.

(** ** Calendar indicators (source lines 179-184) *)

(** [series.isin(dates)]. *)
Definition isin (dates : list Z) (d : Z) : bool := bool_decide (d ∈ dates).

(** [df[name] = v] for a scalar [v]. *)
Definition set_scalar (name : string) (v : float64) (df : DataFrame)
  : DataFrame :=
  loc_assign (fun _ => true) name v df.

Definition black_friday_dates : list Z :=
  [ymd 2018 11 22; ymd 2018 11 23; ymd 2019 11 29; ymd 2019 11 30].

Definition summer_solstice_dates : list Z :=
  [ymd 2018 6 19; ymd 2018 6 20; ymd 2018 6 21; ymd 2018 6 22;
   ymd 2019 6 19; ymd 2019 6 20; ymd 2019 6 21; ymd 2019 6 22].

Definition add_is_black_friday (df : DataFrame) : DataFrame :=
  let df := set_scalar "is_black_friday" (Fin 0) df in
  loc_assign (fun row => isin black_friday_dates (transaction_date row))
             "is_black_friday" (Fin 1) df.

Definition add_is_summer_solstice (df : DataFrame) : DataFrame :=
  let df := set_scalar "is_summer_solstice" (Fin 0) df in
  loc_assign (fun row => isin summer_solstice_dates (transaction_date row))
             "is_summer_solstice" (Fin 1) df.

(** ** Log transform of the target (source line 193) *)

(** [np.log1p] on a float, over a function [ln1p] that gives [log(1 + q)]
    for rational [q > -1].  Outside that domain numpy returns a special
    value (and a warning, which line 53 of the script silences); it does
    not raise. *)
Definition np_log1p (ln1p : Q -> Q) (x : float64) : float64 :=
  match x with
  | Fin q =>
      if Qle_bool (-1) q
      then (if Qeq_bool q (-1) then NInf else Fin (ln1p q))
      else NaN
  | NaN => NaN
  | PInf => PInf
  | NInf => NaN
  end.

Definition log1p_target (ln1p : Q -> Q) (df : DataFrame) : DataFrame :=
  map (fun row =>
         mkRow (merchant_id row) (transaction_date row)
               (np_log1p ln1p (Total_Transaction row)) (Total_Paid row)
               (features row)) df.

(** ** Time-based validation sets (source lines 226-229) *)

Definition cutoff : Z := ymd 2020 10 1.

Definition train (df : DataFrame) : DataFrame :=
  filter (fun row => (transaction_date row < cutoff)%Z) df.

Definition val (df : DataFrame) : DataFrame :=
  filter (fun row => (cutoff <= transaction_date row)%Z) df.

(** *** The split on a date column that may hold missing values

    [pd.to_datetime] turns a missing date into [NaT] and raises nothing,
    and every comparison with [NaT] is False.  The rows of the model above
    carry a day number; [train_of] and [val_of] are the two selections of
    lines 226-229 on a frame of any rows whose date column [date] may hold
    [NaT]. *)
Inductive timestamp : Type :=
  | Day (z : Z)
  | NaT.

#[global] Instance timestamp_eq_dec : EqDecision timestamp.
Proof. solve_decision. Defined.

(** [ts < "2020-10-01"] and [ts >= "2020-10-01"] for a cutoff day [c]. *)
Definition ts_lt (ts : timestamp) (c : Z) : bool :=
  match ts with Day z => (z <? c)%Z | NaT => false end.

Definition ts_ge (ts : timestamp) (c : Z) : bool :=
  match ts with Day z => (c <=? z)%Z | NaT => false end.

Definition train_of {A : Type} (date : A -> timestamp) (df : list A)
  : list A :=
  filter (fun row => ts_lt (date row) cutoff = true) df.

Definition val_of {A : Type} (date : A -> timestamp) (df : list A)
  : list A :=
  filter (fun row => ts_ge (date row) cutoff = true) df.

(** The date column of the rows of the model. *)
Definition row_date (row : Row) : timestamp := Day (transaction_date row).

(** A small frame of (date, target) rows with one missing date. *)
Definition example_dated : list (timestamp * Q) :=
  [(Day (ymd 2020 9 30), 11); (NaT, 5); (Day (ymd 2020 10 1), 12)].

(** ** The script's constants and its run from line 137 to line 229 *)

Definition lag_spec : list nat :=
  [91; 92; 170; 171; 172; 173; 174; 175; 176; 177; 178; 179; 180; 181; 182;
   183; 184; 185; 186; 187; 188; 189; 190;
   350; 351; 352; 352; 354; 355; 356; 357; 358; 359; 360; 361; 362; 363; 364;
   365; 366; 367; 368; 369; 370;
   538; 539; 540; 541; 542;
   718; 719; 720; 721; 722]%nat.

Definition roll_windows : list nat :=
  [91; 92; 178; 179; 180; 181; 182; 359; 360; 361; 449; 450; 451; 539; 540;
   541; 629; 630; 631; 720]%nat.

Definition alphas : list pyfloat :=
  [mkFloat (95 # 100) "0.95"; mkFloat (9 # 10) "0.9"; mkFloat (8 # 10) "0.8";
   mkFloat (7 # 10) "0.7"; mkFloat (5 # 10) "0.5"].

Definition lags : list nat :=
  [91; 92; 178; 179; 180; 181; 182; 359; 360; 361; 449; 450; 451; 539; 540;
   541; 629; 630; 631; 720]%nat.

(** Feature engineering, calendar indicators, target transform and split,
    in the order the script runs them.  The date features and the one-hot
    encoding, which none of these steps reads, are left out. *)
Definition prepare (ln1p : Q -> Q) (df : DataFrame)
  : M (DataFrame * DataFrame) :=
  df ← lag_features df lag_spec;
  df ← roll_mean_features df roll_windows;
  df ← ewm_features df alphas lags;
  let df := add_is_black_friday df in
  let df := add_is_summer_solstice df in
  let df := log1p_target ln1p df in
  mret (train df, val df).

(** The last day of the data (source line 69) and the number of days of
    the validation window, from the cutoff to that day. *)
Definition last_day : Z := ymd 2020 12 31.
Definition horizon_length : Z := (last_day - cutoff + 1)%Z.

(** ** Notions used to state the properties *)

(** Two rows with the same source columns; the added columns may differ. *)
Definition same_base (a b : Row) : Prop :=
  merchant_id a = merchant_id b
  ∧ transaction_date a = transaction_date b
  ∧ Total_Transaction a = Total_Transaction b
  ∧ Total_Paid a = Total_Paid b.

(** What [groupby_transform] returns for a transform [g] that cannot
    raise. *)
Definition transform_values (g : list float64 -> list float64)
    (df : DataFrame) : list float64 :=
  imap (fun r row =>
          default NaN (g (group_series df (merchant_id row))
                         !! group_pos df r (merchant_id row))) df.

(** The generator after [n] more draws. *)
Definition advance (n : nat) (rs : RandomState) : RandomState :=
  mkRandomState (draws rs) (pos rs + n).

(** The noise that the [k]-th call of [random_noise] on a frame of [n]
    rows, counted from generator state [rs], adds at row [r]. *)
Definition noise_at (rs : RandomState) (k n r : nat) : Q :=
  (16 # 10) * draws rs (pos rs + k * n + r)%nat.

(** What [random_noise] returns on a frame of [n] rows in state [rs]. *)
Definition noise_vector (rs : RandomState) (n : nat) : list Q :=
  map (fun i => (16 # 10) * draws rs (pos rs + i)%nat) (seq 0 n).

(** A group-wise transform [g] of the target plus fresh noise. *)
Definition noisy_col (g : list float64 -> list float64) (df : DataFrame)
    (rs : RandomState) : list float64 :=
  series_add (transform_values g df) (noise_vector rs (length df)).

(** The value a row of merchant [m] at in-group position [i] receives from
    the group-wise transform [g]. *)
Definition group_value (g : list float64 -> list float64) (df : DataFrame)
    (m : Z) (i : nat) : float64 :=
  default NaN (g (group_series df m) !! i).

(** Position [k] is the last one of [ps] that writes the column of its
    parameter. *)
Definition last_writer {P} (name : P -> string) (ps : list P) (k : nat)
    (p : P) : Prop :=
  ps !! k = Some p
  ∧ ∀ k' p', (k < k')%nat -> ps !! k' = Some p' -> name p' ≠ name p.

(** The transforms that the three builders apply to a group's series. *)
Definition roll_transform (window : nat) (x : list float64) : list float64 :=
  roll_weighted_mean (shift 1 x) (triang window) 10.

Definition ewm_transform (alpha : Q) (lag : nat) (x : list float64)
  : list float64 :=
  ewm_values alpha 1 (shift lag x).

Definition valid_alpha (alpha : pyfloat) : Prop :=
  (0 < fval alpha)%Q ∧ (fval alpha <= 1)%Q.

Definition ewm_pair_name (p : pyfloat * nat) : string := ewm_name p.1 p.2.

(** Different (alpha, lag) pairs of the lists never share a column name. *)
Definition ewm_names_distinct (alphas : list pyfloat) (lags : list nat)
  : Prop :=
  ∀ a L a' L', a ∈ alphas -> L ∈ lags -> a' ∈ alphas -> L' ∈ lags ->
    ewm_name a L = ewm_name a' L' -> fval a = fval a' ∧ L = L'.

(** Both runs of [roll_mean_features] return, leave the generator in the
    same state, and give the column of window [W] the same value at row
    [r]. *)
Definition roll_cells_agree (df df' : DataFrame) (windows : list nat)
    (rs : RandomState) (W r : nat) : Prop :=
  ∃ (out out' : DataFrame) (rs1 : RandomState) (v : float64),
    roll_mean_features df windows rs = Returns (out, rs1)
    ∧ roll_mean_features df' windows rs = Returns (out', rs1)
    ∧ cell out r (roll_name W) = Some v
    ∧ cell out' r (roll_name W) = Some v.

(** Both runs of [ewm_features] return and give the column of [(a, L)] the
    same value, at row [r] of the first frame and row [r'] of the second. *)
Definition ewm_cells_agree (df df' : DataFrame) (alphas : list pyfloat)
    (lags : list nat) (rs rs' : RandomState) (a : pyfloat) (L r r' : nat)
  : Prop :=
  ∃ (out out' : DataFrame) (v : float64),
    ewm_features df alphas lags rs = Returns (out, rs)
    ∧ ewm_features df' alphas lags rs' = Returns (out', rs')
    ∧ cell out r (ewm_name a L) = Some v
    ∧ cell out' r' (ewm_name a L) = Some v.

(** Both runs of [lag_features] return and give the column of lag [L] the
    same noise-free value [v], to which each adds the noise of its own row:
    row [r] of the [k]-th noise vector of the first run, row [r'] of the
    [k]-th noise vector of the second. *)
Definition lag_cells_agree_up_to_noise (df df' : DataFrame) (lags : list nat)
    (rs rs' : RandomState) (L r r' : nat) : Prop :=
  ∃ (out out' : DataFrame) (rs1 rs1' : RandomState) (k : nat) (v : float64),
    lag_features df lags rs = Returns (out, rs1)
    ∧ lag_features df' lags rs' = Returns (out', rs1')
    ∧ lags !! k = Some L
    ∧ cell out r (lag_name L)
      = Some (fadd v (Fin (noise_at rs k (length df) r)))
    ∧ cell out' r' (lag_name L)
      = Some (fadd v (Fin (noise_at rs' k (length df') r'))).

Definition roll_cells_agree_up_to_noise (df df' : DataFrame)
    (windows : list nat) (rs rs' : RandomState) (W r r' : nat) : Prop :=
  ∃ (out out' : DataFrame) (rs1 rs1' : RandomState) (k : nat) (v : float64),
    roll_mean_features df windows rs = Returns (out, rs1)
    ∧ roll_mean_features df' windows rs' = Returns (out', rs1')
    ∧ windows !! k = Some W
    ∧ cell out r (roll_name W)
      = Some (fadd v (Fin (noise_at rs k (length df) r)))
    ∧ cell out' r' (roll_name W)
      = Some (fadd v (Fin (noise_at rs' k (length df') r'))).

(** Both runs of [lag_features] return and give the column of lag [L] the
    same value at row [r]. *)
Definition lag_cells_agree (df df' : DataFrame) (lags : list nat)
    (rs : RandomState) (L r : nat) : Prop :=
  ∃ (out out' : DataFrame) (rs1 : RandomState) (v : float64),
    lag_features df lags rs = Returns (out, rs1)
    ∧ lag_features df' lags rs = Returns (out', rs1)
    ∧ cell out r (lag_name L) = Some v
    ∧ cell out' r (lag_name L) = Some v.

(** ** Example data *)

Definition example_rs : RandomState :=
  mkRandomState (fun i => inject_Z (Z.of_nat i)) 0.

Definition example_row (m d : Z) (t : Q) : Row := mkRow m d (Fin t) (Fin 0) ∅.

Definition example_df : DataFrame :=
  [example_row 1 (ymd 2020 9 29) 10; example_row 2 (ymd 2020 9 29) 20;
   example_row 1 (ymd 2020 9 30) 11; example_row 1 (ymd 2020 10 1) 12;
   example_row 2 (ymd 2020 9 30) 21].

(** A single merchant's frame with the given targets, one row per day. *)
Definition example_series (m : Z) (ts : list Q) : DataFrame :=
  imap (fun i t => example_row m (ymd 2020 9 20 + Z.of_nat i) t) ts.

Definition example_past : list Q := [3; 1; 4; 1; 5; 9; 2; 6; 5; 3; 5].

Definition example_alphas : list pyfloat :=
  [mkFloat (5 # 10) "0.5"; mkFloat (9 # 10) "0.9"].

(** [example_df] without the rows of merchant 2. *)
Definition example_df_one_group : DataFrame :=
  filter (fun row => merchant_id row = 1%Z) example_df.

(** One merchant with a row for each day of the validation window,
    2020-10-01 to 2020-12-31; the target of day [i] is [100 + i]. *)
Definition example_quarter : DataFrame :=
  map (fun i => example_row 1 (cutoff + Z.of_nat i)
                            (inject_Z (100 + Z.of_nat i)))
      (seq 0 92).

(** * Further parts of the script *)

(** Two floats that denote the same value. *)
Definition float_equiv (x y : float64) : Prop :=
  match x, y with
  | Fin a, Fin b => a == b
  | NaN, NaN | PInf, PInf | NInf, NInf => True
  | _, _ => False
  end.

(** Two calls that end the same way: the same exception, or the same value. *)
Definition outcome_equiv (a b : outcome float64) : Prop :=
  match a, b with
  | Returns x, Returns y => float_equiv x y
  | Raises e, Raises e' => e = e'
  | _, _ => False
  end.

(** A finite float between two bounds. *)
Definition finite_between (lo hi : Q) (x : float64) : Prop :=
  ∃ q, x = Fin q ∧ (lo <= q)%Q ∧ (q <= hi)%Q.

(** ** Date features (source lines 97-112) *)

(** Year, month and day of a day number, as [.dt.year], [.dt.month] and
    [.dt.day] give them. *)
Definition civil (z : Z) : Z * Z * Z :=
  let z' := (z + 719468)%Z in
  let era := (z' / 146097)%Z in
  let doe := (z' - era * 146097)%Z in
  let yoe := ((doe - doe / 1460 + doe / 36524 - doe / 146096) / 365)%Z in
  let doy := (doe - (365 * yoe + yoe / 4 - yoe / 100))%Z in
  let mp := ((5 * doy + 2) / 153)%Z in
  let d := (doy - (153 * mp + 2) / 5 + 1)%Z in
  let m := (if mp <? 10 then mp + 3 else mp - 9)%Z in
  ((yoe + era * 400 + (if m <=? 2 then 1 else 0))%Z, m, d).

Definition dt_month (z : Z) : Z := (civil z).1.2.
Definition dt_day (z : Z) : Z := (civil z).2.

Definition is_leapyear (y : Z) : bool :=
  ((y mod 4 =? 0) && negb (y mod 100 =? 0) || (y mod 400 =? 0))%Z.

Definition days_in_month (y m : Z) : Z :=
  if (m =? 2)%Z then (if is_leapyear y then 29 else 28)%Z
  else if ((m =? 4) || (m =? 6) || (m =? 9) || (m =? 11))%Z then 30%Z
  else 31%Z.

(** [.dt.dayofyear], from 1. *)
Definition dt_dayofyear (z : Z) : Z := (z - ymd (dt_year z) 1 1 + 1)%Z.

(** [.dt.dayofweek] and [.dt.weekday]: Monday is 0; day 0 was a Thursday. *)
Definition dt_dayofweek (z : Z) : Z := ((z + 3) mod 7)%Z.

(** The ISO week from the day of the year, the weekday and the day of the
    month, by pandas' estimate-and-verify rule; [prev_leap] says whether
    the year before is a leap year. *)
Definition iso_week (doy dow day : Z) (prev_leap : bool) : Z :=
  let woy := (doy - 1 - dow + 3)%Z in
  let woy := (if 0 <=? woy then woy / 7 + 1 else woy)%Z in
  if (woy <? 0)%Z then
    (if (-2 <? woy)%Z || ((woy =? -2)%Z && prev_leap) then 53 else 52)%Z
  else if (woy =? 53)%Z then
    (if (31 - day + dow <? 3)%Z then 1%Z else woy)
  else woy.

(** [.dt.weekofyear]. *)
Definition dt_weekofyear (z : Z) : Z :=
  iso_week (dt_dayofyear z) (dt_dayofweek z) (dt_day z)
           (is_leapyear (dt_year z - 1)).

Definition dt_quarter (z : Z) : Z := ((dt_month z - 1) / 3 + 1)%Z.

Definition dt_is_month_start (z : Z) : bool := (dt_day z =? 1)%Z.
Definition dt_is_month_end (z : Z) : bool :=
  (dt_day z =? days_in_month (dt_year z) (dt_month z))%Z.
Definition dt_is_quarter_start (z : Z) : bool :=
  (((dt_month z - 1) mod 3 =? 0) && (dt_day z =? 1))%Z.
Definition dt_is_quarter_end (z : Z) : bool :=
  (((dt_month z - 12) mod 3 =? 0)
   && (dt_day z =? days_in_month (dt_year z) (dt_month z)))%Z.
Definition dt_is_year_start (z : Z) : bool :=
  ((dt_month z =? 1) && (dt_day z =? 1))%Z.
Definition dt_is_year_end (z : Z) : bool :=
  ((dt_month z =? 12)
   && (dt_day z =? days_in_month (dt_year z) (dt_month z)))%Z.

(** [.astype(int)] of a boolean. *)
Definition astype_int (b : bool) : Z := if b then 1%Z else 0%Z.

(** [df[name] = f(df["transaction_date"])] for an integer-valued [f]; an
    integer cell is the rational of that integer. *)
Definition set_date_column (name : string) (f : Z -> Z) (df : DataFrame)
  : DataFrame :=
  set_column name
    (map (fun row => Fin (inject_Z (f (transaction_date row)))) df) df.

(** [create_date_features(df, "transaction_date")]; the rows of the model
    have the one date column the script passes. *)
Definition create_date_features (df : DataFrame) : DataFrame :=
  let df := set_date_column "month" dt_month df in
  let df := set_date_column "day_of_month" dt_day df in
  let df := set_date_column "day_of_year" dt_dayofyear df in
  let df := set_date_column "week_of_year" dt_weekofyear df in
  let df := set_date_column "day_of_week" dt_dayofweek df in
  let df := set_date_column "year" dt_year df in
  let df := set_date_column "is_wknd" (fun z => dt_dayofweek z / 4)%Z df in
  let df := set_date_column "is_month_start"
              (fun z => astype_int (dt_is_month_start z)) df in
  let df := set_date_column "is_month_end"
              (fun z => astype_int (dt_is_month_end z)) df in
  let df := set_date_column "quarter" dt_quarter df in
  let df := set_date_column "is_quarter_start"
              (fun z => astype_int (dt_is_quarter_start z)) df in
  let df := set_date_column "is_quarter_end"
              (fun z => astype_int (dt_is_quarter_end z)) df in
  let df := set_date_column "is_year_start"
              (fun z => astype_int (dt_is_year_start z)) df in
  let df := set_date_column "is_year_end"
              (fun z => astype_int (dt_is_year_end z)) df in
  df.

(** The frame with a date part in a column is the frame row by row. *)
Definition with_date_cell (name : string) (f : Z -> Z) (row : Row) : Row :=
  mkRow (merchant_id row) (transaction_date row)
        (Total_Transaction row) (Total_Paid row)
        (<[name := Fin (inject_Z (f (transaction_date row)))]> (features row)).

(** The names of the columns [create_date_features] writes. *)
Definition date_feature_names : list string :=
  ["month"; "day_of_month"; "day_of_year"; "week_of_year"; "day_of_week";
   "year"; "is_wknd"; "is_month_start"; "is_month_end"; "quarter";
   "is_quarter_start"; "is_quarter_end"; "is_year_start"; "is_year_end"].

(** The cell of row [r] in column [name] holds the integer [v]. *)
Definition int_cell (df : DataFrame) (r : nat) (name : string) (v : Z)
  : Prop :=
  cell df r name = Some (Fin (inject_Z v)).

(** The number of days of year [y]. *)
Definition days_in_year (y : Z) : Z := if is_leapyear y then 366%Z else 365%Z.

(** The date after year [y], month [m], day [d]. *)
Definition next_day (y m d : Z) : Z * Z * Z :=
  if (d =? days_in_month y m)%Z then
    (if (m =? 12)%Z then (y + 1, 1, 1) else (y, m + 1, 1))%Z
  else (y, m, d + 1)%Z.

(** Year, month, day, day of the year and week of the year of a day
    number, the date being split once. *)
Definition date_parts (z : Z) : Z * Z * Z * Z * Z :=
  let '(y, m, d) := civil z in
  let doy := (z - ymd y 1 1 + 1)%Z in
  (y, m, d, doy, iso_week doy (dt_dayofweek z) d (is_leapyear (y - 1))).

(** The calendar facts that are checked day by day over one 400-year
    cycle, from the date parts of the day and of the day after: the parts
    are in range and give back the day number, the day of the year counts
    from January 1 to December 31, the day after has the next date, the
    week number is between 1 and 53, is 1 on January 4 and changes on
    Mondays only, by one or back to 1. *)
Definition calendar_ok (z : Z) (today tomorrow : Z * Z * Z * Z * Z) : bool :=
  let '(y, m, d, doy, w) := today in
  let '(y', m', d', _, w') := tomorrow in
  let '(y1, m1, d1) := next_day y m d in
  ((ymd y m d =? z)
   && (1 <=? m) && (m <=? 12) && (1 <=? d) && (d <=? days_in_month y m)
   && (1 <=? doy) && (doy <=? (if is_leapyear y then 366 else 365))
   && (y' =? y1) && (m' =? m1) && (d' =? d1)
   && Bool.eqb (doy =? 1) ((m =? 1) && (d =? 1))
   && Bool.eqb (doy =? (if is_leapyear y then 366 else 365))
               ((m =? 12) && (d =? 31))
   && (1 <=? w) && (w <=? 53)
   && (if dt_dayofweek (z + 1) =? 0
       then (w' =? w + 1) || (w' =? 1) else w' =? w)
   && implb ((m =? 1) && (d =? 4)) (w =? 1))%Z.

(** [P] holds of the [fuel] day numbers from [z] on, [today] being the
    date parts of [z]. *)
Fixpoint all_days (fuel : nat) (z : Z) (today : Z * Z * Z * Z * Z)
    (P : Z -> Z * Z * Z * Z * Z -> Z * Z * Z * Z * Z -> bool) : bool :=
  match fuel with
  | O => true
  | S fuel' =>
      let tomorrow := date_parts (z + 1) in
      P z today tomorrow && all_days fuel' (z + 1)%Z tomorrow P
  end.

(** The same facts as propositions. *)
Definition calendar_facts (z : Z) : Prop :=
  let y := dt_year z in
  let m := dt_month z in
  let d := dt_day z in
  (ymd y m d = z
   ∧ 1 <= m <= 12
   ∧ 1 <= d <= days_in_month y m
   ∧ 1 <= dt_dayofyear z <= (if is_leapyear y then 366 else 365)
   ∧ civil (z + 1) = next_day y m d
   ∧ (dt_dayofyear z = 1 <-> m = 1 ∧ d = 1)
   ∧ (dt_dayofyear z = (if is_leapyear y then 366 else 365)
      <-> m = 12 ∧ d = 31)
   ∧ 1 <= dt_weekofyear z <= 53
   ∧ (dt_dayofweek (z + 1) ≠ 0 -> dt_weekofyear (z + 1) = dt_weekofyear z)
   ∧ (dt_dayofweek (z + 1) = 0 ->
      dt_weekofyear (z + 1) = dt_weekofyear z + 1
      ∨ dt_weekofyear (z + 1) = 1)
   ∧ (m = 1 ∧ d = 4 -> dt_weekofyear z = 1))%Z.

(** ** Column names (source lines 192 and 222-223) *)

(** The characters of [[A-Za-z0-9_]]. *)
Definition name_char (c : Ascii.ascii) : bool :=
  let n := Ascii.nat_of_ascii c in
  ((65 <=? n) && (n <=? 90) || (97 <=? n) && (n <=? 122)
   || (48 <=? n) && (n <=? 57) || (n =? 95))%nat.

(** [re.sub('[^A-Za-z0-9_]+', '', x)], the function the script renames the
    columns with: every run of other characters is deleted. *)
Fixpoint sanitize (x : string) : string :=
  match x with
  | EmptyString => EmptyString
  | String c x' =>
      if name_char c then String c (sanitize x') else sanitize x'
  end.

(** The name [pd.get_dummies] gives the indicator column of the integer
    level [v] of column [col]: the column name, an underscore and
    [str(v)]. *)
Definition dummy_name (col : string) (v : Z) : string :=
  col +:+ "_" +:+ pretty v.

(** The columns [pd.get_dummies] is asked to encode. *)
Definition dummy_columns : list string := ["merchant_id"; "day_of_week"; "month"].

(** The columns of the data file the script reads, and the two calendar
    indicators. *)
Definition base_and_flag_names : list string :=
  ["transaction_date"; "merchant_id"; "Total_Transaction"; "Total_Paid";
   "is_black_friday"; "is_summer_solstice"].

(** ** Feature importance (source lines 280-293) *)

(** A row of the importance table. *)
Record importance_row : Type := mkImportance {
  feature : string;
  split : Z;
  gain : float64
}.

(** [100 * gain / gain.sum()]. *)
Definition gain_percent (gain_values : list Q) : list float64 :=
  let total := np_sum (Fin <$> gain_values) in
  (fun g => fdiv (fmul (Fin 100) (Fin g)) total) <$> gain_values.

(** [pd.DataFrame] of a dict of three arrays, which must have one
    length. *)
Definition pd_DataFrame (feature_name : list string) (split_values : list Z)
    (gain_column : list float64) : outcome (list importance_row) :=
  if decide (length feature_name = length split_values
             ∧ length split_values = length gain_column)
  then Returns (zip_with (fun '(f, s) g => mkImportance f s g)
                         (zip feature_name split_values) gain_column)
  else Raises ValueError.

(** The order of [sort_values('gain', ascending=False)]: larger gains
    first, [NaN] last. *)
Definition desc_nan_last (a b : float64) : bool :=
  match a, b with
  | _, NaN => true
  | NaN, _ => false
  | PInf, _ => true
  | _, PInf => false
  | _, NInf => true
  | NInf, _ => false
  | Fin x, Fin y => Qle_bool y x
  end.

Definition sorted_by_gain (a b : importance_row) : Prop :=
  desc_nan_last (gain a) (gain b) = true.

(** [.head(n)]: the first [n] rows, or all but the last [-n]. *)
Definition head {A : Type} (n : Z) (l : list A) : list A :=
  if (0 <=? n)%Z then take (Z.to_nat n) l
  else take (length l - Z.to_nat (- n)) l.

(** The sorted importance table of a model with the given feature names,
    split counts and gains.  [sort_values] is the sort pandas runs; the
    order it gives rows of equal gain is its own. *)
Definition feat_imp
    (sort_values : list importance_row -> list importance_row)
    (feature_name : list string) (split_values : list Z)
    (gain_values : list Q) : outcome (list importance_row) :=
  rows ← pd_DataFrame feature_name split_values (gain_percent gain_values);
  mret (sort_values rows).

(** [plot_lgb_importances(model, plot, num)]: the rows that are drawn or
    printed. *)
Definition plot_lgb_importances
    (sort_values : list importance_row -> list importance_row)
    (feature_name : list string) (split_values : list Z)
    (gain_values : list Q) (plot : bool) (num : Z)
  : outcome (list importance_row) :=
  feat_imp ← feat_imp sort_values feature_name split_values gain_values;
  mret (if plot then take 25 feat_imp else head num feat_imp).

(** Larger finite gain first. *)
Definition gain_ge (a b : importance_row) : Prop :=
  ∃ x y : Q, gain a = Fin x ∧ gain b = Fin y ∧ y <= x.

(** A table row from a feature, its split count and a finite gain. *)
Definition finite_row (fs : string * Z) (q : Q) : importance_row :=
  mkImportance fs.1 fs.2 (Fin q).

(** * Properties *)

(** Closes a decidable closed goal by evaluation. *)
Ltac by_decide := apply (bool_decide_unpack _); vm_compute; exact I.

(** ** The embedding on small inputs *)

Example ymd_epoch : ymd 1970 1 1 = 0%Z.
Proof. reflexivity. Qed.

Example ymd_cutoff : cutoff = 18536%Z ∧ dt_year cutoff = 2020%Z.
Proof. split; reflexivity. Qed.

Example ymd_leap_day :
  (ymd 2020 3 1 - ymd 2020 2 28 = 2)%Z ∧ (ymd 2019 3 1 - ymd 2019 2 28 = 1)%Z.
Proof. split; reflexivity. Qed.

Example shift_by_two :
  shift 2 [Fin 1; Fin 2; Fin 3] = [NaN; NaN; Fin 1].
Proof. reflexivity. Qed.

Example triang_even : triang 4 = [1 # 4; 3 # 4; 3 # 4; 1 # 4].
Proof. reflexivity. Qed.

Example triang_odd : Forall2 Qeq (triang 5) [1 # 3; 2 # 3; 1; 2 # 3; 1 # 3].
Proof. repeat constructor. Qed.

(** A constant series has the constant as its rolling mean, once ten
    observations lie under the window. *)
Example rolling_mean_of_constant :
  ∃ q, roll_transform 91 (replicate 12 (Fin 10)) !! 9%nat = Some NaN
       ∧ roll_transform 91 (replicate 12 (Fin 10)) !! 10%nat = Some (Fin q)
       ∧ q == 10.
Proof. eexists. split; [|split]; vm_compute; reflexivity. Qed.

(** Missing values are skipped by the window and do not count. *)
Example rolling_mean_skips_nan :
  roll_weighted_mean [Fin 1; Fin 2; NaN; Fin 4] (triang 3) 2
  = [NaN; Fin (512 # 384); Fin (640 # 384); Fin (768 # 256)].
Proof. vm_compute. reflexivity. Qed.

(** [ewm(alpha=0.5)] of 10, 11, 12: 10, then (11 + 10/2) / (1 + 1/2), then
    (12 + 11/2 + 10/4) / (1 + 1/2 + 1/4). *)
Example ewm_of_three :
  Forall2 (fun x q => ∃ q', x = Fin q' ∧ q' == q)
          (ewm_values (1 # 2) 1 [Fin 10; Fin 11; Fin 12])
          [10; 32 # 3; 80 # 7].
Proof. repeat constructor; eexists; (split; [reflexivity|]); reflexivity. Qed.

Example ewm_after_shift :
  ewm_transform (1 # 2) 1 [Fin 10; Fin 11] = [NaN; Fin 10].
Proof. reflexivity. Qed.

Example smape_length_mismatch :
  smape [1; 2] [3] = Raises IndexError
  ∧ smape [1; 2; 3] [3; 4] = Raises ValueError.
Proof. split; reflexivity. Qed.

Example ewm_column_name :
  ewm_name (mkFloat (95 # 100) "0.95") 91 = "sales_ewm_alpha_095_lag_91".
Proof. reflexivity. Qed.

(** ** Rational arithmetic *)

Lemma Qis_zero_true (q : Q) : Qis_zero q = true <-> q == 0.
Proof. unfold Qis_zero. apply Qeq_bool_iff. Qed.

Lemma Qis_zero_false (q : Q) : Qis_zero q = false <-> ~ q == 0.
Proof.
  rewrite <- Qis_zero_true. destruct (Qis_zero q); split; congruence.
Qed.

Lemma Qabs_zero_inv (q : Q) : Qabs q == 0 -> q == 0.
Proof.
  apply Qabs_case; intros; lra.
Qed.

Lemma masked_denom_pos (p t : Q) :
  masked p t = true -> 0 < Qabs p + Qabs t.
Proof.
  unfold masked. intros H.
  pose proof (Qabs_nonneg p) as Hp. pose proof (Qabs_nonneg t) as Ht.
  destruct (Qlt_le_dec 0 (Qabs p + Qabs t)) as [|Hle]; [done|].
  assert (Qabs p == 0) as Hp0 by lra.
  assert (Qabs t == 0) as Ht0 by lra.
  apply Qabs_zero_inv, Qis_zero_true in Hp0.
  apply Qabs_zero_inv, Qis_zero_true in Ht0.
  rewrite Hp0, Ht0 in H. discriminate.
Qed.

Lemma Qabs_diff_le (p t : Q) : Qabs (p - t) <= Qabs p + Qabs t.
Proof.
  unfold Qminus. eapply Qle_trans; [apply Qabs_triangle|].
  rewrite Qabs_opp. lra.
Qed.

(** ** SMAPE *)

Lemma ratio_bounds (p t : Q) : 0 <= ratio p t <= 1.
Proof.
  unfold ratio. destruct (Qis_zero p && Qis_zero t) eqn:E; [lra|].
  assert (0 < Qabs p + Qabs t) as Hpos.
  { apply masked_denom_pos. unfold masked. by rewrite E. }
  split.
  - apply Qle_shift_div_l; [done|]. pose proof (Qabs_nonneg (p - t)). lra.
  - apply Qle_shift_div_r; [done|]. pose proof (Qabs_diff_le p t). lra.
Qed.

Lemma smape_term_ratio (p t : Q) : smape_term p t == 200 * ratio p t.
Proof.
  unfold smape_term, ratio. destruct (Qis_zero p && Qis_zero t); [lra|].
  unfold Qdiv. ring.
Qed.

Lemma outcome_bind_ret {A B} (a : A) (k : A -> outcome B) :
  Returns a ≫= k = k a.
Proof. reflexivity. Qed.

Lemma bool_index_same {A} (a : list A) (mask : list bool) :
  length a = length mask -> bool_index a mask = Returns (select a mask).
Proof.
  intros H. unfold bool_index. by rewrite H, Nat.eqb_refl.
Qed.

Lemma smape_equal_length (preds target : list Q) :
  length preds = length target ->
  smape preds target =
  Returns
    (let m := zip_with masked preds target in
     let preds' := select preds m in
     let target' := select target m in
     fdiv (fmul (Fin 200)
             (np_sum (zip_with np_divide
                        (zip_with (fun p t => Qabs (p - t)) preds' target')
                        (zip_with (fun p t => Qabs p + Qabs t) preds' target'))))
          (Fin (inject_Z (Z.of_nat (length preds))))).
Proof.
  intros Hlen. unfold smape, np_mask.
  rewrite (proj2 (Nat.eqb_eq _ _) Hlen), outcome_bind_ret.
  rewrite !bool_index_same, !outcome_bind_ret;
    [reflexivity | | ]; rewrite length_zip_with; lia.
Qed.

(** The masked quotients add up, without ever leaving the finite floats,
    to the sum of the per-position ratios. *)
Lemma masked_sum (preds : list Q) : ∀ (target : list Q) (a : Q),
  length preds = length target ->
  let m := zip_with masked preds target in
  let preds' := select preds m in
  let target' := select target m in
  ∃ s : Q,
    foldl fadd (Fin a)
      (zip_with np_divide
         (zip_with (fun p t => Qabs (p - t)) preds' target')
         (zip_with (fun p t => Qabs p + Qabs t) preds' target')) = Fin s
    ∧ s == a + Qsum (zip_with ratio preds target).
Proof.
  induction preds as [|p preds IH]; intros [|t target] a Hlen;
    try discriminate; cbn.
  - exists a. split; [done|lra].
  - injection Hlen as Hlen.
    destruct (masked p t) eqn:Hm; cbn.
    + pose proof (masked_denom_pos p t Hm) as Hpos.
      unfold np_divide at 1. cbn.
      assert (Qis_zero (Qabs p + Qabs t) = false) as ->.
      { apply Qis_zero_false. lra. }
      cbn. destruct (IH target (a + Qabs (p - t) / (Qabs p + Qabs t)) Hlen)
        as (s & Hs & Heq).
      exists s. split; [exact Hs|].
      rewrite Heq. unfold ratio at 2.
      unfold masked in Hm. apply negb_true_iff in Hm. rewrite Hm. unfold Qsum. ring.
    + destruct (IH target a Hlen) as (s & Hs & Heq).
      exists s. split; [exact Hs|].
      rewrite Heq. unfold ratio at 2.
      unfold masked in Hm. apply negb_false_iff in Hm. rewrite Hm. unfold Qsum. ring.
Qed.

Lemma Qsum_cons (x : Q) (xs : list Q) : Qsum (x :: xs) = x + Qsum xs.
Proof. reflexivity. Qed.

Lemma Qsum_terms_ratio (preds : list Q) : ∀ target : list Q,
  Qsum (zip_with smape_term preds target)
  == 200 * Qsum (zip_with ratio preds target).
Proof.
  induction preds as [|p preds IH]; intros [|t target];
    cbn [zip_with]; try (cbn; lra).
  rewrite !Qsum_cons, IH, smape_term_ratio. lra.
Qed.

Lemma Qsum_ratio_bounds (preds : list Q) : ∀ target : list Q,
  0 <= Qsum (zip_with ratio preds target)
  ∧ Qsum (zip_with ratio preds target) <= inject_Z (Z.of_nat (length preds)).
Proof.
  induction preds as [|p preds IH]; intros [|t target].
  - split; unfold Qle; cbn; lia.
  - split; unfold Qle; cbn; lia.
  - cbn [zip_with]. split; [cbn; lra|].
    change (Qsum []) with (inject_Z 0). rewrite <- Zle_Qle. lia.
  - cbn [zip_with length]. rewrite Qsum_cons. destruct (IH target) as [H0 H1].
    pose proof (ratio_bounds p t) as [Hr0 Hr1].
    rewrite Nat2Z.inj_succ. unfold Z.succ. rewrite inject_Z_plus.
    change (inject_Z 1) with 1. lra.
Qed.

Lemma length_pos_Q {A} (l : list A) :
  l ≠ [] -> 0 < inject_Z (Z.of_nat (length l)).
Proof.
  intros Hne. destruct l; [done|].
  change 0 with (inject_Z 0). rewrite <- Zlt_Qlt. cbn [length]. lia.
Qed.

(** Value of the metric on equal-length, non-empty arrays. *)
Lemma smape_value (preds target : list Q) :
  length preds = length target -> preds ≠ [] ->
  ∃ s : Q,
    smape preds target
    = Returns (Fin (200 * s / inject_Z (Z.of_nat (length preds))))
    ∧ s == Qsum (zip_with ratio preds target).
Proof.
  intros Hlen Hne. rewrite (smape_equal_length _ _ Hlen). cbn zeta.
  destruct (masked_sum preds target 0 Hlen) as (s & Hs & Heq).
  exists s. split; [|lra].
  unfold np_sum. cbn zeta in Hs. rewrite Hs. cbn.
  assert (Qis_zero (inject_Z (Z.of_nat (length preds))) = false) as ->.
  { apply Qis_zero_false. pose proof (length_pos_Q preds Hne). lra. }
  reflexivity.
Qed.

(** C1: on equal-length, non-empty arrays [smape] returns a finite number
    equal to the average, over the original length, of the per-position
    terms: zero where prediction and target are both zero (exactly the
    positions the mask drops), and [200 * |p - t| / (|p| + |t|)]
    elsewhere. *)
Theorem smape_masks_and_averages (preds target : list Q) :
  length preds = length target -> preds ≠ [] ->
  ∃ v : Q,
    smape preds target = Returns (Fin v)
    ∧ v == smape_spec preds target
    ∧ (∀ i p t, preds !! i = Some p -> target !! i = Some t ->
         zip_with masked preds target !! i
         = Some (negb (Qis_zero p && Qis_zero t))
         ∧ (Qis_zero p && Qis_zero t = true -> smape_term p t == 0)
         ∧ (Qis_zero p && Qis_zero t = false ->
              smape_term p t == 200 * Qabs (p - t) / (Qabs p + Qabs t))).
Proof.
  intros Hlen Hne.
  destruct (smape_value preds target Hlen Hne) as (s & Hs & Heq).
  eexists. split; [exact Hs|]. split.
  - unfold smape_spec. rewrite Qsum_terms_ratio, Heq. reflexivity.
  - intros i p t Hp Ht. split; [|split].
    + rewrite lookup_zip_with, Hp. cbn. rewrite Ht. reflexivity.
    + intros E. unfold smape_term. rewrite E. reflexivity.
    + intros E. unfold smape_term. rewrite E. reflexivity.
Qed.

Lemma smape_masks_and_averages_witness :
  ∃ v : Q, smape [10; 0; 3] [0; 0; 1] = Returns (Fin v)
           ∧ v == smape_spec [10; 0; 3] [0; 0; 1].
Proof.
  destruct (smape_masks_and_averages [10; 0; 3] [0; 0; 1]) as (v & H1 & H2 & _);
    [reflexivity | discriminate |].
  exists v. split; assumption.
Defined.

Lemma smape_range (preds target : list Q) :
  length preds = length target -> preds ≠ [] ->
  ∃ v : Q, smape preds target = Returns (Fin v) ∧ 0 <= v <= 200.
Proof.
  intros Hlen Hne.
  destruct (smape_value preds target Hlen Hne) as (s & Hs & Heq).
  eexists. split; [exact Hs|].
  pose proof (Qsum_ratio_bounds preds target) as [H0 H1].
  pose proof (length_pos_Q preds Hne) as Hn.
  split.
  - apply Qle_shift_div_l; [done|]. lra.
  - apply Qle_shift_div_r; [done|]. lra.
Qed.

(** *** The metric on float arrays *)












Lemma smape_f64_equal_length (preds target : list float64) :
  length preds = length target ->
  smape_f64 preds target
  = Returns (f64_div (f64_mul (Fin 200)
                        (np_sum_f64 (smape_terms_f64 preds target)))
                     (Fin (inject_Z (Z.of_nat (length preds))))).
Proof.
  intros Hlen. unfold smape_f64, np_mask_f64.
  rewrite (proj2 (Nat.eqb_eq _ _) Hlen), outcome_bind_ret.
  rewrite !bool_index_same, !outcome_bind_ret;
    [reflexivity | | ]; rewrite length_zip_with; lia.
Qed.








(** Where a difference or a sum of magnitudes overflows, the metric of the
    code is NaN or 0 where exact arithmetic gives 200 or 40. *)
Example smape_f64_overflow :
  smape_f64 [Fin (inject_Z (2 ^ 1023))] [Fin (inject_Z (- 2 ^ 1023))]
  = Returns NaN
  ∧ (∃ v, smape [inject_Z (2 ^ 1023)] [inject_Z (- 2 ^ 1023)]
          = Returns (Fin v) ∧ v == 200)
  ∧ (∃ v, smape_f64 [Fin (inject_Z (3 * 2 ^ 1022))] [Fin (inject_Z (2 ^ 1023))]
          = Returns (Fin v) ∧ v == 0)
  ∧ (∃ v, smape [inject_Z (3 * 2 ^ 1022)] [inject_Z (2 ^ 1023)]
          = Returns (Fin v) ∧ v == 40).
Proof.
  split; [by vm_compute|].
  split; [eexists; split; [vm_compute; reflexivity | by vm_compute]|].
  split; eexists; (split; [vm_compute; reflexivity | by vm_compute]).
Qed.




(** C9, as the code has it: [smape] has no failure of its own.  On arrays
    of equal length it always returns, and on empty arrays it divides the
    empty sum 0.0 by the length 0 and returns NaN. *)
Theorem smape_empty_is_nan :
  smape [] [] = Returns NaN
  ∧ (∀ preds target : list Q,
       length preds = length target -> ∃ v, smape preds target = Returns v)
  ∧ (∀ preds target : list Q,
       length preds = length target -> preds ≠ [] ->
       ∃ q, smape preds target = Returns (Fin q)).
Proof.
  split; [reflexivity|]. split.
  - intros preds target Hlen. rewrite (smape_equal_length _ _ Hlen). eauto.
  - intros preds target Hlen Hne.
    destruct (smape_value preds target Hlen Hne) as (s & Hs & _). eauto.
Qed.

(** C9 as stated fails: the call on empty arrays does not raise. *)
Lemma smape_empty_does_not_raise : ¬ ∃ e : exn, smape [] [] = Raises e.
Proof. intros [e He]. discriminate He. Qed.

(** ** Time-based split *)

Lemma train_val_of_cons {A : Type} (date : A -> timestamp) (row : A)
    (df : list A) :
  match date row with
  | Day z =>
      if decide (z < cutoff)%Z
      then train_of date (row :: df) = row :: train_of date df
           ∧ val_of date (row :: df) = val_of date df
      else train_of date (row :: df) = train_of date df
           ∧ val_of date (row :: df) = row :: val_of date df
  | NaT =>
      train_of date (row :: df) = train_of date df
      ∧ val_of date (row :: df) = val_of date df
  end.
Proof.
  unfold train_of, val_of. rewrite !filter_cons.
  destruct (date row) as [z|]; cbn [ts_lt ts_ge].
  - destruct (decide (z < cutoff)%Z) as [Hz|Hz].
    + rewrite (proj2 (Z.ltb_lt _ _) Hz).
      rewrite (proj2 (Z.leb_gt _ _) Hz). by rewrite decide_True, decide_False.
    + rewrite (proj2 (Z.ltb_ge _ _)) by lia.
      rewrite (proj2 (Z.leb_le _ _)) by lia.
      by rewrite decide_False, decide_True.
  - by rewrite !decide_False.
Qed.

Lemma split_holds_the_dated_rows {A : Type} (date : A -> timestamp)
    (df : list A) :
  train_of date df ++ val_of date df
  ≡ₚ filter (fun row => date row ≠ NaT) df.
Proof.
  induction df as [|row df IH]; [done|].
  pose proof (train_val_of_cons date row df) as H.
  rewrite filter_cons. destruct (date row) as [z|] eqn:Hd.
  - rewrite decide_True by done.
    destruct (decide (z < cutoff)%Z); destruct H as [-> ->].
    + cbn. by rewrite IH.
    + rewrite <- Permutation_middle. by rewrite IH.
  - rewrite decide_False by (intros H'; by apply H').
    destruct H as [-> ->]. exact IH.
Qed.

Lemma filter_all {A : Type} (P : A -> Prop) `{!∀ x, Decision (P x)}
    (l : list A) :
  Forall P l -> filter P l = l.
Proof.
  induction 1 as [|x l Hx _ IH]; [done|].
  by rewrite filter_cons_True, IH.
Qed.

Lemma train_val_of_rows (df : DataFrame) :
  train df = train_of row_date df ∧ val df = val_of row_date df.
Proof.
  unfold train, val, train_of, val_of, row_date. cbn [ts_lt ts_ge].
  split; apply list_filter_iff; intros row.
  - symmetry. apply Z.ltb_lt.
  - symmetry. apply Z.leb_le.
Qed.

(** C2, as the code has it: the two selections of lines 226-229 are
    disjoint, every train date is before the cutoff 2020-10-01 and every
    validation date is on or after it, and together they hold exactly the
    rows that have a date.  A row whose date is missing ([NaT]) fails both
    comparisons and is in neither part, so the two parts cover the frame
    exactly when no date is missing; on the frames of the model, whose
    rows all carry a day number, they do. *)
Theorem split_partitions_the_dated_rows {A : Type} (date : A -> timestamp)
    (df : list A) :
  train_of date df ++ val_of date df
  ≡ₚ filter (fun row => date row ≠ NaT) df
  ∧ (∀ row, row ∈ train_of date df -> row ∉ val_of date df)
  ∧ Forall (fun row => ∃ z, date row = Day z ∧ (z < cutoff)%Z)
           (train_of date df)
  ∧ Forall (fun row => ∃ z, date row = Day z ∧ (cutoff <= z)%Z)
           (val_of date df)
  ∧ (∀ row, date row = NaT ->
       (row ∉ train_of date df) ∧ (row ∉ val_of date df))
  ∧ ((train_of date df ++ val_of date df ≡ₚ df)
     <-> Forall (fun row => date row ≠ NaT) df)
  ∧ cutoff = ymd 2020 10 1
  ∧ (∀ rows : DataFrame,
       train rows = train_of row_date rows
       ∧ val rows = val_of row_date rows
       ∧ train rows ++ val rows ≡ₚ rows).
Proof.
  pose proof (split_holds_the_dated_rows date df) as Hperm.
  assert (∀ row, row ∈ train_of date df ->
            ∃ z, date row = Day z ∧ (z < cutoff)%Z) as Htrain.
  { intros row [H _]%list_elem_of_filter.
    destruct (date row) as [z|]; [|done]. exists z. split; [done|].
    by apply Z.ltb_lt. }
  assert (∀ row, row ∈ val_of date df ->
            ∃ z, date row = Day z ∧ (cutoff <= z)%Z) as Hval.
  { intros row [H _]%list_elem_of_filter.
    destruct (date row) as [z|]; [|done]. exists z. split; [done|].
    by apply Z.leb_le. }
  split; [exact Hperm|].
  split.
  { intros row (z & Hz & Hlt)%Htrain (z' & Hz' & Hge)%Hval.
    rewrite Hz in Hz'. injection Hz' as <-. lia. }
  split; [by apply Forall_forall|].
  split; [by apply Forall_forall|].
  split.
  { intros row Hnat. split.
    - intros (z & Hz & _)%Htrain. congruence.
    - intros (z & Hz & _)%Hval. congruence. }
  split.
  { split.
    - intros Hall. apply Forall_forall. intros row Hrow Hnat.
      rewrite <- Hall, Hperm in Hrow.
      by apply list_elem_of_filter in Hrow as [Hne _].
    - intros Hall. rewrite Hperm. by rewrite filter_all. }
  split; [reflexivity|].
  intros rows. destruct (train_val_of_rows rows) as [-> ->].
  split; [done|]. split; [done|].
  rewrite (split_holds_the_dated_rows row_date rows).
  rewrite filter_all; [done|]. by apply Forall_forall.
Qed.

(** C2 as stated fails: in a frame with a row whose date is missing the
    train and validation sets together do not contain every input row. *)
Lemma split_drops_the_row_without_a_date :
  ¬ (∀ df : list (timestamp * Q),
       train_of fst df ++ val_of fst df ≡ₚ df).
Proof.
  intros H. specialize (H example_dated).
  apply Permutation_length in H. vm_compute in H. discriminate H.
Qed.

Local Close Scope Q_scope.

(** ** Series operations *)

Lemma lookup_of_take_eq {A} (xs ys : list A) (n i : nat) :
  take n xs = take n ys -> i < n -> xs !! i = ys !! i.
Proof.
  intros H Hi.
  rewrite <- (lookup_take_lt xs n i), <- (lookup_take_lt ys n i) by done.
  by rewrite H.
Qed.

Lemma length_shift (L : nat) (x : list float64) :
  length (shift L x) = length x.
Proof.
  unfold shift. rewrite length_take, length_app, length_replicate. lia.
Qed.

Lemma shift_lookup_lt (L : nat) (x : list float64) (i : nat) :
  i < L -> i < length x -> shift L x !! i = Some NaN.
Proof.
  intros HL Hi. unfold shift. rewrite lookup_take_lt by done.
  rewrite lookup_app_l by (rewrite length_replicate; lia).
  by apply lookup_replicate_2.
Qed.

Lemma shift_lookup_ge (L : nat) (x : list float64) (i : nat) :
  L <= i -> i < length x -> shift L x !! i = x !! (i - L).
Proof.
  intros HL Hi. unfold shift. rewrite lookup_take_lt by done.
  rewrite lookup_app_r by (rewrite length_replicate; lia).
  by rewrite length_replicate.
Qed.

(** The first [j + 1] entries of [shift L xs] are fixed by the first
    [j + 1 - L] entries of [xs]. *)
Lemma shift_prefix (L : nat) (xs ys : list float64) (j : nat) :
  j < length xs -> j < length ys ->
  take (S j - L) xs = take (S j - L) ys ->
  ∀ i, i <= j -> shift L xs !! i = shift L ys !! i.
Proof.
  intros Hx Hy Htake i Hi. destruct (decide (i < L)).
  - by rewrite !shift_lookup_lt by lia.
  - rewrite !shift_lookup_ge by lia.
    apply lookup_of_take_eq with (S j - L); [done | lia].
Qed.

Lemma window_terms_prefix (xs ys : list float64) (w : list Q) (j : nat) :
  (∀ i, i <= j -> xs !! i = ys !! i) ->
  window_terms xs w j = window_terms ys w j.
Proof.
  intros H. unfold window_terms. apply list_omap_ext.
  apply Forall_Forall2_diag, Forall_forall. intros [win_i q] _.
  case_decide; [|done]. rewrite H by lia. done.
Qed.

Lemma length_roll_weighted_mean (xs : list float64) (w : list Q) (mp : nat) :
  length (roll_weighted_mean xs w mp) = length xs.
Proof. unfold roll_weighted_mean. by rewrite length_map, length_seq. Qed.

(** The rolling mean at position [j] reads positions up to [j] only. *)
Lemma roll_weighted_mean_prefix (xs ys : list float64) (w : list Q)
    (mp j : nat) :
  j < length xs -> j < length ys ->
  (∀ i, i <= j -> xs !! i = ys !! i) ->
  roll_weighted_mean xs w mp !! j = roll_weighted_mean ys w mp !! j.
Proof.
  intros Hx Hy H. unfold roll_weighted_mean.
  rewrite !list_lookup_fmap, !lookup_seq_lt by done. cbn.
  by rewrite (window_terms_prefix xs ys w j H).
Qed.

Lemma length_ewm_scan (alpha : Q) (mp : nat) (xs : list float64) :
  ∀ s, length (ewm_scan alpha mp s xs) = length xs.
Proof. induction xs as [|x xs IH]; intros s; cbn; [done|]. by rewrite IH. Qed.

Lemma length_ewm_values (alpha : Q) (mp : nat) (xs : list float64) :
  length (ewm_values alpha mp xs) = length xs.
Proof. destruct xs; cbn; [done|]. by rewrite length_ewm_scan. Qed.

Lemma ewm_scan_prefix (alpha : Q) (mp : nat) (xs : list float64) :
  ∀ (ys : list float64) (s : ewm_acc) (j : nat),
  j < length xs -> j < length ys ->
  (∀ i, i <= j -> xs !! i = ys !! i) ->
  ewm_scan alpha mp s xs !! j = ewm_scan alpha mp s ys !! j.
Proof.
  induction xs as [|x xs IH]; intros [|y ys] s j Hx Hy H; cbn in *; try lia.
  assert (x = y) as ->. { specialize (H 0 ltac:(lia)). by injection H. }
  destruct j as [|j]; cbn; [done|].
  apply IH; [lia | lia |]. intros i Hi. apply (H (S i)). lia.
Qed.

(** The exponentially weighted mean at position [j] reads positions up to
    [j] only. *)
Lemma ewm_values_prefix (alpha : Q) (mp : nat) (xs ys : list float64)
    (j : nat) :
  j < length xs -> j < length ys ->
  (∀ i, i <= j -> xs !! i = ys !! i) ->
  ewm_values alpha mp xs !! j = ewm_values alpha mp ys !! j.
Proof.
  intros Hx Hy H. destruct xs as [|x xs], ys as [|y ys]; cbn in *; try lia.
  assert (x = y) as ->. { specialize (H 0 ltac:(lia)). by injection H. }
  destruct j as [|j]; cbn; [done|].
  apply ewm_scan_prefix; [lia | lia |]. intros i Hi. apply (H (S i)). lia.
Qed.

(** ** Frames and groups *)

Lemma filter_merchant_base (m : Z) (df df' : DataFrame) :
  Forall2 same_base df df' ->
  Total_Transaction <$> filter (fun row => merchant_id row = m) df
  = Total_Transaction <$> filter (fun row => merchant_id row = m) df'.
Proof.
  induction 1 as [|a b df df' (Hm & _ & Ht & _) _ IH]; [done|].
  rewrite !filter_cons. rewrite <- Hm.
  destruct (decide (merchant_id a = m)); [|done].
  cbn. by rewrite Ht, IH.
Qed.

Lemma group_series_base (m : Z) (df df' : DataFrame) :
  Forall2 same_base df df' -> group_series df m = group_series df' m.
Proof. apply filter_merchant_base. Qed.

Lemma group_pos_base (m : Z) (r : nat) (df df' : DataFrame) :
  Forall2 same_base df df' -> group_pos df r m = group_pos df' r m.
Proof.
  intros H. unfold group_pos.
  apply (Forall2_take _ _ _ r) in H.
  apply (filter_merchant_base m) in H.
  apply (f_equal length) in H. by rewrite !length_fmap in H.
Qed.

Lemma group_series_take (df : DataFrame) (r : nat) (m : Z) :
  take (group_pos df r m) (group_series df m) = group_series (take r df) m.
Proof.
  unfold group_pos, group_series.
  rewrite <- (take_drop r df) at 2. rewrite filter_app, fmap_app.
  rewrite take_app_length'; [done|]. by rewrite length_fmap.
Qed.

Lemma group_series_lookup_pos (df : DataFrame) (r : nat) (row : Row) :
  df !! r = Some row ->
  group_series df (merchant_id row) !! group_pos df r (merchant_id row)
  = Some (Total_Transaction row).
Proof.
  intros Hr. unfold group_pos, group_series.
  pose proof (take_drop_middle df r row Hr) as Hd.
  set (i := length (filter _ (take r df))).
  rewrite <- Hd. subst i.
  rewrite filter_app, filter_cons_True by done.
  rewrite fmap_app, lookup_app_r by (by rewrite length_fmap).
  rewrite length_fmap, Nat.sub_diag. done.
Qed.

Lemma group_pos_lt (df : DataFrame) (r : nat) (row : Row) :
  df !! r = Some row ->
  group_pos df r (merchant_id row) < length (group_series df (merchant_id row)).
Proof.
  intros Hr. apply lookup_lt_is_Some.
  rewrite (group_series_lookup_pos df r row Hr). eauto.
Qed.

Lemma mapM_returns {A B} (f : A -> outcome B) (h : A -> B) (l : list A) :
  (∀ x, f x = Returns (h x)) -> mapM f l = Returns (h <$> l).
Proof.
  intros H. induction l as [|x l IH]; [done|].
  cbn. rewrite H. cbn. rewrite IH. done.
Qed.

Lemma groupby_transform_returns (f : list float64 -> outcome (list float64))
    (g : list float64 -> list float64) (df : DataFrame) :
  (∀ x, f x = Returns (g x)) ->
  groupby_transform f df = Returns (transform_values g df).
Proof.
  intros H. unfold groupby_transform, transform_values.
  rewrite (mapM_returns _
    (fun '(r, row) =>
       default NaN (g (group_series df (merchant_id row))
                      !! group_pos df r (merchant_id row)))).
  - rewrite fmap_imap. reflexivity.
  - intros [r row]. rewrite H. reflexivity.
Qed.

Lemma length_transform_values (g : list float64 -> list float64)
    (df : DataFrame) :
  length (transform_values g df) = length df.
Proof. apply length_imap. Qed.

Lemma transform_values_lookup (g : list float64 -> list float64)
    (df : DataFrame) (r : nat) (row : Row) :
  df !! r = Some row ->
  transform_values g df !! r
  = Some (default NaN (g (group_series df (merchant_id row))
                         !! group_pos df r (merchant_id row))).
Proof.
  intros Hr. unfold transform_values. by rewrite list_lookup_imap, Hr.
Qed.

Lemma transform_values_base (g : list float64 -> list float64)
    (df df' : DataFrame) :
  Forall2 same_base df df' -> transform_values g df = transform_values g df'.
Proof.
  intros H. apply list_eq. intros r. unfold transform_values.
  rewrite !list_lookup_imap.
  destruct (df !! r) as [row|] eqn:Hr.
  - destruct (Forall2_lookup_l _ _ _ _ _ H Hr) as (row' & Hr' & Hb).
    rewrite Hr'. cbn. destruct Hb as (Hm & _).
    rewrite <- Hm, (group_series_base _ df df' H), (group_pos_base _ _ df df' H).
    done.
  - apply lookup_ge_None_1 in Hr. rewrite (Forall2_length _ _ _ H) in Hr.
    apply lookup_ge_None_2 in Hr. by rewrite Hr.
Qed.

Lemma length_set_column (name : string) (col : list float64) (df : DataFrame) :
  length (set_column name col df) = length df.
Proof. apply length_imap. Qed.

Lemma set_column_base (name : string) (col : list float64) (df : DataFrame) :
  Forall2 same_base df (set_column name col df).
Proof.
  apply Forall2_same_length_lookup. split; [by rewrite length_set_column|].
  intros r a b Ha Hb. unfold set_column in Hb.
  rewrite list_lookup_imap, Ha in Hb. injection Hb as <-. by repeat split.
Qed.

Lemma cell_set_column_eq (name : string) (col : list float64) (df : DataFrame)
    (r : nat) :
  r < length df ->
  cell (set_column name col df) r name = Some (default NaN (col !! r)).
Proof.
  intros [row Hr]%lookup_lt_is_Some. unfold cell, set_column.
  rewrite list_lookup_imap, Hr. cbn. apply lookup_insert_eq.
Qed.

Lemma cell_set_column_ne (name s : string) (col : list float64)
    (df : DataFrame) (r : nat) :
  name ≠ s -> cell (set_column name col df) r s = cell df r s.
Proof.
  intros Hne. unfold cell, set_column. rewrite list_lookup_imap.
  destruct (df !! r) as [row|]; [|done]. cbn. by apply lookup_insert_ne.
Qed.

#[local] Instance same_base_refl : Reflexive same_base.
Proof. by repeat split. Qed.

#[local] Instance same_base_trans : Transitive same_base.
Proof.
  intros a b c (?&?&?&?) (?&?&?&?). repeat split; congruence.
Qed.

(** ** Loops that assign one column per parameter *)

Lemma for_each_cons {P A} (body : A -> P -> M A) (a : A) (p : P)
    (ps : list P) (rs : RandomState) :
  for_each body a (p :: ps) rs
  = match body a p rs with
    | Returns (a', rs') => for_each body a' ps rs'
    | Raises e => Raises e
    end.
Proof. reflexivity. Qed.

Lemma for_each_app {P A} (body : A -> P -> M A) (ps qs : list P) :
  ∀ (a : A) (rs : RandomState),
  for_each body a (ps ++ qs) rs
  = match for_each body a ps rs with
    | Returns (a', rs') => for_each body a' qs rs'
    | Raises e => Raises e
    end.
Proof.
  induction ps as [|p ps IH]; intros a rs; [done|].
  rewrite <- app_comm_cons, !for_each_cons.
  destruct (body a p rs) as [[a' rs']|e]; [apply IH | done].
Qed.

Lemma for_each_snoc {P A} (body : A -> P -> M A) (ps : list P) (p : P)
    (a : A) (rs : RandomState) :
  for_each body a (ps ++ [p]) rs
  = match for_each body a ps rs with
    | Returns (a', rs') => body a' p rs'
    | Raises e => Raises e
    end.
Proof.
  rewrite for_each_app. destruct (for_each body a ps rs) as [[a' rs']|e];
    [|done].
  rewrite for_each_cons. by destruct (body a' p rs') as [[a'' rs'']|e].
Qed.

Section ColumnLoop.
Context {P : Type}.
Variable name : P -> string.
Variable ok : P -> Prop.
Variable body : DataFrame -> P -> M DataFrame.
Variable col : P -> DataFrame -> RandomState -> list float64.
Variable next : nat -> RandomState -> RandomState.

Hypothesis body_ok : ∀ (df : DataFrame) (p : P) (rs : RandomState),
  ok p ->
  body df p rs
  = Returns (set_column (name p) (col p df rs) df, next (length df) rs).

Hypothesis col_base : ∀ (p : P) (df df' : DataFrame) (rs : RandomState),
  Forall2 same_base df df' -> col p df rs = col p df' rs.

(** The loop returns; it keeps the source columns; a column holds what
    its last writer computed, from the source columns and the generator
    state of that iteration; a column none of the parameters names is
    left as it was. *)
Lemma column_loop (df : DataFrame) (ps : list P) (rs : RandomState) :
  Forall ok ps ->
  ∃ out : DataFrame,
    for_each body df ps rs
    = Returns (out, Nat.iter (length ps) (next (length df)) rs)
    ∧ Forall2 same_base df out
    ∧ (∀ k p r, last_writer name ps k p -> r < length df ->
         cell out r (name p)
         = Some (default NaN
                   (col p df (Nat.iter k (next (length df)) rs) !! r)))
    ∧ (∀ s r, (∀ p, p ∈ ps -> name p ≠ s) -> cell out r s = cell df r s).
Proof.
  induction ps as [|p0 ps' IH] using rev_ind; intros Hok.
  - exists df. split; [reflexivity|]. split; [reflexivity|].
    split; [|done].
    intros k p r [Hk _]. by rewrite lookup_nil in Hk.
  - apply Forall_app in Hok as [Hok Hok0].
    rewrite Forall_singleton in Hok0.
    destruct (IH Hok) as (out1 & Hrun & Hbase & Hlast & Hframe).
    pose proof (Forall2_length _ _ _ Hbase) as Hlen.
    exists (set_column (name p0)
              (col p0 out1 (Nat.iter (length ps') (next (length df)) rs))
              out1).
    split; [|split; [|split]].
    + rewrite for_each_snoc, Hrun, body_ok by done.
      rewrite length_app, Nat.add_1_r, <- Hlen. reflexivity.
    + etransitivity; [exact Hbase | apply set_column_base].
    + intros k p r [Hk Hlater] Hr.
      apply lookup_snoc_Some in Hk as [[Hk Hp]|[-> ->]].
      * assert (name p0 ≠ name p) as Hne.
        { apply (Hlater (length ps')); [done|].
          by rewrite lookup_app_r, Nat.sub_diag. }
        rewrite cell_set_column_ne by done.
        apply Hlast; [|done]. split; [done|].
        intros k' p' Hk' Hp'. apply (Hlater k'); [done|].
        by apply lookup_app_l_Some.
      * rewrite cell_set_column_eq by lia.
        by rewrite (col_base p df out1).
    + intros s r Hs. rewrite cell_set_column_ne.
      * apply Hframe. intros p Hp. apply Hs, elem_of_app. by left.
      * apply Hs, elem_of_app. right. by apply list_elem_of_singleton.
Qed.
End ColumnLoop.

(** Every parameter of the list has a last position. *)
Lemma last_occurrence {P} `{EqDecision P} (ps : list P) (p : P) :
  p ∈ ps ->
  ∃ k, ps !! k = Some p ∧ ∀ k', k < k' -> ps !! k' ≠ Some p.
Proof.
  induction ps as [|q ps' IH] using rev_ind; intros Hin.
  - by apply elem_of_nil in Hin.
  - destruct (decide (q = p)) as [->|Hne].
    + exists (length ps'). split.
      * by rewrite lookup_app_r, Nat.sub_diag.
      * intros k' Hk'. rewrite lookup_ge_None_2; [done|].
        rewrite length_app. cbn. lia.
    + apply elem_of_app in Hin as [Hin|Hin%list_elem_of_singleton];
        [|congruence].
      destruct (IH Hin) as (k & Hk & Hlater).
      exists k. split; [by apply lookup_app_l_Some|].
      intros k' Hk' [[_ H]|[_ H]]%lookup_snoc_Some; [|done].
      by apply (Hlater k').
Qed.

Lemma last_writer_of_last_occurrence {P} (name : P -> string) `{!Inj (=) (=) name}
    (ps : list P) (k : nat) (p : P) :
  ps !! k = Some p -> (∀ k', k < k' -> ps !! k' ≠ Some p) ->
  last_writer name ps k p.
Proof.
  intros Hk Hlater. split; [done|].
  intros k' p' Hk' Hp' Heq. apply (inj name) in Heq as ->.
  by apply (Hlater k').
Qed.

Lemma advance_iter (n k : nat) (rs : RandomState) :
  Nat.iter k (advance n) rs = mkRandomState (draws rs) (pos rs + k * n).
Proof.
  induction k as [|k IH].
  - destruct rs as [d p]. cbn. f_equal. lia.
  - change (Nat.iter (S k) (advance n) rs)
      with (advance n (Nat.iter k (advance n) rs)).
    rewrite IH. unfold advance. cbn. f_equal. lia.
Qed.

(** ** The lag features *)

Lemma random_noise_run (df : DataFrame) (rs : RandomState) :
  random_noise df rs
  = Returns (noise_vector rs (length df), advance (length df) rs).
Proof. reflexivity. Qed.

Lemma noisy_col_base (g : list float64 -> list float64) (df df' : DataFrame)
    (rs : RandomState) :
  Forall2 same_base df df' -> noisy_col g df rs = noisy_col g df' rs.
Proof.
  intros H. unfold noisy_col.
  by rewrite (transform_values_base g df df' H), (Forall2_length _ _ _ H).
Qed.

Lemma noisy_col_lookup (g : list float64 -> list float64) (df : DataFrame)
    (rs : RandomState) (k r : nat) (row : Row) :
  df !! r = Some row ->
  noisy_col g df (Nat.iter k (advance (length df)) rs) !! r
  = Some (fadd (group_value g df (merchant_id row)
                  (group_pos df r (merchant_id row)))
               (Fin (noise_at rs k (length df) r))).
Proof.
  intros Hr. unfold noisy_col, series_add, noise_vector.
  rewrite lookup_zip_with, (transform_values_lookup g df r row Hr). cbn.
  rewrite list_lookup_fmap, lookup_seq_lt by (by eapply lookup_lt_Some).
  cbn. rewrite advance_iter. reflexivity.
Qed.

#[local] Instance lag_name_inj : Inj (=) (=) lag_name.
Proof.
  intros a b H. unfold lag_name in H.
  apply (inj (String.app _)) in H. by apply (inj pretty) in H.
Qed.

#[local] Instance roll_name_inj : Inj (=) (=) roll_name.
Proof.
  intros a b H. unfold roll_name in H.
  apply (inj (String.app _)) in H. by apply (inj pretty) in H.
Qed.

(** [lag_features] returns, after one noise vector per lag; each lag column
    holds, row by row, the group's series shifted by the lag plus the noise
    of the column's last writer. *)
Lemma lag_features_cells (df : DataFrame) (lags : list nat)
    (rs : RandomState) :
  ∃ out : DataFrame,
    lag_features df lags rs
    = Returns (out, Nat.iter (length lags) (advance (length df)) rs)
    ∧ Forall2 same_base df out
    ∧ (∀ k L r row, last_writer lag_name lags k L -> df !! r = Some row ->
         cell out r (lag_name L)
         = Some (fadd (group_value (shift L) df (merchant_id row)
                         (group_pos df r (merchant_id row)))
                      (Fin (noise_at rs k (length df) r))))
    ∧ (∀ s r, (∀ L, L ∈ lags -> lag_name L ≠ s) ->
         cell out r s = cell df r s).
Proof.
  destruct (column_loop lag_name (fun _ => True)
              (fun dataframe lag =>
                 t ← lift (groupby_transform
                             (fun x => Returns (shift lag x)) dataframe);
                 noise ← random_noise dataframe;
                 mret (set_column (lag_name lag) (series_add t noise)
                                  dataframe))
              (fun L df rs => noisy_col (shift L) df rs) advance)
    with (df := df) (ps := lags) (rs := rs)
    as (out & Hrun & Hbase & Hlast & Hframe).
  - intros df' L rs' _. unfold mbind, M_bind, lift.
    by rewrite (groupby_transform_returns _ (shift L)).
  - intros L d d' rs' H. by apply noisy_col_base.
  - by apply Forall_forall.
  - exists out. split; [exact Hrun|]. split; [exact Hbase|].
    split; [|exact Hframe].
    intros k L r row Hk Hr.
    rewrite (Hlast k L r Hk) by (by eapply lookup_lt_Some).
    by rewrite (noisy_col_lookup _ df rs k r row Hr).
Qed.

(** C3: for every lag [L] of the list and every row, at in-group position
    [i], [lag_features] returns a frame whose column [sales_lag_L] is
    missing at the row when [i < L] and otherwise holds the group's target
    at in-group position [i - L] plus the row's own noise draw, the one at
    row [r] of the noise vector of the last loop iteration [k] for [L]. *)
Theorem lag_feature_is_shifted_target_plus_noise (df : DataFrame)
    (lags : list nat) (rs : RandomState) (L r : nat) (row : Row) :
  L ∈ lags -> df !! r = Some row ->
  let m := merchant_id row in
  let i := group_pos df r m in
  ∃ (out : DataFrame) (rs' : RandomState) (k : nat),
    lag_features df lags rs = Returns (out, rs')
    ∧ lags !! k = Some L ∧ (∀ k', k < k' -> lags !! k' ≠ Some L)
    ∧ group_series df m !! i = Some (Total_Transaction row)
    ∧ (i < L -> cell out r (lag_name L) = Some NaN)
    ∧ (L <= i ->
       ∃ y, group_series df m !! (i - L) = Some y
            ∧ cell out r (lag_name L)
              = Some (fadd y (Fin (noise_at rs k (length df) r)))).
Proof.
  intros HL Hr m i.
  destruct (last_occurrence lags L HL) as (k & Hk & Hlater).
  destruct (lag_features_cells df lags rs) as (out & Hrun & _ & Hlast & _).
  pose proof (group_pos_lt df r row Hr) as Hi. fold m in Hi. fold i in Hi.
  assert (cell out r (lag_name L)
          = Some (fadd (group_value (shift L) df m i)
                       (Fin (noise_at rs k (length df) r)))) as Hcell.
  { apply Hlast; [|done]. by apply last_writer_of_last_occurrence; [apply _|..]. }
  eexists out, _, k. split; [exact Hrun|]. split; [exact Hk|].
  split; [exact Hlater|]. split; [by apply group_series_lookup_pos|].
  unfold group_value in Hcell. split.
  - intros Hlt. by rewrite Hcell, shift_lookup_lt.
  - intros Hge. rewrite shift_lookup_ge in Hcell by done.
    destruct (lookup_lt_is_Some_2 (group_series df m) (i - L)) as [y Hy];
      [lia|].
    exists y. split; [done|]. by rewrite Hcell, Hy.
Qed.

Lemma lag_feature_is_shifted_target_plus_noise_witness :
  ∃ (out : DataFrame) (rs' : RandomState) (k : nat),
    lag_features example_df [1; 2; 1] example_rs = Returns (out, rs')
    ∧ [1; 2; 1] !! k = Some 1
    ∧ cell out 3 (lag_name 1)
      = Some (fadd (Fin 11) (Fin (noise_at example_rs k 5 3))).
Proof.
  destruct (lag_feature_is_shifted_target_plus_noise example_df [1; 2; 1]
              example_rs 1 3 (example_row 1 (ymd 2020 10 1) 12))
    as (out & rs' & k & Hrun & Hk & _ & _ & _ & Hge);
    [repeat constructor | reflexivity |].
  exists out, rs', k. split; [exact Hrun|]. split; [exact Hk|].
  destruct Hge as (y & Hy & Hcell); [vm_compute; lia|].
  vm_compute in Hy. injection Hy as <-. exact Hcell.
Defined.

(** ** The rolling-mean and exponentially weighted features *)

Lemma rolling_triang_mean_returns (window : nat) (x : list float64) :
  10 <= window ->
  rolling_triang_mean window 10 (shift 1 x) = Returns (roll_transform window x).
Proof.
  intros H. unfold rolling_triang_mean.
  by rewrite (proj2 (Nat.ltb_ge window 10) H).
Qed.

Lemma roll_mean_features_cells (df : DataFrame) (windows : list nat)
    (rs : RandomState) :
  Forall (fun w => 10 <= w) windows ->
  ∃ out : DataFrame,
    roll_mean_features df windows rs
    = Returns (out, Nat.iter (length windows) (advance (length df)) rs)
    ∧ Forall2 same_base df out
    ∧ (∀ k W r row, last_writer roll_name windows k W -> df !! r = Some row ->
         cell out r (roll_name W)
         = Some (fadd (group_value (roll_transform W) df (merchant_id row)
                         (group_pos df r (merchant_id row)))
                      (Fin (noise_at rs k (length df) r))))
    ∧ (∀ s r, (∀ W, W ∈ windows -> roll_name W ≠ s) ->
         cell out r s = cell df r s).
Proof.
  intros Hok.
  destruct (column_loop roll_name (fun w => 10 <= w)
              (fun dataframe window =>
                 t ← lift (groupby_transform
                             (fun x => rolling_triang_mean window 10 (shift 1 x))
                             dataframe);
                 noise ← random_noise dataframe;
                 mret (set_column (roll_name window) (series_add t noise)
                                  dataframe))
              (fun W df rs => noisy_col (roll_transform W) df rs) advance)
    with (df := df) (ps := windows) (rs := rs)
    as (out & Hrun & Hbase & Hlast & Hframe).
  - intros df' W rs' HW. unfold mbind, M_bind, lift.
    rewrite (groupby_transform_returns _ (roll_transform W)); [done|].
    intros x. by apply rolling_triang_mean_returns.
  - intros W d d' rs' H. by apply noisy_col_base.
  - done.
  - exists out. split; [exact Hrun|]. split; [exact Hbase|].
    split; [|exact Hframe].
    intros k W r row Hk Hr.
    rewrite (Hlast k W r Hk) by (by eapply lookup_lt_Some).
    by rewrite (noisy_col_lookup _ df rs k r row Hr).
Qed.

Lemma ewm_mean_returns (alpha : pyfloat) (lag : nat) (x : list float64) :
  valid_alpha alpha ->
  ewm_mean (fval alpha) (shift lag x)
  = Returns (ewm_transform (fval alpha) lag x).
Proof.
  intros [H0 H1]. unfold ewm_mean.
  destruct (Qle_bool (fval alpha) 0) eqn:E0.
  { apply Qle_bool_iff in E0. lra. }
  destruct (Qle_bool (fval alpha) 1) eqn:E1; [done|].
  apply Qle_bool_iff in H1. congruence.
Qed.

Lemma for_each_map {P P' A} (body : A -> P -> M A) (h : P' -> P)
    (qs : list P') :
  ∀ (a : A) (rs : RandomState),
  for_each body a (map h qs) rs = for_each (fun a q => body a (h q)) a qs rs.
Proof.
  induction qs as [|q qs IH]; intros a rs; [done|].
  cbn [map]. rewrite !for_each_cons.
  destruct (body a (h q) rs) as [[a' rs']|e]; [apply IH | done].
Qed.

(** The nested loops of [ewm_features] visit the (alpha, lag) pairs in the
    order of [list_prod]. *)
Lemma ewm_features_flat (alphas : list pyfloat) (lags : list nat) :
  ∀ (df : DataFrame) (rs : RandomState),
  ewm_features df alphas lags rs
  = for_each (fun dataframe '(alpha, lag) =>
                t ← lift (groupby_transform
                            (fun x => ewm_mean (fval alpha) (shift lag x))
                            dataframe);
                mret (set_column (ewm_name alpha lag) t dataframe))
             df (list_prod alphas lags) rs.
Proof.
  unfold ewm_features.
  induction alphas as [|alpha alphas IH]; intros df rs; [done|].
  cbn [list_prod]. rewrite for_each_cons, for_each_app, for_each_map.
  match goal with
  | |- match ?a with _ => _ end = match ?b with _ => _ end =>
      change b with a; destruct a as [[df' rs']|e]; [apply IH | done]
  end.
Qed.

(** Every parameter of the list shares its column with a last writer. *)
Lemma last_with_name {P} (name : P -> string) (ps : list P) (p : P) :
  p ∈ ps -> ∃ k p', last_writer name ps k p' ∧ name p' = name p.
Proof.
  induction ps as [|q ps' IH] using rev_ind; intros Hin.
  - by apply elem_of_nil in Hin.
  - destruct (decide (name q = name p)) as [Heq|Hne].
    + exists (length ps'), q. split; [|done]. split.
      * by rewrite lookup_app_r, Nat.sub_diag.
      * intros k' p' Hk' Hp'. apply lookup_lt_Some in Hp'.
        rewrite length_app in Hp'. cbn in Hp'. lia.
    + apply elem_of_app in Hin as [Hin|Hin%list_elem_of_singleton];
        [|congruence].
      destruct (IH Hin) as (k & p' & [Hk Hlater] & Hname).
      exists k, p'. split; [|done]. split; [by apply lookup_app_l_Some|].
      intros k' p'' Hk' [[_ H]|[_ <-]]%lookup_snoc_Some.
      * by apply (Hlater k').
      * congruence.
Qed.

Lemma iter_id {A} (k : nat) (a : A) : Nat.iter k (fun x => x) a = a.
Proof. induction k as [|k IH]; [done|]. exact IH. Qed.

Lemma elem_of_list_prod {A B} (l : list A) (l' : list B) (x : A) (y : B) :
  (x, y) ∈ list_prod l l' <-> x ∈ l ∧ y ∈ l'.
Proof. rewrite !list_elem_of_In. apply in_prod_iff. Qed.

(** [ewm_features] returns without touching the generator; each of its
    columns holds, row by row, the exponentially weighted mean of the
    group's shifted series, as its last writer computed it. *)
Lemma ewm_features_cells (df : DataFrame) (alphas : list pyfloat)
    (lags : list nat) (rs : RandomState) :
  Forall valid_alpha alphas ->
  ∃ out : DataFrame,
    ewm_features df alphas lags rs = Returns (out, rs)
    ∧ Forall2 same_base df out
    ∧ (∀ k p r row,
         last_writer ewm_pair_name (list_prod alphas lags) k p ->
         df !! r = Some row ->
         cell out r (ewm_pair_name p)
         = Some (group_value (ewm_transform (fval p.1) p.2) df
                   (merchant_id row) (group_pos df r (merchant_id row))))
    ∧ (∀ s r, (∀ p, p ∈ list_prod alphas lags -> ewm_pair_name p ≠ s) ->
         cell out r s = cell df r s).
Proof.
  intros Hok.
  destruct (column_loop ewm_pair_name (fun p => valid_alpha p.1)
              (fun dataframe '(alpha, lag) =>
                 t ← lift (groupby_transform
                             (fun x => ewm_mean (fval alpha) (shift lag x))
                             dataframe);
                 mret (set_column (ewm_name alpha lag) t dataframe))
              (fun p df _ => transform_values (ewm_transform (fval p.1) p.2) df)
              (fun _ rs => rs))
    with (df := df) (ps := list_prod alphas lags) (rs := rs)
    as (out & Hrun & Hbase & Hlast & Hframe).
  - intros df' [alpha lag] rs' Hv. unfold mbind, M_bind, lift.
    rewrite (groupby_transform_returns _ (ewm_transform (fval alpha) lag));
      [done|].
    intros x. by apply ewm_mean_returns.
  - intros p0 d d' _ H. by apply transform_values_base.
  - apply Forall_forall. intros [alpha lag] [Hin _]%elem_of_list_prod.
    by apply (proj1 (Forall_forall _ _) Hok).
  - rewrite iter_id in Hrun.
    exists out. split; [by rewrite ewm_features_flat|]. split; [done|].
    split; [|exact Hframe].
    intros k p r row Hk Hr.
    rewrite (Hlast k p r Hk (lookup_lt_Some _ _ _ Hr)).
    by rewrite (transform_values_lookup _ df r row Hr).
Qed.

Lemma ewm_cell_value (df : DataFrame) (alphas : list pyfloat)
    (lags : list nat) (rs : RandomState) (a : pyfloat) (L r : nat)
    (row : Row) :
  a ∈ alphas -> L ∈ lags -> Forall valid_alpha alphas ->
  ewm_names_distinct alphas lags -> df !! r = Some row ->
  ∃ out : DataFrame,
    ewm_features df alphas lags rs = Returns (out, rs)
    ∧ Forall2 same_base df out
    ∧ cell out r (ewm_name a L)
      = Some (group_value (ewm_transform (fval a) L) df (merchant_id row)
                (group_pos df r (merchant_id row))).
Proof.
  intros Ha HL Hok Hdistinct Hr.
  destruct (ewm_features_cells df alphas lags rs Hok)
    as (out & Hrun & Hbase & Hlast & _).
  destruct (last_with_name ewm_pair_name (list_prod alphas lags) (a, L))
    as (k & [a' L'] & Hk & Hname).
  { by apply elem_of_list_prod. }
  assert ((a', L') ∈ list_prod alphas lags) as [Ha' HL']%elem_of_list_prod.
  { destruct Hk as [Hk _]. by eapply list_elem_of_lookup_2. }
  destruct (Hdistinct a' L' a L Ha' HL' Ha HL Hname) as [Hv ->].
  exists out. split; [done|]. split; [done|].
  specialize (Hlast k (a', L) r row Hk Hr).
  unfold ewm_pair_name in Hlast, Hname. cbn [fst snd] in Hlast, Hname.
  by rewrite Hname, Hv in Hlast.
Qed.

(** ** What a feature of a row can depend on *)

Lemma roll_transform_prefix (W : nat) (xs ys : list float64) (i : nat) :
  i < length xs -> i < length ys -> take i xs = take i ys ->
  roll_transform W xs !! i = roll_transform W ys !! i.
Proof.
  intros Hx Hy Htake. unfold roll_transform.
  apply roll_weighted_mean_prefix; rewrite ?length_shift; try done.
  apply shift_prefix; try done. by replace (S i - 1) with i by lia.
Qed.

Lemma ewm_transform_prefix (alpha : Q) (L : nat) (xs ys : list float64)
    (i : nat) :
  i < length xs -> i < length ys ->
  take (S i - L) xs = take (S i - L) ys ->
  ewm_transform alpha L xs !! i = ewm_transform alpha L ys !! i.
Proof.
  intros Hx Hy Htake. unfold ewm_transform.
  apply ewm_values_prefix; rewrite ?length_shift; try done.
  by apply shift_prefix.
Qed.

Lemma lag_cell_value (df : DataFrame) (lags : list nat) (rs : RandomState)
    (k L r : nat) (row : Row) :
  lags !! k = Some L -> (∀ k', k < k' -> lags !! k' ≠ Some L) ->
  df !! r = Some row ->
  ∃ (out : DataFrame) (rs1 : RandomState),
    lag_features df lags rs = Returns (out, rs1)
    ∧ cell out r (lag_name L)
      = Some (fadd (group_value (shift L) df (merchant_id row)
                      (group_pos df r (merchant_id row)))
                   (Fin (noise_at rs k (length df) r))).
Proof.
  intros Hk Hlater Hr.
  destruct (lag_features_cells df lags rs) as (out & Hrun & _ & Hlast & _).
  eexists out, _. split; [exact Hrun|].
  apply Hlast; [|done]. by apply last_writer_of_last_occurrence; [apply _|..].
Qed.

Lemma roll_cell_value (df : DataFrame) (windows : list nat)
    (rs : RandomState) (k W r : nat) (row : Row) :
  Forall (fun w => 10 <= w) windows ->
  windows !! k = Some W -> (∀ k', k < k' -> windows !! k' ≠ Some W) ->
  df !! r = Some row ->
  ∃ out : DataFrame,
    roll_mean_features df windows rs
    = Returns (out, Nat.iter (length windows) (advance (length df)) rs)
    ∧ cell out r (roll_name W)
      = Some (fadd (group_value (roll_transform W) df (merchant_id row)
                      (group_pos df r (merchant_id row)))
                   (Fin (noise_at rs k (length df) r))).
Proof.
  intros Hok Hk Hlater Hr.
  destruct (roll_mean_features_cells df windows rs Hok)
    as (out & Hrun & _ & Hlast & _).
  exists out. split; [exact Hrun|].
  apply Hlast; [|done]. by apply last_writer_of_last_occurrence; [apply _|..].
Qed.

Lemma group_pos_of_take (df df' : DataFrame) (r : nat) (m : Z) :
  group_series (take r df) m = group_series (take r df') m ->
  group_pos df r m = group_pos df' r m.
Proof.
  intros H. apply (f_equal length) in H. unfold group_series in H.
  by rewrite !length_fmap in H.
Qed.

Lemma roll_past_only (df df' : DataFrame) (windows : list nat)
    (rs : RandomState) (W r : nat) (row row' : Row) :
  W ∈ windows -> Forall (fun w => 10 <= w) windows ->
  length df = length df' ->
  df !! r = Some row -> df' !! r = Some row' ->
  merchant_id row' = merchant_id row ->
  group_series (take r df) (merchant_id row)
  = group_series (take r df') (merchant_id row) ->
  roll_cells_agree df df' windows rs W r.
Proof.
  intros HW Hok Hlen Hr Hr' Hm Hpast.
  destruct (last_occurrence windows W HW) as (k & Hk & Hlater).
  destruct (roll_cell_value df windows rs k W r row Hok Hk Hlater Hr)
    as (out & Hrun & Hcell).
  destruct (roll_cell_value df' windows rs k W r row' Hok Hk Hlater Hr')
    as (out' & Hrun' & Hcell').
  eexists out, out', _, _. split; [exact Hrun|].
  split; [by rewrite Hrun', Hlen|]. split; [exact Hcell|].
  rewrite Hcell', Hm, <- Hlen, <- (group_pos_of_take df df' r _ Hpast).
  do 2 f_equal. unfold group_value. f_equal.
  pose proof (group_pos_lt df r row Hr) as Hi.
  pose proof (group_pos_lt df' r row' Hr') as Hi'.
  rewrite Hm, <- (group_pos_of_take df df' r _ Hpast) in Hi'.
  symmetry. apply roll_transform_prefix; [done | done |].
  rewrite group_series_take, Hpast, <- group_series_take.
  by rewrite (group_pos_of_take df df' r _ Hpast).
Qed.

Lemma ewm_past_only (df df' : DataFrame) (alphas : list pyfloat)
    (lags : list nat) (rs rs' : RandomState) (a : pyfloat) (L r r' : nat)
    (row row' : Row) :
  a ∈ alphas -> L ∈ lags -> Forall valid_alpha alphas ->
  ewm_names_distinct alphas lags ->
  df !! r = Some row -> df' !! r' = Some row' ->
  merchant_id row' = merchant_id row ->
  group_pos df' r' (merchant_id row) = group_pos df r (merchant_id row) ->
  take (S (group_pos df r (merchant_id row)) - L)
       (group_series df (merchant_id row))
  = take (S (group_pos df r (merchant_id row)) - L)
         (group_series df' (merchant_id row)) ->
  ewm_cells_agree df df' alphas lags rs rs' a L r r'.
Proof.
  intros Ha HL Hok Hdistinct Hr Hr' Hm Hpos Hpast.
  destruct (ewm_cell_value df alphas lags rs a L r row Ha HL Hok Hdistinct Hr)
    as (out & Hrun & _ & Hcell).
  destruct (ewm_cell_value df' alphas lags rs' a L r' row' Ha HL Hok
              Hdistinct Hr') as (out' & Hrun' & _ & Hcell').
  eexists out, out', _. split; [exact Hrun|]. split; [exact Hrun'|].
  split; [exact Hcell|].
  rewrite Hcell', Hm, Hpos. f_equal. unfold group_value. f_equal.
  pose proof (group_pos_lt df r row Hr) as Hi.
  pose proof (group_pos_lt df' r' row' Hr') as Hi'.
  rewrite Hm, Hpos in Hi'.
  symmetry. by apply ewm_transform_prefix.
Qed.

(** C4: the rolling-mean feature of a row is fixed by the targets of the
    strictly earlier rows of its group, and the EWM feature with lag [L] by
    the group's targets at least [L] rows earlier; for a lag of at least 1
    those lie among the strictly earlier rows.  Two frames that agree there
    get the same feature at the row, whatever the targets of the row
    itself, of later rows and of other groups are. *)
Theorem rolling_and_ewm_use_past_targets_only :
  (∀ (df df' : DataFrame) (windows : list nat) (rs : RandomState)
     (W r : nat) (row row' : Row),
     W ∈ windows -> Forall (fun w => 10 <= w) windows ->
     length df = length df' ->
     df !! r = Some row -> df' !! r = Some row' ->
     merchant_id row' = merchant_id row ->
     group_series (take r df) (merchant_id row)
     = group_series (take r df') (merchant_id row) ->
     roll_cells_agree df df' windows rs W r)
  ∧ (∀ (df df' : DataFrame) (alphas : list pyfloat) (lags : list nat)
       (rs : RandomState) (a : pyfloat) (L r r' : nat) (row row' : Row),
       a ∈ alphas -> L ∈ lags -> Forall valid_alpha alphas ->
       ewm_names_distinct alphas lags ->
       df !! r = Some row -> df' !! r' = Some row' ->
       merchant_id row' = merchant_id row ->
       group_pos df' r' (merchant_id row) = group_pos df r (merchant_id row) ->
       let m := merchant_id row in
       let i := group_pos df r m in
       (take (S i - L) (group_series df m)
        = take (S i - L) (group_series df' m) ->
        ewm_cells_agree df df' alphas lags rs rs a L r r')
       ∧ (1 <= L ->
          take i (group_series df m) = take i (group_series df' m) ->
          ewm_cells_agree df df' alphas lags rs rs a L r r')).
Proof.
  split.
  - intros. by eapply roll_past_only.
  - intros df df' alphas0 lags0 rs a L r r' row row' Ha HL Hok Hd Hr Hr' Hm
      Hpos m i.
    split.
    + intros Hpast. by eapply ewm_past_only.
    + intros HL1 Hpast. eapply ewm_past_only; try done.
      fold m. fold i.
      replace (S i - L) with (Nat.min (S i - L) i) by lia.
      by rewrite <- !take_take, Hpast.
Qed.

Lemma NoDup_fmap_inj_on {A B} (f : A -> B) (l : list A) (x y : A) :
  NoDup (f <$> l) -> x ∈ l -> y ∈ l -> f x = f y -> x = y.
Proof.
  intros Hnd [i Hi]%list_elem_of_lookup [j Hj]%list_elem_of_lookup Hxy.
  assert (i = j) as ->.
  { apply (NoDup_lookup (f <$> l) i j (f x) Hnd).
    - by rewrite list_lookup_fmap, Hi.
    - by rewrite list_lookup_fmap, Hj, Hxy. }
  congruence.
Qed.

Lemma ewm_names_distinct_of_NoDup (alphas : list pyfloat) (lags : list nat) :
  NoDup (ewm_pair_name <$> list_prod alphas lags) ->
  ewm_names_distinct alphas lags.
Proof.
  intros Hnd a L a' L' Ha HL Ha' HL' Hname.
  assert ((a, L) = (a', L')) as Heq.
  { apply (NoDup_fmap_inj_on ewm_pair_name (list_prod alphas lags));
      [done | by apply elem_of_list_prod | by apply elem_of_list_prod | done]. }
  by injection Heq as -> ->.
Qed.

(** The theorems apply to the lists the script passes. *)
Lemma script_windows_valid : Forall (fun w => 10 <= w) roll_windows.
Proof. by_decide. Qed.

Lemma script_alphas_valid : Forall valid_alpha alphas.
Proof. unfold alphas. repeat constructor; cbn; unfold Qle; cbn; lia. Qed.

Lemma script_ewm_names_distinct : ewm_names_distinct alphas lags.
Proof. apply ewm_names_distinct_of_NoDup. by_decide. Qed.

Lemma rolling_and_ewm_use_past_targets_only_witness :
  roll_cells_agree (example_series 1 (example_past ++ [7; 8]%Q))
                   (example_series 1 (example_past ++ [100; 200]%Q))
                   [10; 12] example_rs 10 11
  ∧ ewm_cells_agree (example_series 1 (example_past ++ [7; 8]%Q))
                    (example_series 1 (example_past ++ [100; 200]%Q))
                    example_alphas [1; 2] example_rs example_rs
                    (mkFloat (5 # 10) "0.5") 2 11 11.
Proof.
  destruct rolling_and_ewm_use_past_targets_only as [Hroll Hewm]. split.
  - eapply Hroll;
      [repeat constructor | repeat constructor; lia | reflexivity
      | reflexivity | reflexivity | reflexivity | reflexivity].
  - destruct (Hewm (example_series 1 (example_past ++ [7; 8]%Q))
                (example_series 1 (example_past ++ [100; 200]%Q))
                example_alphas [1; 2] example_rs (mkFloat (5 # 10) "0.5")
                2 11 11
                (example_row 1 (ymd 2020 9 20 + 11) 7)
                (example_row 1 (ymd 2020 9 20 + 11) 100)) as [H _];
      [repeat constructor | repeat constructor
      | repeat constructor; cbn; unfold Qle; cbn; lia
      | apply ewm_names_distinct_of_NoDup; by_decide
      | reflexivity | reflexivity | reflexivity | reflexivity |].
    apply H. reflexivity.
Defined.

(** ** Independence of the groups *)

Lemma lag_up_to_noise (df df' : DataFrame) (m : Z) (r r' : nat)
    (row row' : Row) (lags : list nat) (rs rs' : RandomState) (L : nat) :
  group_series df m = group_series df' m ->
  df !! r = Some row -> df' !! r' = Some row' ->
  merchant_id row = m -> merchant_id row' = m ->
  group_pos df r m = group_pos df' r' m ->
  L ∈ lags ->
  lag_cells_agree_up_to_noise df df' lags rs rs' L r r'.
Proof.
  intros Hg Hr Hr' Hm Hm' Hpos HL.
  destruct (last_occurrence lags L HL) as (k & Hk & Hlater).
  destruct (lag_cell_value df lags rs k L r row Hk Hlater Hr)
    as (out & rs1 & Hrun & Hcell).
  destruct (lag_cell_value df' lags rs' k L r' row' Hk Hlater Hr')
    as (out' & rs1' & Hrun' & Hcell').
  exists out, out', rs1, rs1', k, (group_value (shift L) df m (group_pos df r m)).
  split; [exact Hrun|]. split; [exact Hrun'|]. split; [exact Hk|].
  split; [by rewrite Hcell, Hm|].
  rewrite Hcell', Hm'. unfold group_value. by rewrite Hg, Hpos.
Qed.

Lemma roll_up_to_noise (df df' : DataFrame) (m : Z) (r r' : nat)
    (row row' : Row) (windows : list nat) (rs rs' : RandomState) (W : nat) :
  group_series df m = group_series df' m ->
  df !! r = Some row -> df' !! r' = Some row' ->
  merchant_id row = m -> merchant_id row' = m ->
  group_pos df r m = group_pos df' r' m ->
  W ∈ windows -> Forall (fun w => 10 <= w) windows ->
  roll_cells_agree_up_to_noise df df' windows rs rs' W r r'.
Proof.
  intros Hg Hr Hr' Hm Hm' Hpos HW Hok.
  destruct (last_occurrence windows W HW) as (k & Hk & Hlater).
  destruct (roll_cell_value df windows rs k W r row Hok Hk Hlater Hr)
    as (out & Hrun & Hcell).
  destruct (roll_cell_value df' windows rs' k W r' row' Hok Hk Hlater Hr')
    as (out' & Hrun' & Hcell').
  eexists out, out', _, _, k,
    (group_value (roll_transform W) df m (group_pos df r m)).
  split; [exact Hrun|]. split; [exact Hrun'|]. split; [exact Hk|].
  split; [by rewrite Hcell, Hm|].
  rewrite Hcell', Hm'. unfold group_value. by rewrite Hg, Hpos.
Qed.

Lemma ewm_group_only (df df' : DataFrame) (m : Z) (r r' : nat)
    (row row' : Row) (alphas : list pyfloat) (lags : list nat)
    (rs rs' : RandomState) (a : pyfloat) (L : nat) :
  group_series df m = group_series df' m ->
  df !! r = Some row -> df' !! r' = Some row' ->
  merchant_id row = m -> merchant_id row' = m ->
  group_pos df r m = group_pos df' r' m ->
  a ∈ alphas -> L ∈ lags -> Forall valid_alpha alphas ->
  ewm_names_distinct alphas lags ->
  ewm_cells_agree df df' alphas lags rs rs' a L r r'.
Proof.
  intros Hg Hr Hr' Hm Hm' Hpos Ha HL Hok Hd. subst m.
  eapply ewm_past_only; try done. by rewrite Hg.
Qed.

(** C5, as the code has it: when two frames hold the same target series
    for a group, rows of the group at the same in-group position get the
    same EWM features, and lag and rolling-mean features with the same
    noise-free part: each is that common value plus the row's own noise
    draw, which is fixed by the generator state, the number of rows of the
    frame and the row's index.  When the two frames also have the same
    number of rows, hold the row at the same index and start from the same
    generator state, the lag and rolling-mean features are the same too. *)
Theorem group_features_read_own_group_only (df df' : DataFrame) (m : Z)
    (r r' : nat) (row row' : Row) :
  group_series df m = group_series df' m ->
  df !! r = Some row -> df' !! r' = Some row' ->
  merchant_id row = m -> merchant_id row' = m ->
  group_pos df r m = group_pos df' r' m ->
  (∀ lags rs rs' L, L ∈ lags ->
     lag_cells_agree_up_to_noise df df' lags rs rs' L r r')
  ∧ (∀ windows rs rs' W, W ∈ windows -> Forall (fun w => 10 <= w) windows ->
       roll_cells_agree_up_to_noise df df' windows rs rs' W r r')
  ∧ (∀ alphas lags rs rs' a L,
       a ∈ alphas -> L ∈ lags -> Forall valid_alpha alphas ->
       ewm_names_distinct alphas lags ->
       ewm_cells_agree df df' alphas lags rs rs' a L r r')
  ∧ (length df = length df' -> r = r' ->
     (∀ lags rs L, L ∈ lags -> lag_cells_agree df df' lags rs L r)
     ∧ (∀ windows rs W, W ∈ windows -> Forall (fun w => 10 <= w) windows ->
          roll_cells_agree df df' windows rs W r)).
Proof.
  intros Hg Hr Hr' Hm Hm' Hpos. split; [|split; [|split]].
  - intros lags0 rs rs' L HL. by eapply lag_up_to_noise.
  - intros windows rs rs' W HW Hok. by eapply roll_up_to_noise.
  - intros alphas0 lags0 rs rs' a L Ha HL Hok Hd. by eapply ewm_group_only.
  - intros Hlen <-. split.
    + intros lags0 rs L HL.
      destruct (lag_up_to_noise df df' m r r row row' lags0 rs rs L
                  Hg Hr Hr' Hm Hm' Hpos HL)
        as (out & out' & rs1 & rs1' & k & v & Hrun & Hrun' & _ & Hc & Hc').
      destruct (lag_features_cells df lags0 rs) as (o & Ho & _).
      destruct (lag_features_cells df' lags0 rs) as (o' & Ho' & _).
      rewrite Ho in Hrun. rewrite Ho' in Hrun'.
      injection Hrun as <- <-. injection Hrun' as <- <-.
      eexists o, o', _, _. split; [exact Ho|].
      split; [by rewrite Ho', Hlen|]. split; [exact Hc|].
      by rewrite Hc', Hlen.
    + intros windows rs W HW Hok.
      destruct (roll_up_to_noise df df' m r r row row' windows rs rs W
                  Hg Hr Hr' Hm Hm' Hpos HW Hok)
        as (out & out' & rs1 & rs1' & k & v & Hrun & Hrun' & _ & Hc & Hc').
      destruct (roll_mean_features_cells df windows rs Hok) as (o & Ho & _).
      destruct (roll_mean_features_cells df' windows rs Hok) as (o' & Ho' & _).
      rewrite Ho in Hrun. rewrite Ho' in Hrun'.
      injection Hrun as <- <-. injection Hrun' as <- <-.
      eexists o, o', _, _. split; [exact Ho|].
      split; [by rewrite Ho', Hlen|]. split; [exact Hc|].
      by rewrite Hc', Hlen.
Qed.

Lemma group_features_read_own_group_only_witness :
  lag_cells_agree_up_to_noise example_df example_df_one_group [1; 2; 1]
    example_rs example_rs 1 3 2
  ∧ ewm_cells_agree example_df example_df_one_group example_alphas [1; 2]
      example_rs example_rs (mkFloat (9 # 10) "0.9") 1 3 2.
Proof.
  destruct (group_features_read_own_group_only example_df example_df_one_group
              1 3 2 (example_row 1 (ymd 2020 10 1) 12)
              (example_row 1 (ymd 2020 10 1) 12))
    as (Hlag & _ & Hewm & _);
    [reflexivity | reflexivity | reflexivity | reflexivity | reflexivity
    | reflexivity |].
  split.
  - apply Hlag. repeat constructor.
  - apply Hewm;
      [repeat constructor | repeat constructor
      | repeat constructor; cbn; unfold Qle; cbn; lia
      | apply ewm_names_distinct_of_NoDup; by_decide].
Defined.

(** C5 as stated fails: [example_df_one_group] is [example_df] without the
    rows of the other merchant, merchant 1 has the same target series in
    both, and yet, from the same generator state, the lag-1 feature of its
    third row differs between the two frames. *)
Lemma lag_feature_moves_when_other_group_is_removed :
  group_series example_df 1 = group_series example_df_one_group 1
  ∧ ∃ (out out' : DataFrame) (rs1 rs1' : RandomState) (v v' : float64),
      lag_features example_df [1] example_rs = Returns (out, rs1)
      ∧ lag_features example_df_one_group [1] example_rs
        = Returns (out', rs1')
      ∧ cell out 3 (lag_name 1) = Some v
      ∧ cell out' 2 (lag_name 1) = Some v'
      ∧ v ≠ v'.
Proof.
  split; [reflexivity|].
  destruct (lag_features_cells example_df [1] example_rs)
    as (out & Hrun & _ & Hlast & _).
  destruct (lag_features_cells example_df_one_group [1] example_rs)
    as (out' & Hrun' & _ & Hlast' & _).
  eexists out, out', _, _, _, _.
  split; [exact Hrun|]. split; [exact Hrun'|].
  assert (last_writer lag_name [1] 0 1) as Hw.
  { split; [done|]. by intros [|k'] p' Hk' Hp'; [lia|]. }
  split; [|split].
  - apply (Hlast 0 1 3 (example_row 1 (ymd 2020 10 1) 12) Hw). reflexivity.
  - apply (Hlast' 0 1 2 (example_row 1 (ymd 2020 10 1) 12) Hw). reflexivity.
  - vm_compute. intros H. discriminate H.
Qed.

(** ** Lag offsets and the validation window *)

Lemma script_lags_at_least_91 : Forall (fun L => 91 <= L) lag_spec.
Proof. by_decide. Qed.

Lemma lag_91_written_once : ∀ k', 0 < k' -> lag_spec !! k' ≠ Some 91.
Proof.
  assert (Forall (fun L => L ≠ 91) (drop 1 lag_spec)) as H by by_decide.
  intros [|k'] Hk' Hl; [lia|].
  by apply (proj1 (Forall_lookup _ _) H k' 91); [rewrite lookup_drop|].
Qed.

(** C6 does not hold of the code.  The smallest lag, 91, is one day short
    of the 92 days from the cutoff 2020-10-01 to the last day 2020-12-31:
    91 days before the last day is the cutoff day itself.  On a merchant
    with a row for each day of the validation window, every row is a
    validation row, and [sales_lag_91] of the row of 2020-12-31 is the
    target of the row of 2020-10-01 plus noise. *)
Theorem lag_91_reads_inside_the_validation_window :
  91 ∈ lag_spec
  ∧ Forall (fun L => 91 <= L) lag_spec
  ∧ horizon_length = 92%Z
  ∧ (cutoff <= last_day)%Z
  ∧ (last_day - Z.of_nat 91 = cutoff)%Z
  ∧ ¬ (last_day - Z.of_nat 91 < cutoff)%Z
  ∧ val example_quarter = example_quarter
  ∧ (transaction_date <$> example_quarter !! 91) = Some last_day
  ∧ (transaction_date <$> example_quarter !! 0) = Some cutoff
  ∧ (Total_Transaction <$> example_quarter !! 0) = Some (Fin (inject_Z 100))
  ∧ ∃ (out : DataFrame) (rs1 : RandomState),
      lag_features example_quarter lag_spec example_rs = Returns (out, rs1)
      ∧ cell out 91 (lag_name 91)
        = Some (fadd (Fin (inject_Z 100))
                     (Fin (noise_at example_rs 0 92 91))).
Proof.
  split; [by_decide|]. split; [exact script_lags_at_least_91|].
  split; [reflexivity|]. split; [by vm_compute|]. split; [reflexivity|].
  split; [by vm_compute|]. split; [by vm_compute|].
  split; [reflexivity|]. split; [reflexivity|]. split; [reflexivity|].
  destruct (lag_cell_value example_quarter lag_spec example_rs 0 91 91
              (example_row 1 last_day (inject_Z 191)))
    as (out & rs1 & Hrun & Hcell);
    [reflexivity | exact lag_91_written_once | reflexivity |].
  exists out, rs1. split; [exact Hrun|].
  rewrite Hcell. reflexivity.
Qed.

(** ** Calendar indicators *)

Lemma cell_loc_assign (mask : Row -> bool) (name : string) (v : float64)
    (df : DataFrame) (r : nat) (row : Row) :
  df !! r = Some row ->
  cell (loc_assign mask name v df) r name
  = if mask row then Some v else features row !! name.
Proof.
  intros Hr. unfold cell, loc_assign. rewrite list_lookup_fmap, Hr. cbn.
  destruct (mask row); [apply lookup_insert_eq | done].
Qed.

Lemma loc_assign_lookup (mask : Row -> bool) (name : string) (v : float64)
    (df : DataFrame) (r : nat) (row : Row) :
  df !! r = Some row ->
  ∃ row', loc_assign mask name v df !! r = Some row' ∧ same_base row row'
          ∧ features row' !! name
            = if mask row then Some v else features row !! name.
Proof.
  intros Hr. unfold loc_assign. rewrite list_lookup_fmap, Hr. cbn.
  eexists. split; [reflexivity|]. destruct (mask row); cbn.
  - split; [by repeat split | apply lookup_insert_eq].
  - split; [by repeat split | done].
Qed.

Lemma loc_assign_base (mask : Row -> bool) (name : string) (v : float64)
    (df : DataFrame) :
  Forall2 same_base df (loc_assign mask name v df).
Proof.
  apply Forall2_same_length_lookup. split.
  - unfold loc_assign. by rewrite length_map.
  - intros r a b Ha Hb.
    destruct (loc_assign_lookup mask name v df r a Ha) as (b' & Hb' & H & _).
    congruence.
Qed.

Lemma solstice_cell (df : DataFrame) (r : nat) (row : Row) :
  df !! r = Some row ->
  cell (add_is_summer_solstice df) r "is_summer_solstice"
  = Some (if isin summer_solstice_dates (transaction_date row)
          then Fin 1 else Fin 0).
Proof.
  intros Hr. unfold add_is_summer_solstice, set_scalar.
  destruct (loc_assign_lookup (fun _ => true) "is_summer_solstice" (Fin 0)
              df r row Hr) as (row0 & Hr0 & (_ & Hd & _) & Hf).
  rewrite (cell_loc_assign _ _ _ _ r row0 Hr0), <- Hd, Hf.
  by destruct (isin summer_solstice_dates (transaction_date row)).
Qed.

Lemma solstice_dates_spelled_out (d : Z) :
  d ∈ summer_solstice_dates
  <-> (ymd 2018 6 19 <= d <= ymd 2018 6 22)%Z
      ∨ (ymd 2019 6 19 <= d <= ymd 2019 6 22)%Z.
Proof.
  unfold summer_solstice_dates.
  change (ymd 2018 6 19) with 17701%Z. change (ymd 2018 6 20) with 17702%Z.
  change (ymd 2018 6 21) with 17703%Z. change (ymd 2018 6 22) with 17704%Z.
  change (ymd 2019 6 19) with 18066%Z. change (ymd 2019 6 20) with 18067%Z.
  change (ymd 2019 6 21) with 18068%Z. change (ymd 2019 6 22) with 18069%Z.
  rewrite !elem_of_cons, elem_of_nil. lia.
Qed.

(** C8, as the code has it: [is_summer_solstice] of a row is 1 exactly
    when its [transaction_date] is one of the eight listed dates, June 19
    to June 22 of 2018 and of 2019, and 0 otherwise; so it is 0 on every
    date of any other year. *)
Theorem is_summer_solstice_marks_the_listed_dates (df : DataFrame) (r : nat)
    (row : Row) :
  df !! r = Some row ->
  let d := transaction_date row in
  let flag := cell (add_is_summer_solstice df) r "is_summer_solstice" in
  (flag = Some (Fin 1) ∨ flag = Some (Fin 0))
  ∧ (flag = Some (Fin 1)
     <-> (ymd 2018 6 19 <= d <= ymd 2018 6 22)%Z
         ∨ (ymd 2019 6 19 <= d <= ymd 2019 6 22)%Z)
  ∧ (dt_year d ≠ 2018%Z -> dt_year d ≠ 2019%Z -> flag = Some (Fin 0)).
Proof.
  intros Hr d flag. subst flag. rewrite (solstice_cell df r row Hr). fold d.
  pose proof (solstice_dates_spelled_out d) as Hd.
  unfold isin. destruct (bool_decide_reflect (d ∈ summer_solstice_dates))
    as [Hin|Hout].
  - split; [by left|]. split; [by rewrite <- Hd|].
    intros H18 H19. exfalso.
    apply Hd in Hin.
    change (ymd 2018 6 19) with 17701%Z in Hin.
    change (ymd 2018 6 22) with 17704%Z in Hin.
    change (ymd 2019 6 19) with 18066%Z in Hin.
    change (ymd 2019 6 22) with 18069%Z in Hin.
    assert (d ∈ [17701; 17702; 17703; 17704; 18066; 18067; 18068; 18069]%Z)
      as Hcases.
    { rewrite !elem_of_cons, elem_of_nil. lia. }
    rewrite !elem_of_cons, elem_of_nil in Hcases.
    destruct Hcases as [->|[->|[->|[->|[->|[->|[->|[->|[]]]]]]]]];
      first [by apply H18 | by apply H19].
  - split; [by right|]. split; [|done].
    split; [intros H; discriminate H|]. intros H. by apply Hd in H.
Qed.

Lemma is_summer_solstice_marks_the_listed_dates_witness :
  cell (add_is_summer_solstice example_df) 3 "is_summer_solstice"
  = Some (Fin 0).
Proof.
  destruct (is_summer_solstice_marks_the_listed_dates example_df 3
              (example_row 1 (ymd 2020 10 1) 12) eq_refl) as (_ & _ & H).
  apply H; vm_compute; discriminate.
Defined.

(** C8 as stated fails, whichever day of each year is taken as its
    solstice: no assignment [sol] of a solstice date to every year makes
    the indicator 1 exactly on the dates within three days of the solstice
    of their year. *)
Lemma no_solstice_date_gives_a_three_day_window :
  ¬ ∃ sol : Z -> Z,
      ∀ (df : DataFrame) (r : nat) (row : Row),
        df !! r = Some row ->
        (cell (add_is_summer_solstice df) r "is_summer_solstice"
         = Some (Fin 1)
         <-> (Z.abs (transaction_date row
                     - sol (dt_year (transaction_date row))) <= 3)%Z).
Proof.
  intros [sol H].
  assert (∀ d, isin summer_solstice_dates d = true
               <-> (Z.abs (d - sol (dt_year d)) <= 3)%Z) as Hd.
  { intros d. specialize (H [example_row 1 d 0] 0 _ eq_refl).
    rewrite (solstice_cell [example_row 1 d 0] 0 (example_row 1 d 0) eq_refl)
      in H.
    cbn [transaction_date example_row] in H.
    destruct (isin summer_solstice_dates d); split; intros H'.
    - by apply H.
    - done.
    - discriminate H'.
    - apply H in H'. discriminate H'. }
  pose proof (Hd 17701%Z) as H1. pose proof (Hd 17704%Z) as H2.
  change (dt_year 17701) with 2018%Z in H1.
  change (dt_year 17704) with 2018%Z in H2.
  change (isin summer_solstice_dates 17701) with true in H1.
  change (isin summer_solstice_dates 17704) with true in H2.
  apply proj1 in H1. specialize (H1 eq_refl).
  apply proj1 in H2. specialize (H2 eq_refl).
  assert (sol 2018%Z = 17701%Z ∨ sol 2018%Z = 17702%Z
          ∨ sol 2018%Z = 17703%Z ∨ sol 2018%Z = 17704%Z)
    as [Hs|[Hs|[Hs|Hs]]] by lia.
  - pose proof (Hd 17699%Z) as H3.
    change (dt_year 17699) with 2018%Z in H3.
    change (isin summer_solstice_dates 17699) with false in H3.
    rewrite Hs in H3. apply proj2 in H3. discriminate H3. lia.
  - pose proof (Hd 17700%Z) as H3.
    change (dt_year 17700) with 2018%Z in H3.
    change (isin summer_solstice_dates 17700) with false in H3.
    rewrite Hs in H3. apply proj2 in H3. discriminate H3. lia.
  - pose proof (Hd 17705%Z) as H3.
    change (dt_year 17705) with 2018%Z in H3.
    change (isin summer_solstice_dates 17705) with false in H3.
    rewrite Hs in H3. apply proj2 in H3. discriminate H3. lia.
  - pose proof (Hd 17706%Z) as H3.
    change (dt_year 17706) with 2018%Z in H3.
    change (isin summer_solstice_dates 17706) with false in H3.
    rewrite Hs in H3. apply proj2 in H3. discriminate H3. lia.
Qed.

(** ** The target transform *)

Lemma log1p_target_lookup (ln1p : Q -> Q) (df : DataFrame) (r : nat)
    (row : Row) :
  df !! r = Some row ->
  log1p_target ln1p df !! r
  = Some (mkRow (merchant_id row) (transaction_date row)
                (np_log1p ln1p (Total_Transaction row)) (Total_Paid row)
                (features row)).
Proof.
  intros Hr. unfold log1p_target. by rewrite list_lookup_fmap, Hr.
Qed.

Lemma add_is_black_friday_base (df : DataFrame) :
  Forall2 same_base df (add_is_black_friday df).
Proof.
  unfold add_is_black_friday, set_scalar.
  etransitivity; [|apply loc_assign_base]. apply loc_assign_base.
Qed.

Lemma add_is_summer_solstice_base (df : DataFrame) :
  Forall2 same_base df (add_is_summer_solstice df).
Proof.
  unfold add_is_summer_solstice, set_scalar.
  etransitivity; [|apply loc_assign_base]. apply loc_assign_base.
Qed.

(** The script runs to the split on every frame: none of its steps
    raises, and the frame that is split carries the source columns of the
    input with [np.log1p] applied to the target. *)
Lemma prepare_run (ln1p : Q -> Q) (df : DataFrame) (rs : RandomState) :
  ∃ (feat : DataFrame) (rs' : RandomState),
    Forall2 same_base df feat
    ∧ prepare ln1p df rs
      = Returns ((train (log1p_target ln1p feat),
                  val (log1p_target ln1p feat)), rs').
Proof.
  destruct (lag_features_cells df lag_spec rs) as (d1 & Hrun1 & Hb1 & _).
  destruct (roll_mean_features_cells d1 roll_windows
              (Nat.iter (length lag_spec) (advance (length df)) rs)
              script_windows_valid) as (d2 & Hrun2 & Hb2 & _).
  destruct (ewm_features_cells d2 alphas lags
              (Nat.iter (length roll_windows) (advance (length d1))
                 (Nat.iter (length lag_spec) (advance (length df)) rs))
              script_alphas_valid) as (d3 & Hrun3 & Hb3 & _).
  eexists (add_is_summer_solstice (add_is_black_friday d3)), _. split.
  - etransitivity; [exact Hb1|]. etransitivity; [exact Hb2|].
    etransitivity; [exact Hb3|].
    etransitivity; [apply add_is_black_friday_base|].
    apply add_is_summer_solstice_base.
  - unfold prepare, mbind, M_bind. rewrite Hrun1, Hrun2, Hrun3. reflexivity.
Qed.

(** C10, as the code has it: the script validates nothing before the
    transform and does not fail on a negative target.  On every frame it
    runs to the split, and the target of every row of the frame it splits
    is [np.log1p] of the row's input target, whatever its sign: NaN below
    -1, minus infinity at -1, the logarithm above. *)
Theorem log1p_is_applied_to_every_target (ln1p : Q -> Q) (df : DataFrame)
    (rs : RandomState) :
  ∃ (out : DataFrame) (rs' : RandomState),
    prepare ln1p df rs = Returns ((train out, val out), rs')
    ∧ length out = length df
    ∧ (∀ r row, df !! r = Some row ->
         ∃ row', out !! r = Some row'
                 ∧ merchant_id row' = merchant_id row
                 ∧ transaction_date row' = transaction_date row
                 ∧ Total_Transaction row'
                   = np_log1p ln1p (Total_Transaction row))
    ∧ (∀ q, (q < -1)%Q -> np_log1p ln1p (Fin q) = NaN)
    ∧ np_log1p ln1p (Fin (-1)) = NInf
    ∧ (∀ q, (-1 < q)%Q -> np_log1p ln1p (Fin q) = Fin (ln1p q)).
Proof.
  destruct (prepare_run ln1p df rs) as (feat & rs' & Hbase & Hrun).
  exists (log1p_target ln1p feat), rs'. split; [exact Hrun|]. split.
  { unfold log1p_target. by rewrite length_map, (Forall2_length _ _ _ Hbase). }
  split.
  { intros r row Hr.
    destruct (Forall2_lookup_l _ _ _ _ _ Hbase Hr)
      as (row1 & Hr1 & Hm & Hd & Ht & _).
    eexists. split; [by apply log1p_target_lookup|]. cbn.
    by rewrite Hm, Hd, Ht. }
  split; [|split].
  - intros q Hq. cbn. destruct (Qle_bool (-1) q) eqn:E; [|done].
    apply Qle_bool_iff in E. lra.
  - reflexivity.
  - intros q Hq. cbn.
    assert (Qle_bool (-1) q = true) as -> by (apply Qle_bool_iff; lra).
    destruct (Qeq_bool q (-1)) eqn:E; [|done].
    apply Qeq_bool_iff in E. lra.
Qed.

(** C10 as stated fails: a frame with a negative target does not make the
    script fail. *)
Lemma negative_target_does_not_fail :
  ¬ ∀ (ln1p : Q -> Q) (df : DataFrame) (rs : RandomState),
      (∃ row q, row ∈ df ∧ Total_Transaction row = Fin q ∧ (q < 0)%Q) ->
      ∃ e : exn, prepare ln1p df rs = Raises e.
Proof.
  intros H.
  destruct (H (fun q => q) [example_row 1 (ymd 2020 10 1) (-5)] example_rs)
    as [e He].
  { exists (example_row 1 (ymd 2020 10 1) (-5)), (-5)%Q.
    split; [by apply list_elem_of_singleton|]. split; [reflexivity|].
    reflexivity. }
  destruct (prepare_run (fun q => q) [example_row 1 (ymd 2020 10 1) (-5)]
              example_rs) as (feat & rs' & _ & Hrun).
  rewrite Hrun in He. discriminate He.
Qed.

(** ** Error paths of the builders *)

Lemma groupby_transform_raises (f : list float64 -> outcome (list float64))
    (e : exn) (df : DataFrame) :
  (∀ x, f x = Raises e) -> df ≠ [] -> groupby_transform f df = Raises e.
Proof.
  intros H Hne. destruct df as [|row df]; [done|].
  unfold groupby_transform. cbn. by rewrite H.
Qed.

(** A window shorter than [min_periods = 10] is rejected by pandas as soon
    as a group is transformed. *)
Lemma roll_mean_features_short_window (df : DataFrame) (window : nat)
    (windows : list nat) (rs : RandomState) :
  df ≠ [] -> window < 10 ->
  roll_mean_features df (window :: windows) rs = Raises ValueError.
Proof.
  intros Hne Hw. unfold roll_mean_features. rewrite for_each_cons.
  unfold mbind, M_bind, lift.
  rewrite (groupby_transform_raises _ ValueError); [done | | done].
  intros x. unfold rolling_triang_mean.
  by rewrite (proj2 (Nat.ltb_lt window 10) Hw).
Qed.

(** A smoothing factor outside (0, 1] is rejected likewise. *)
Lemma ewm_features_bad_alpha (df : DataFrame) (alpha : pyfloat)
    (alphas : list pyfloat) (lag : nat) (lags : list nat) (rs : RandomState) :
  df ≠ [] -> ¬ valid_alpha alpha ->
  ewm_features df (alpha :: alphas) (lag :: lags) rs = Raises ValueError.
Proof.
  intros Hne Hbad. unfold ewm_features. rewrite !for_each_cons.
  unfold mbind, M_bind, lift.
  rewrite (groupby_transform_raises _ ValueError); [done | | done].
  intros x. unfold ewm_mean.
  destruct (Qle_bool (fval alpha) 0) eqn:E0; [done|].
  destruct (Qle_bool (fval alpha) 1) eqn:E1; [|done].
  exfalso. apply Hbad. apply Qle_bool_iff in E1. split; [|done].
  destruct (Qlt_le_dec 0 (fval alpha)) as [|Hle]; [done|].
  apply Qle_bool_iff in Hle. congruence.
Qed.

(** Rows of one noise vector, and noise vectors of different iterations,
    use different draws of the generator. *)
Lemma noise_draws_are_distinct (n k k' r r' : nat) :
  r < n -> r' < n -> k * n + r = k' * n + r' -> k = k' ∧ r = r'.
Proof.
  intros Hr Hr' H.
  destruct (Nat.lt_trichotomy k k') as [Hlt|[->|Hlt]]; [nia | lia | nia].
Qed.

(** * Further properties *)

Local Open Scope Q_scope.

(** ** More on SMAPE *)

(** With arrays of different lengths the call raises: broadcasting fails
    with a [ValueError], unless one array has length 1, in which case the
    mask broadcasts and the boolean indexing of the shorter array fails
    with an [IndexError].  The one exception are the lengths 0 and 1: the
    mask is then empty, and an empty mask indexes any array. *)
Lemma bool_index_mismatch {A} (a : list A) (mask : list bool) :
  length a ≠ length mask -> mask ≠ [] -> bool_index a mask = Raises IndexError.
Proof.
  intros H Hm. unfold bool_index. rewrite (proj2 (Nat.eqb_neq _ _) H).
  by destruct mask.
Qed.

Lemma bool_index_empty_mask {A} (a : list A) : bool_index a [] = Returns [].
Proof. unfold bool_index. cbn. rewrite orb_true_r. by destruct a. Qed.

Lemma smape_unequal_lengths (preds target : list Q) :
  length preds ≠ length target -> (length preds + length target)%nat ≠ 1%nat ->
  smape preds target
  = Raises (if (length preds =? 1)%nat || (length target =? 1)%nat
            then IndexError else ValueError).
Proof.
  intros Hne H1. unfold smape, np_mask.
  rewrite (proj2 (Nat.eqb_neq _ _) Hne).
  destruct preds as [|p [|p' preds]].
  - destruct target as [|t [|t' target]]; [done|done|reflexivity].
  - destruct target as [|t target]; [done|].
    rewrite outcome_bind_ret.
    rewrite (bool_index_mismatch [p]) by (by rewrite ?length_map).
    reflexivity.
  - destruct target as [|t [|t' target]]; [reflexivity| |reflexivity].
    rewrite outcome_bind_ret.
    rewrite (bool_index_same (p :: p' :: preds)) by (by rewrite length_map).
    rewrite outcome_bind_ret.
    rewrite (bool_index_mismatch [t]) by (by rewrite ?length_map).
    reflexivity.
Qed.

Lemma smape_f64_unequal_lengths (preds target : list float64) :
  length preds ≠ length target -> (length preds + length target)%nat ≠ 1%nat ->
  smape_f64 preds target
  = Raises (if (length preds =? 1)%nat || (length target =? 1)%nat
            then IndexError else ValueError).
Proof.
  intros Hne H1. unfold smape_f64, np_mask_f64.
  rewrite (proj2 (Nat.eqb_neq _ _) Hne).
  destruct preds as [|p [|p' preds]].
  - destruct target as [|t [|t' target]]; [done|done|reflexivity].
  - destruct target as [|t target]; [done|].
    rewrite outcome_bind_ret.
    rewrite (bool_index_mismatch [p]) by (by rewrite ?length_map).
    reflexivity.
  - destruct target as [|t [|t' target]]; [reflexivity| |reflexivity].
    rewrite outcome_bind_ret.
    rewrite (bool_index_same (p :: p' :: preds)) by (by rewrite length_map).
    rewrite outcome_bind_ret.
    rewrite (bool_index_mismatch [t]) by (by rewrite ?length_map).
    reflexivity.
Qed.

Lemma Qabs_minus_sym (p t : Q) : Qabs (p - t) == Qabs (t - p).
Proof.
  rewrite <- (Qabs_opp (t - p)). apply Qabs_wd. ring.
Qed.

Lemma ratio_sym (p t : Q) : ratio p t == ratio t p.
Proof.
  unfold ratio. rewrite (andb_comm (Qis_zero t)).
  destruct (Qis_zero p && Qis_zero t); [reflexivity|].
  rewrite Qabs_minus_sym, (Qplus_comm (Qabs t)). reflexivity.
Qed.

Lemma Qsum_ratio_sym (preds : list Q) : ∀ target : list Q,
  Qsum (zip_with ratio preds target) == Qsum (zip_with ratio target preds).
Proof.
  induction preds as [|p preds IH]; intros [|t target]; try reflexivity.
  cbn [zip_with]. rewrite !Qsum_cons, IH, ratio_sym. reflexivity.
Qed.

(** What [smape] returns on arrays of equal length, the empty ones
    included. *)
Lemma smape_equal_length_value (preds target : list Q) :
  length preds = length target ->
  (preds = [] ∧ smape preds target = Returns NaN)
  ∨ (preds ≠ [] ∧ ∃ s : Q,
       smape preds target
       = Returns (Fin (200 * s / inject_Z (Z.of_nat (length preds))))
       ∧ s == Qsum (zip_with ratio preds target)).
Proof.
  intros Hlen. destruct preds as [|p preds].
  - left. destruct target; [done | discriminate Hlen].
  - right. split; [done|]. by apply smape_value.
Qed.

(** Equal sums give equal metric values. *)
Lemma smape_compare (preds target preds' target' : list Q) :
  length preds = length target -> length preds' = length target' ->
  length preds = length preds' ->
  Qsum (zip_with ratio preds target) == Qsum (zip_with ratio preds' target') ->
  outcome_equiv (smape preds target) (smape preds' target').
Proof.
  intros Hlen Hlen' Hn Hsum.
  destruct (smape_equal_length_value preds target Hlen)
    as [[-> ->]|(Hne & s & -> & Hs)];
    destruct (smape_equal_length_value preds' target' Hlen')
    as [[-> Hr']|(Hne' & s' & Hr' & Hs')]; rewrite Hr'; cbn.
  - done.
  - by destruct preds'.
  - by destruct preds.
  - rewrite Hn, Hs, Hs', Hsum. reflexivity.
Qed.

(** X1: swapping predictions and targets gives [smape] the same value, or
    the same exception when the lengths differ, except for an empty array
    against an array of one entry: there the mask is empty, nothing
    raises, and the result is the empty sum over the length of the first
    argument, [NaN] for [smape([], [t])] and 0 for [smape([t], [])]. *)
Theorem smape_symmetric (preds target : list Q) :
  ((length preds + length target)%nat ≠ 1%nat ->
   outcome_equiv (smape preds target) (smape target preds))
  ∧ (∀ t : Q,
       smape [] [t] = Returns NaN
       ∧ ∃ v : Q, smape [t] [] = Returns (Fin v) ∧ v == 0).
Proof.
  split.
  - intros H1. destruct (decide (length preds = length target)) as [Hlen|Hne].
    + apply smape_compare; [done | done | done | apply Qsum_ratio_sym].
    + rewrite (smape_unequal_lengths preds target Hne H1).
      rewrite (smape_unequal_lengths target preds) by lia.
      cbn. by rewrite orb_comm.
  - intros t. split; [reflexivity|].
    eexists. split; [reflexivity | reflexivity].
Qed.

Lemma smape_symmetric_witness :
  outcome_equiv (smape [10; 0; 3] [0; 0; 1]) (smape [0; 0; 1] [10; 0; 3])
  ∧ outcome_equiv (smape [1; 2] [3]) (smape [3] [1; 2]).
Proof.
  split.
  - apply (proj1 (smape_symmetric [10; 0; 3] [0; 0; 1])). discriminate.
  - apply (proj1 (smape_symmetric [1; 2] [3])). discriminate.
Defined.

(** X4: on float arrays of any content [smape] returns exactly when the
    two arrays have the same length, or one is empty and the other has one
    entry; then [smape([], [t])] is [NaN] and [smape([p], [])] is 0.  With
    any other two lengths it raises: [IndexError] when one of the arrays
    has length 1, [ValueError] otherwise. *)
Theorem smape_returns_iff_lengths_fit (preds target : list float64) :
  ((∃ v, smape_f64 preds target = Returns v)
   <-> length preds = length target ∨ (length preds + length target)%nat = 1%nat)
  ∧ (length preds ≠ length target -> (length preds + length target)%nat ≠ 1%nat ->
     smape_f64 preds target
     = Raises (if (length preds =? 1)%nat || (length target =? 1)%nat
               then IndexError else ValueError))
  ∧ (preds = [] -> length target = 1%nat ->
     smape_f64 preds target = Returns NaN)
  ∧ (length preds = 1%nat -> target = [] ->
     ∃ v : Q, smape_f64 preds target = Returns (Fin v) ∧ v == 0).
Proof.
  assert (preds = [] -> length target = 1%nat ->
          smape_f64 preds target = Returns NaN) as Hnan.
  { intros -> Ht. destruct target as [|t [|]]; try discriminate Ht.
    reflexivity. }
  assert (length preds = 1%nat -> target = [] ->
          ∃ v : Q, smape_f64 preds target = Returns (Fin v) ∧ v == 0) as Hzero.
  { intros Hp ->. destruct preds as [|p [|]]; try discriminate Hp.
    eexists. split; [reflexivity | reflexivity]. }
  split; [|split; [apply smape_f64_unequal_lengths | by split]].
  split.
  - intros [v Hv].
    destruct (decide (length preds = length target)) as [|Hne]; [by left|].
    destruct (decide ((length preds + length target)%nat = 1%nat)) as [|H1];
      [by right|].
    rewrite smape_f64_unequal_lengths in Hv by done. discriminate Hv.
  - intros [Hlen|H1].
    + rewrite (smape_f64_equal_length _ _ Hlen). eauto.
    + destruct preds as [|p preds].
      * rewrite Hnan by done. eauto.
      * destruct preds, target; try (cbn in H1; lia).
        destruct Hzero as (v & -> & _); [done | done | eauto].
Qed.

Local Close Scope Q_scope.

(** ** The exponentially weighted mean is an average *)

Lemma Forall_finite_between_fmap (lo hi : Q) (xs : list float64) :
  Forall (finite_between lo hi) xs ->
  ∃ qs, xs = Fin <$> qs ∧ Forall (fun q => (lo <= q)%Q ∧ (q <= hi)%Q) qs.
Proof.
  induction 1 as [|x xs (q & -> & Hq) _ (qs & -> & Hqs)].
  - by exists [].
  - exists (q :: qs). split; [done|]. by constructor.
Qed.

Lemma shift_of_finite (L : nat) (qs : list Q) :
  shift L (Fin <$> qs)
  = replicate (L `min` length qs) NaN ++ (Fin <$> take (length qs - L) qs).
Proof.
  unfold shift. rewrite length_fmap, take_app, take_replicate, length_replicate.
  by rewrite fmap_take, (Nat.min_comm L).
Qed.

Lemma convex_step (a w c lo hi : Q) :
  (0 <= a)%Q -> (lo <= w)%Q -> (w <= hi)%Q -> (lo <= c)%Q -> (c <= hi)%Q ->
  (lo <= (a * w + 1 * c) / (a + 1))%Q ∧ ((a * w + 1 * c) / (a + 1) <= hi)%Q.
Proof.
  intros Ha Hw1 Hw2 Hc1 Hc2. split.
  - apply Qle_shift_div_l; [lra|]. nra.
  - apply Qle_shift_div_r; [lra|]. nra.
Qed.

Lemma ewm_step_between (alpha : Q) (s : ewm_acc) (c lo hi w : Q) :
  (alpha <= 1)%Q -> weighted s = Fin w -> (lo <= w)%Q -> (w <= hi)%Q ->
  (0 <= old_wt s)%Q -> (lo <= c)%Q -> (c <= hi)%Q ->
  ∃ w', weighted (ewm_step alpha s (Fin c)) = Fin w'
        ∧ (lo <= w')%Q ∧ (w' <= hi)%Q
        ∧ (0 <= old_wt (ewm_step alpha s (Fin c)))%Q
        ∧ nobs (ewm_step alpha s (Fin c)) = S (nobs s).
Proof.
  intros Ha Hw Hw1 Hw2 Hold Hc1 Hc2. unfold ewm_step. rewrite Hw. cbn.
  assert (0 <= old_wt s * (1 - alpha))%Q as Ha'.
  { apply Qmult_le_0_compat; lra. }
  destruct (Qeq_bool w c) eqn:E; cbn.
  - exists w. repeat split; try done; [lra | lia].
  - assert (Qis_zero (old_wt s * (1 - alpha) + 1) = false) as ->.
    { apply Qis_zero_false. lra. }
    destruct (convex_step (old_wt s * (1 - alpha)) w c lo hi) as [H1 H2];
      try done.
    eexists. repeat split; try done; [lra | lia].
Qed.

Lemma ewm_scan_between (alpha lo hi : Q) (qs : list Q) :
  (alpha <= 1)%Q ->
  Forall (fun q => (lo <= q)%Q ∧ (q <= hi)%Q) qs ->
  ∀ s w, weighted s = Fin w -> (lo <= w)%Q -> (w <= hi)%Q ->
         (0 <= old_wt s)%Q -> 1 <= nobs s ->
         Forall (finite_between lo hi) (ewm_scan alpha 1 s (Fin <$> qs)).
Proof.
  intros Ha Hqs. induction Hqs as [|q qs [Hq1 Hq2] _ IH]; intros s w Hw H1 H2 Ho Hn.
  - constructor.
  - cbn [fmap list_fmap ewm_scan].
    destruct (ewm_step_between alpha s q lo hi w Ha Hw H1 H2 Ho Hq1 Hq2)
      as (w' & Hw' & Hw1 & Hw2 & Ho' & Hn').
    constructor.
    + unfold ewm_out. rewrite Hn', Hw'. cbn. by exists w'.
    + apply (IH _ w'); try done. lia.
Qed.

Lemma ewm_scan_missing_prefix (alpha lo hi : Q) (qs : list Q) (k : nat) :
  (alpha <= 1)%Q ->
  Forall (fun q => (lo <= q)%Q ∧ (q <= hi)%Q) qs ->
  ∀ s, weighted s = NaN -> nobs s = 0 -> (0 <= old_wt s)%Q ->
       ∃ ws, ewm_scan alpha 1 s (replicate k NaN ++ (Fin <$> qs))
             = replicate k NaN ++ ws
             ∧ Forall (finite_between lo hi) ws.
Proof.
  intros Ha Hqs. induction k as [|k IH]; intros s Hw Hn Ho.
  - cbn [replicate app]. destruct Hqs as [|q qs [Hq1 Hq2] Hqs].
    + by exists [].
    + cbn [fmap list_fmap ewm_scan]. eexists. split; [reflexivity|].
      assert (ewm_step alpha s (Fin q) = mkEwm (Fin q) (old_wt s) 1) as ->.
      { unfold ewm_step. rewrite Hw, Hn. reflexivity. }
      constructor; [by exists q|].
      by apply (ewm_scan_between alpha lo hi qs Ha Hqs _ q).
  - cbn [replicate app ewm_scan].
    assert (ewm_step alpha s NaN = mkEwm NaN (old_wt s) 0) as ->.
    { unfold ewm_step. rewrite Hw, Hn. reflexivity. }
    destruct (IH (mkEwm NaN (old_wt s) 0)) as (ws & -> & Hws); try done.
    exists ws. by split.
Qed.

Lemma ewm_values_missing_prefix (alpha lo hi : Q) (qs : list Q) (k : nat) :
  (alpha <= 1)%Q ->
  Forall (fun q => (lo <= q)%Q ∧ (q <= hi)%Q) qs ->
  ∃ ws, ewm_values alpha 1 (replicate k NaN ++ (Fin <$> qs))
        = replicate k NaN ++ ws
        ∧ Forall (finite_between lo hi) ws.
Proof.
  intros Ha Hqs. destruct k as [|k].
  - cbn [replicate app]. destruct Hqs as [|q qs [Hq1 Hq2] Hqs].
    + by exists [].
    + cbn. eexists. split; [reflexivity|].
      constructor; [by exists q|].
      by apply (ewm_scan_between alpha lo hi qs Ha Hqs _ q).
  - cbn [replicate app ewm_values].
    destruct (ewm_scan_missing_prefix alpha lo hi qs k Ha Hqs (ewm_first NaN))
      as (ws & -> & Hws); try done.
    exists ws. by split.
Qed.

(** On a series of finite values between [lo] and [hi], the exponentially
    weighted mean of the series shifted by [L] is missing at the first [L]
    positions and lies between [lo] and [hi] afterwards. *)
Lemma ewm_transform_between (alpha lo hi : Q) (L : nat) (xs : list float64)
    (i : nat) :
  (alpha <= 1)%Q -> Forall (finite_between lo hi) xs -> i < length xs ->
  (i < L -> ewm_transform alpha L xs !! i = Some NaN)
  ∧ (L <= i -> ∃ x, ewm_transform alpha L xs !! i = Some x
                    ∧ finite_between lo hi x).
Proof.
  intros Ha Hxs Hi.
  destruct (Forall_finite_between_fmap lo hi xs Hxs) as (qs & -> & Hqs).
  rewrite length_fmap in Hi. unfold ewm_transform. rewrite shift_of_finite.
  destruct (ewm_values_missing_prefix alpha lo hi (take (length qs - L) qs)
              (L `min` length qs) Ha) as (ws & Hrun & Hws).
  { by apply Forall_take. }
  pose proof (f_equal length Hrun) as Hlen.
  rewrite length_ewm_values, !length_app, !length_replicate, length_fmap,
    length_take in Hlen.
  rewrite Hrun. split.
  - intros HL. rewrite lookup_app_l by (rewrite length_replicate; lia).
    apply lookup_replicate_2. lia.
  - intros HL. rewrite lookup_app_r by (rewrite length_replicate; lia).
    rewrite length_replicate.
    destruct (lookup_lt_is_Some_2 ws (i - L `min` length qs)) as [x Hx];
      [lia|].
    exists x. split; [done|].
    by apply (proj1 (Forall_lookup _ _) Hws _ _ Hx).
Qed.

(** X6: when the targets of a merchant are finite numbers between [lo] and
    [hi], the EWM feature of each of its rows is missing at the first [L]
    rows of the merchant and a number between [lo] and [hi] at the later
    ones: the feature is an average of past targets. *)
Theorem ewm_feature_is_an_average (df : DataFrame) (alphas : list pyfloat)
    (lags : list nat) (rs : RandomState) (a : pyfloat) (L r : nat)
    (row : Row) (lo hi : Q) :
  a ∈ alphas -> L ∈ lags -> Forall valid_alpha alphas ->
  ewm_names_distinct alphas lags -> df !! r = Some row ->
  Forall (finite_between lo hi) (group_series df (merchant_id row)) ->
  ∃ out : DataFrame,
    ewm_features df alphas lags rs = Returns (out, rs)
    ∧ (group_pos df r (merchant_id row) < L ->
       cell out r (ewm_name a L) = Some NaN)
    ∧ (L <= group_pos df r (merchant_id row) ->
       ∃ x, cell out r (ewm_name a L) = Some x ∧ finite_between lo hi x).
Proof.
  intros Ha HL Hok Hd Hr Hfin.
  destruct (ewm_cell_value df alphas lags rs a L r row Ha HL Hok Hd Hr)
    as (out & Hrun & _ & Hcell).
  exists out. split; [exact Hrun|].
  assert ((fval a <= 1)%Q) as Ha1.
  { by apply (proj1 (Forall_forall _ _) Hok a Ha). }
  destruct (ewm_transform_between (fval a) lo hi L _ _ Ha1 Hfin
              (group_pos_lt df r row Hr)) as [Hlt Hge].
  rewrite Hcell. unfold group_value. split.
  - intros Hi. by rewrite (Hlt Hi).
  - intros Hi. destruct (Hge Hi) as (x & -> & Hx). by exists x.
Qed.

Lemma ewm_feature_is_an_average_witness :
  ∃ out : DataFrame,
    ewm_features example_df example_alphas [1; 2] example_rs
    = Returns (out, example_rs)
    ∧ ∃ x, cell out 3 (ewm_name (mkFloat (5 # 10) "0.5") 1) = Some x
           ∧ finite_between 10 12 x.
Proof.
  destruct (ewm_feature_is_an_average example_df example_alphas [1; 2]
              example_rs (mkFloat (5 # 10) "0.5") 1 3
              (example_row 1 (ymd 2020 10 1) 12) 10 12)
    as (out & Hrun & _ & Hge).
  - repeat constructor.
  - repeat constructor.
  - repeat constructor; cbn; unfold Qle; cbn; lia.
  - apply ewm_names_distinct_of_NoDup; by_decide.
  - reflexivity.
  - repeat constructor; eexists; (split; [reflexivity|]);
      split; unfold Qle; cbn; lia.
  - exists out. split; [exact Hrun|]. apply Hge. vm_compute. lia.
Defined.

(** ** The rolling mean needs ten observations and is an average *)

Lemma length_removelast_pred {A} (l : list A) :
  length (removelast l) = length l - 1.
Proof.
  induction l as [|x [|y l] IH]; [done | done |].
  change (removelast (x :: y :: l)) with (x :: removelast (y :: l)).
  cbn [length] in *. lia.
Qed.

Lemma In_removelast_In {A} (l : list A) (x : A) :
  In x (removelast l) -> In x l.
Proof.
  induction l as [|y [|z l] IH]; [done | done |].
  change (removelast (y :: z :: l)) with (y :: removelast (z :: l)).
  intros [->|H]; [by left | right; by apply IH].
Qed.

Lemma length_triang (M : nat) : length (triang M) = M.
Proof.
  unfold triang. destruct (Nat.even M) eqn:E.
  - apply Nat.even_spec in E as [m ->].
    rewrite length_app, length_rev, !length_map, length_seq.
    replace ((2 * m + 1) / 2) with m; [lia|].
    apply (Nat.div_unique _ 2 m 1); lia.
  - assert (Nat.odd M = true) as [m ->]%Nat.odd_spec.
    { by rewrite <- Nat.negb_even, E. }
    rewrite length_app, length_rev, length_removelast_pred, !length_map,
      length_seq.
    replace ((2 * m + 1 + 1) / 2) with (S m); [lia|].
    apply (Nat.div_unique _ 2 (S m) 0); lia.
Qed.

Lemma triang_positive (M : nat) (w : Q) : In w (triang M) -> (0 < w)%Q.
Proof.
  assert (∀ k, In k (seq 1 ((M + 1) / 2)) -> 1 <= k ∧ 1 <= M) as Hk.
  { intros k [Hk1 Hk2]%in_seq. split; [done|].
    destruct M as [|M]; [|lia]. cbn in Hk2. lia. }
  assert (∀ k, 1 <= k -> (1 <= inject_Z (Z.of_nat k))%Q) as Hinj.
  { intros k Hk1. change 1%Q with (inject_Z 1). rewrite <- Zle_Qle. lia. }
  unfold triang. destruct (Nat.even M).
  - intros H. assert (In w (map (fun k => (2 * inject_Z (Z.of_nat k) - 1)
                                         / inject_Z (Z.of_nat M))%Q
                              (seq 1 ((M + 1) / 2)))) as Hw.
    { apply in_app_iff in H as [H|H]; [done | by apply in_rev in H]. }
    apply in_map_iff in Hw as (k & <- & [Hk1 HM]%Hk).
    pose proof (Hinj k Hk1). pose proof (Hinj M HM).
    apply Qlt_shift_div_l; lra.
  - intros H. assert (In w (map (fun k => 2 * inject_Z (Z.of_nat k)
                                         / (inject_Z (Z.of_nat M) + 1))%Q
                              (seq 1 ((M + 1) / 2)))) as Hw.
    { apply in_app_iff in H as [H|H]; [done|].
      apply in_rev in H. by apply In_removelast_In in H. }
    apply in_map_iff in Hw as (k & <- & [Hk1 HM]%Hk).
    pose proof (Hinj k Hk1). pose proof (Hinj M HM).
    apply Qlt_shift_div_l; lra.
Qed.

Lemma omap_all_None {A B} (f : A -> option B) (l : list A) :
  Forall (fun x => f x = None) l -> omap f l = [].
Proof.
  induction 1 as [|x l Hx _ IH]; [done|]. cbn. by rewrite Hx.
Qed.

Lemma length_omap_all_Some {A B} (f : A -> option B) (l : list A) :
  Forall (fun x => is_Some (f x)) l -> length (omap f l) = length l.
Proof.
  induction 1 as [|x l [y Hx] _ IH]; [done|]. cbn. rewrite Hx. cbn.
  by rewrite IH.
Qed.

(** Under the window that ends at position [j] of a shifted series of
    finite values lie [min W j] observations, each a value of the series
    weighted by a weight of the window. *)
Lemma window_terms_of_shifted (lo hi : Q) (qs : list Q) (w : list Q)
    (j : nat) :
  Forall (fun q => (lo <= q)%Q ∧ (q <= hi)%Q) qs ->
  Forall (fun x => (0 < x)%Q) w ->
  j < length qs ->
  length (window_terms (shift 1 (Fin <$> qs)) w j) = length w `min` j
  ∧ Forall (fun t => finite_between lo hi t.1 ∧ (0 < t.2)%Q)
           (window_terms (shift 1 (Fin <$> qs)) w j).
Proof.
  intros Hqs Hw Hj. split.
  - unfold window_terms. set (f := fun '(win_i, x) => _).
    rewrite <- (take_drop (length w - j) (imap pair w)), omap_app, length_app.
    rewrite (omap_all_None f (take _ _)), (length_omap_all_Some f (drop _ _)).
    + cbn. rewrite length_drop, length_imap. lia.
    + apply Forall_lookup. intros i [win_i x] Hi.
      rewrite lookup_drop, list_lookup_imap in Hi.
      destruct (w !! (length w - j + i)) as [x'|] eqn:Hx; [|done].
      injection Hi as <- <-. apply lookup_lt_Some in Hx.
      unfold f. rewrite decide_True by lia.
      rewrite shift_lookup_ge by (rewrite ?length_fmap; lia).
      rewrite list_lookup_fmap.
      destruct (lookup_lt_is_Some_2 qs
                  (j - (length w - 1 - (length w - j + i)) - 1)) as [q ->];
        [lia|].
      cbn. eauto.
    + apply Forall_lookup. intros i [win_i x] [Hi Hlt]%lookup_take_Some.
      rewrite list_lookup_imap in Hi.
      destruct (w !! i) as [x'|] eqn:Hx; [|done].
      injection Hi as <- <-. unfold f.
      case_decide as Hback; [|done].
      replace (j - (length w - 1 - i)) with 0 by lia.
      rewrite shift_lookup_lt by (rewrite ?length_fmap; lia). done.
  - apply Forall_forall. intros [v x] Hin. unfold window_terms in Hin.
    apply list_elem_of_omap in Hin as ([win_i x'] & Hin & Hf).
    apply list_elem_of_lookup in Hin as [i Hi].
    rewrite list_lookup_imap in Hi.
    destruct (w !! i) as [x''|] eqn:Hx; [|done]. injection Hi as <- <-.
    case_decide as Hback; [|done].
    destruct (shift 1 (Fin <$> qs) !! (j - (length w - 1 - i)))
      as [v'|] eqn:Hv; [|done].
    cbn in Hf. destruct (isnan v') eqn:Hnan; [done|].
    injection Hf as <- <-. cbn. split.
    + rewrite shift_of_finite in Hv.
      apply lookup_app_Some in Hv as [Hv|[_ Hv]].
      * apply lookup_replicate in Hv as [-> _]. done.
      * apply list_lookup_fmap_Some in Hv as (q & -> & Hq).
        exists q. split; [done|].
        apply lookup_take_Some in Hq as [Hq _].
        by apply (proj1 (Forall_lookup _ _) Hqs _ _ Hq).
    + by apply (proj1 (Forall_lookup _ _) Hw _ _ Hx).
Qed.

Lemma weighted_sum_between (lo hi : Q) (terms : list (float64 * Q)) :
  Forall (fun t => finite_between lo hi t.1 ∧ (0 < t.2)%Q) terms ->
  ∀ acc : Q,
  ∃ S : Q,
    foldl fadd (Fin acc) (map (fun '(v, w) => fmul v (Fin w)) terms) = Fin S
    ∧ (acc + lo * Qsum (map snd terms) <= S)%Q
    ∧ (S <= acc + hi * Qsum (map snd terms))%Q
    ∧ (0 <= Qsum (map snd terms))%Q
    ∧ (terms ≠ [] -> (0 < Qsum (map snd terms))%Q).
Proof.
  induction 1 as [|[v w] terms [(q & Hv & Hq1 & Hq2) Hw] _ IH]; intros acc.
  - exists acc. cbn. repeat split; try lra. done.
  - cbn in Hv, Hw. subst v. cbn [map foldl snd]. rewrite Qsum_cons.
    change (fadd (Fin acc) (fmul (Fin q) (Fin w))) with (Fin (acc + q * w)%Q).
    destruct (IH (acc + q * w)%Q) as (S & HS & H1 & H2 & H0 & _).
    exists S. split; [exact HS|]. split; [nra|]. split; [nra|].
    split; [lra|]. intros _. lra.
Qed.

(** On a series of finite values between [lo] and [hi], the rolling mean
    of the series shifted by one is missing at the first ten positions and
    lies between [lo] and [hi] afterwards. *)
Lemma roll_transform_between (lo hi : Q) (W : nat) (xs : list float64)
    (i : nat) :
  10 <= W -> Forall (finite_between lo hi) xs -> i < length xs ->
  (i < 10 -> roll_transform W xs !! i = Some NaN)
  ∧ (10 <= i -> ∃ x, roll_transform W xs !! i = Some x
                     ∧ finite_between lo hi x).
Proof.
  intros HW Hxs Hi.
  destruct (Forall_finite_between_fmap lo hi xs Hxs) as (qs & -> & Hqs).
  rewrite length_fmap in Hi.
  destruct (window_terms_of_shifted lo hi qs (triang W) i Hqs) as [Hlen Hterms];
    [apply Forall_forall; intros x Hx;
     by apply (triang_positive W), list_elem_of_In
    | done |].
  rewrite length_triang in Hlen.
  unfold roll_transform, roll_weighted_mean.
  rewrite list_lookup_fmap, lookup_seq_lt
    by (by rewrite length_shift, length_fmap).
  cbn [fmap option_fmap option_map Nat.add]. rewrite Hlen.
  change (Nat.max 10 1) with 10. split.
  - intros Hlt. by rewrite (proj2 (Nat.ltb_lt (W `min` i) 10)) by lia.
  - intros Hge. rewrite (proj2 (Nat.ltb_ge (W `min` i) 10)) by lia.
    destruct (weighted_sum_between lo hi _ Hterms 0%Q)
      as (S & HS & H1 & H2 & _ & Hpos).
    assert ((0 < Qsum (map snd (window_terms (shift 1 (Fin <$> qs))
                                  (triang W) i)))%Q) as HT.
    { apply Hpos. intros Hnil. rewrite Hnil in Hlen. cbn in Hlen. lia. }
    eexists. split; [reflexivity|].
    rewrite (proj2 (Qis_zero_false _)) by lra.
    unfold np_sum. rewrite HS. cbn. rewrite (proj2 (Qis_zero_false _)) by lra.
    eexists. split; [reflexivity|]. split.
    + apply Qle_shift_div_l; [done|]. lra.
    + apply Qle_shift_div_r; [done|]. lra.
Qed.

(** X7: when the targets of a merchant are finite numbers between [lo] and
    [hi], the rolling-mean feature of each of its rows is missing at the
    first ten rows of the merchant, whatever the window, and at the later
    rows it is a number between [lo] and [hi] plus the row's noise draw. *)
Theorem rolling_feature_needs_ten_rows (df : DataFrame) (windows : list nat)
    (rs : RandomState) (W r : nat) (row : Row) (lo hi : Q) :
  W ∈ windows -> Forall (fun w => 10 <= w) windows -> df !! r = Some row ->
  Forall (finite_between lo hi) (group_series df (merchant_id row)) ->
  ∃ (out : DataFrame) (rs1 : RandomState) (k : nat),
    roll_mean_features df windows rs = Returns (out, rs1)
    ∧ windows !! k = Some W
    ∧ (group_pos df r (merchant_id row) < 10 ->
       cell out r (roll_name W) = Some NaN)
    ∧ (10 <= group_pos df r (merchant_id row) ->
       ∃ q, (lo <= q)%Q ∧ (q <= hi)%Q
            ∧ cell out r (roll_name W)
              = Some (Fin (q + noise_at rs k (length df) r))).
Proof.
  intros HW Hok Hr Hfin.
  destruct (last_occurrence windows W HW) as (k & Hk & Hlater).
  destruct (roll_cell_value df windows rs k W r row Hok Hk Hlater Hr)
    as (out & Hrun & Hcell).
  eexists out, _, k. split; [exact Hrun|]. split; [exact Hk|].
  destruct (roll_transform_between lo hi W _ _
              (proj1 (Forall_forall _ _) Hok W HW) Hfin
              (group_pos_lt df r row Hr)) as [Hlt Hge].
  rewrite Hcell. unfold group_value. split.
  - intros Hi. by rewrite (Hlt Hi).
  - intros Hi. destruct (Hge Hi) as (x & -> & q & -> & Hq1 & Hq2).
    by exists q.
Qed.

Lemma rolling_feature_needs_ten_rows_witness :
  ∃ (out : DataFrame) (rs1 : RandomState) (k : nat) (q : Q),
    roll_mean_features (example_series 1 (example_past ++ [7; 8]%Q)) [10; 12]
      example_rs = Returns (out, rs1)
    ∧ (1 <= q)%Q ∧ (q <= 9)%Q
    ∧ cell out 11 (roll_name 12)
      = Some (Fin (q + noise_at example_rs k 13 11)).
Proof.
  destruct (rolling_feature_needs_ten_rows
              (example_series 1 (example_past ++ [7; 8]%Q)) [10; 12]
              example_rs 12 11 (example_row 1 (ymd 2020 9 20 + 11) 7) 1 9)
    as (out & rs1 & k & Hrun & _ & _ & Hge).
  - repeat constructor.
  - repeat constructor; lia.
  - reflexivity.
  - repeat constructor; eexists; (split; [reflexivity|]);
      split; unfold Qle; cbn; lia.
  - destruct Hge as (q & Hq1 & Hq2 & Hcell); [vm_compute; lia|].
    exists out, rs1, k, q. by repeat split.
Defined.

(** ** The run of the script as a whole *)

Lemma lag_name_not_roll_name (L W : nat) : lag_name L ≠ roll_name W.
Proof. intros H. discriminate H. Qed.

Lemma lag_name_not_ewm_name (L : nat) (p : pyfloat * nat) :
  ewm_pair_name p ≠ lag_name L.
Proof. intros H. discriminate H. Qed.

Lemma roll_name_not_ewm_name (W : nat) (p : pyfloat * nat) :
  ewm_pair_name p ≠ roll_name W.
Proof. intros H. discriminate H. Qed.

Lemma cell_loc_assign_ne (mask : Row -> bool) (name s : string) (v : float64)
    (df : DataFrame) (r : nat) :
  name ≠ s -> cell (loc_assign mask name v df) r s = cell df r s.
Proof.
  intros Hne. unfold cell, loc_assign. rewrite list_lookup_fmap.
  destruct (df !! r) as [row|]; [|done]. cbn.
  destruct (mask row); [by apply lookup_insert_ne | done].
Qed.

Lemma cell_log1p_target (ln1p : Q -> Q) (df : DataFrame) (r : nat)
    (s : string) :
  cell (log1p_target ln1p df) r s = cell df r s.
Proof.
  unfold cell, log1p_target. rewrite list_lookup_fmap.
  by destruct (df !! r).
Qed.

Lemma black_friday_cell (df : DataFrame) (r : nat) (row : Row) :
  df !! r = Some row ->
  cell (add_is_black_friday df) r "is_black_friday"
  = Some (if isin black_friday_dates (transaction_date row)
          then Fin 1 else Fin 0).
Proof.
  intros Hr. unfold add_is_black_friday, set_scalar.
  destruct (loc_assign_lookup (fun _ => true) "is_black_friday" (Fin 0)
              df r row Hr) as (row0 & Hr0 & (_ & Hd & _) & Hf).
  rewrite (cell_loc_assign _ _ _ _ r row0 Hr0), <- Hd, Hf.
  by destruct (isin black_friday_dates (transaction_date row)).
Qed.

Lemma cell_after_flags (ln1p : Q -> Q) (df : DataFrame) (r : nat)
    (s : string) :
  s ≠ "is_black_friday" -> s ≠ "is_summer_solstice" ->
  cell (log1p_target ln1p (add_is_summer_solstice (add_is_black_friday df)))
       r s
  = cell df r s.
Proof.
  intros H1 H2. rewrite cell_log1p_target.
  unfold add_is_summer_solstice, add_is_black_friday, set_scalar.
  by rewrite !cell_loc_assign_ne.
Qed.

Lemma noise_at_advanced (rs : RandomState) (j k n r : nat) :
  noise_at (Nat.iter j (advance n) rs) k n r = noise_at rs (j + k) n r.
Proof.
  rewrite advance_iter. unfold noise_at. cbn. do 2 f_equal. lia.
Qed.

Lemma group_value_base (g : list float64 -> list float64) (df df' : DataFrame)
    (r : nat) (m : Z) :
  Forall2 same_base df df' ->
  group_value g df' m (group_pos df' r m) = group_value g df m (group_pos df r m).
Proof.
  intros H. unfold group_value.
  by rewrite (group_series_base m df df' H), (group_pos_base m r df df' H).
Qed.

(** X8: the script runs to the split on every frame, drawing one noise
    vector per lag and then one per window and nothing else from the
    generator.  In the frame it splits, every feature still holds what its
    builder computed from the raw (untransformed) targets of the row's
    merchant: later steps overwrite no earlier column, the rolling means
    take their noise from draws after those of the lags, and the two
    calendar flags mark the listed dates. *)
Theorem prepare_keeps_every_feature (ln1p : Q -> Q) (df : DataFrame)
    (rs : RandomState) (r : nat) (row : Row) :
  df !! r = Some row ->
  let m := merchant_id row in
  let i := group_pos df r m in
  let n := length df in
  ∃ out : DataFrame,
    prepare ln1p df rs
    = Returns ((train out, val out),
               mkRandomState (draws rs)
                 (pos rs + (length lag_spec + length roll_windows) * n))
    ∧ (∀ k L, lag_spec !! k = Some L ->
         (∀ k', k < k' -> lag_spec !! k' ≠ Some L) ->
         cell out r (lag_name L)
         = Some (fadd (group_value (shift L) df m i)
                      (Fin (noise_at rs k n r))))
    ∧ (∀ k W, roll_windows !! k = Some W ->
         (∀ k', k < k' -> roll_windows !! k' ≠ Some W) ->
         cell out r (roll_name W)
         = Some (fadd (group_value (roll_transform W) df m i)
                      (Fin (noise_at rs (length lag_spec + k) n r))))
    ∧ (∀ a L, a ∈ alphas -> L ∈ lags ->
         cell out r (ewm_name a L)
         = Some (group_value (ewm_transform (fval a) L) df m i))
    ∧ cell out r "is_black_friday"
      = Some (if isin black_friday_dates (transaction_date row)
              then Fin 1 else Fin 0)
    ∧ cell out r "is_summer_solstice"
      = Some (if isin summer_solstice_dates (transaction_date row)
              then Fin 1 else Fin 0).
Proof.
  intros Hr m i n.
  destruct (lag_features_cells df lag_spec rs)
    as (d1 & Hrun1 & Hb1 & Hlast1 & _).
  set (rs1 := Nat.iter (length lag_spec) (advance (length df)) rs) in *.
  destruct (roll_mean_features_cells d1 roll_windows rs1 script_windows_valid)
    as (d2 & Hrun2 & Hb2 & Hlast2 & Hframe2).
  set (rs2 := Nat.iter (length roll_windows) (advance (length d1)) rs1) in *.
  destruct (ewm_features_cells d2 alphas lags rs2 script_alphas_valid)
    as (d3 & Hrun3 & Hb3 & Hlast3 & Hframe3).
  pose proof (Forall2_length _ _ _ Hb1) as Hlen1.
  destruct (Forall2_lookup_l _ _ _ _ _ Hb1 Hr) as (row1 & Hr1 & Hm1 & _).
  assert (Forall2 same_base df d2) as Hb12 by (by etransitivity).
  destruct (Forall2_lookup_l _ _ _ _ _ Hb12 Hr) as (row2 & Hr2 & Hm2 & Hd2 & _).
  assert (Forall2 same_base df d3) as Hb13 by (by etransitivity).
  destruct (Forall2_lookup_l _ _ _ _ _ Hb13 Hr) as (row3 & Hr3 & Hm3 & Hd3 & _).
  exists (log1p_target ln1p (add_is_summer_solstice (add_is_black_friday d3))).
  split; [|split; [|split; [|split; [|split]]]].
  - unfold prepare, mbind, M_bind. rewrite Hrun1, Hrun2, Hrun3.
    subst rs2 rs1. rewrite <- Hlen1, !advance_iter.
    unfold mret, M_ret. cbn [draws pos]. do 3 f_equal. fold n. lia.
  - intros k L Hk Hlater.
    rewrite cell_after_flags by (intros H; discriminate H).
    rewrite Hframe3 by (intros p _; apply lag_name_not_ewm_name).
    rewrite Hframe2
      by (intros W _ H; by apply (lag_name_not_roll_name L W)).
    apply Hlast1; [|done].
    by apply last_writer_of_last_occurrence; [apply _|..].
  - intros k W Hk Hlater.
    rewrite cell_after_flags by (intros H; discriminate H).
    rewrite Hframe3 by (intros p _; apply roll_name_not_ewm_name).
    rewrite (Hlast2 k W r row1)
      by (try done; by apply last_writer_of_last_occurrence; [apply _|..]).
    subst rs1. rewrite <- Hlen1, noise_at_advanced, <- Hm1.
    by rewrite (group_value_base _ df d1 r _ Hb1).
  - intros a L Ha HL.
    rewrite cell_after_flags by (intros H; discriminate H).
    destruct (ewm_cell_value d2 alphas lags rs2 a L r row2 Ha HL
                script_alphas_valid script_ewm_names_distinct Hr2)
      as (d3' & Hrun3' & _ & Hcell).
    rewrite Hrun3 in Hrun3'. injection Hrun3' as <-.
    rewrite Hcell, <- Hm2. by rewrite (group_value_base _ df d2 r _ Hb12).
  - rewrite cell_log1p_target.
    unfold add_is_summer_solstice, set_scalar.
    rewrite !cell_loc_assign_ne by (intros H; discriminate H).
    by rewrite (black_friday_cell d3 r row3 Hr3), Hd3.
  - rewrite cell_log1p_target.
    destruct (Forall2_lookup_l _ _ _ _ _ (add_is_black_friday_base d3) Hr3)
      as (row4 & Hr4 & _ & Hd4 & _).
    by rewrite (solstice_cell _ r row4 Hr4), <- Hd4, Hd3.
Qed.

Lemma prepare_keeps_every_feature_witness :
  ∃ out : DataFrame,
    prepare (fun q => q) example_df example_rs
    = Returns ((train out, val out), mkRandomState (draws example_rs) 370)
    ∧ cell out 3 (roll_name 91)
      = Some (fadd (group_value (roll_transform 91) example_df 1 2)
                   (Fin (noise_at example_rs 54 5 3))).
Proof.
  destruct (prepare_keeps_every_feature (fun q => q) example_df example_rs 3
              (example_row 1 (ymd 2020 10 1) 12) eq_refl)
    as (out & Hrun & _ & Hroll & _).
  exists out. split; [exact Hrun|].
  apply (Hroll 0 91); [reflexivity|].
  assert (Forall (fun W => W ≠ 91) (drop 1 roll_windows)) as H by by_decide.
  intros [|k'] Hk' Hl; [lia|].
  by apply (proj1 (Forall_lookup _ _) H k' 91); [rewrite lookup_drop|].
Defined.

(** ** Date features *)

Example calendar_of_known_days :
  civil (ymd 2020 2 29) = (2020, 2, 29)%Z
  ∧ civil (ymd 2018 12 31) = (2018, 12, 31)%Z
  ∧ dt_dayofweek (ymd 2018 1 1) = 0%Z
  ∧ dt_dayofweek (ymd 2020 10 2) = 4%Z
  ∧ dt_dayofyear (ymd 2020 12 31) = 366%Z
  ∧ dt_weekofyear (ymd 2018 1 1) = 1%Z
  ∧ dt_weekofyear (ymd 2018 12 31) = 1%Z
  ∧ dt_weekofyear (ymd 2020 12 31) = 53%Z
  ∧ dt_weekofyear (ymd 2021 1 1) = 53%Z
  ∧ dt_weekofyear (ymd 2019 12 29) = 52%Z
  ∧ dt_quarter (ymd 2020 10 1) = 4%Z.
Proof. repeat split. Qed.


(** One full cycle of the Gregorian calendar, 146097 days from day 0. *)
Lemma calendar_cycle_checked :
  all_days (Z.to_nat 146097) 0 (date_parts 0) calendar_ok = true.
Proof. vm_compute. reflexivity. Qed.

Lemma all_days_spec
    (P : Z -> Z * Z * Z * Z * Z -> Z * Z * Z * Z * Z -> bool) (fuel : nat) :
  ∀ z x : Z,
  all_days fuel z (date_parts z) P = true ->
  (z <= x < z + Z.of_nat fuel)%Z ->
  P x (date_parts x) (date_parts (x + 1)) = true.
Proof.
  induction fuel as [|fuel IH]; intros z x H Hx; [lia|].
  cbn [all_days] in H. apply andb_true_iff in H as [Hz H].
  destruct (decide (x = z)) as [->|Hne]; [done|].
  apply (IH (z + 1)%Z); [done | lia].
Qed.

Lemma civil_parts (z : Z) : civil z = (dt_year z, dt_month z, dt_day z).
Proof. reflexivity. Qed.

Lemma date_parts_spec (z : Z) :
  date_parts z
  = (dt_year z, dt_month z, dt_day z, dt_dayofyear z, dt_weekofyear z).
Proof. unfold date_parts. by rewrite civil_parts. Qed.

Lemma calendar_facts_of_ok (z : Z) :
  calendar_ok z (date_parts z) (date_parts (z + 1)) = true ->
  calendar_facts z.
Proof.
  rewrite !date_parts_spec. unfold calendar_ok, calendar_facts.
  cbv zeta. rewrite (civil_parts (z + 1)).
  destruct (next_day _ _ _) as [[y1 m1] d1].
  intros H.
  apply andb_true_iff in H as [H H16].
  apply andb_true_iff in H as [H H15].
  apply andb_true_iff in H as [H H14].
  apply andb_true_iff in H as [H H13].
  apply andb_true_iff in H as [H H12].
  apply andb_true_iff in H as [H H11].
  apply andb_true_iff in H as [H H10].
  apply andb_true_iff in H as [H H9].
  apply andb_true_iff in H as [H H8].
  apply andb_true_iff in H as [H H7].
  apply andb_true_iff in H as [H H6].
  apply andb_true_iff in H as [H H5].
  apply andb_true_iff in H as [H H4].
  apply andb_true_iff in H as [H H3].
  apply andb_true_iff in H as [H1 H2].
  apply Z.eqb_eq in H1, H8, H9, H10.
  apply Z.leb_le in H2, H3, H4, H5, H6, H7, H13, H14.
  apply Bool.eqb_prop in H11, H12.
  split; [done|]. split; [done|]. split; [done|]. split; [done|].
  split. { by rewrite H8, H9, H10. }
  split. { by rewrite <- !Z.eqb_eq, <- !andb_true_iff, H11. }
  split. { by rewrite <- !Z.eqb_eq, <- !andb_true_iff, H12. }
  split; [done|].
  split; [|split].
  - intros Hd. apply Z.eqb_neq in Hd. rewrite Hd in H15.
    by apply Z.eqb_eq.
  - intros Hd. apply Z.eqb_eq in Hd. rewrite Hd in H15.
    apply orb_true_iff in H15. by rewrite <- !Z.eqb_eq.
  - intros [Hm Hd]. apply Z.eqb_eq in Hm, Hd. rewrite Hm, Hd in H16.
    by apply Z.eqb_eq.
Qed.

Local Open Scope Z_scope.

Lemma civil_period (z e : Z) :
  civil (z + 146097 * e) = (dt_year z + 400 * e, dt_month z, dt_day z).
Proof.
  unfold dt_year, dt_month, dt_day, civil.
  replace (z + 146097 * e + 719468) with (z + 719468 + e * 146097) by lia.
  rewrite Z.div_add by lia.
  set (z' := z + 719468).
  replace (z' + e * 146097 - (z' / 146097 + e) * 146097)
    with (z' - z' / 146097 * 146097) by lia.
  cbn [fst snd]. f_equal. f_equal. ring.
Qed.

Lemma ymd_period (y m d e : Z) :
  ymd (y + 400 * e) m d = ymd y m d + 146097 * e.
Proof.
  unfold ymd.
  replace ((if m <=? 2 then y + 400 * e - 1 else y + 400 * e))
    with ((if m <=? 2 then y - 1 else y) + e * 400)
    by (destruct (m <=? 2); lia).
  set (y' := if m <=? 2 then y - 1 else y).
  rewrite Z.div_add by lia.
  replace (y' + e * 400 - (y' / 400 + e) * 400) with (y' - y' / 400 * 400)
    by lia.
  ring.
Qed.

Lemma is_leapyear_period (y e : Z) :
  is_leapyear (y + 400 * e) = is_leapyear y.
Proof.
  unfold is_leapyear.
  replace (y + 400 * e) with (y + (100 * e) * 4) at 1 by lia.
  replace (y + 400 * e) with (y + (4 * e) * 100) at 1 by lia.
  replace (y + 400 * e) with (y + e * 400) by lia.
  by rewrite !Z.mod_add by lia.
Qed.

Lemma days_in_month_period (y m e : Z) :
  days_in_month (y + 400 * e) m = days_in_month y m.
Proof. unfold days_in_month. by rewrite is_leapyear_period. Qed.

Lemma dt_parts_period (z e : Z) :
  dt_year (z + 146097 * e) = dt_year z + 400 * e
  ∧ dt_month (z + 146097 * e) = dt_month z
  ∧ dt_day (z + 146097 * e) = dt_day z.
Proof.
  pose proof (civil_period z e) as H. rewrite civil_parts in H.
  by injection H.
Qed.

Lemma dt_dayofweek_period (z e : Z) :
  dt_dayofweek (z + 146097 * e) = dt_dayofweek z.
Proof.
  unfold dt_dayofweek.
  replace (z + 146097 * e + 3) with (z + 3 + (20871 * e) * 7) by lia.
  by rewrite Z.mod_add by lia.
Qed.

Lemma dt_dayofyear_period (z e : Z) :
  dt_dayofyear (z + 146097 * e) = dt_dayofyear z.
Proof.
  unfold dt_dayofyear. destruct (dt_parts_period z e) as (-> & _).
  rewrite ymd_period. lia.
Qed.

Lemma dt_weekofyear_period (z e : Z) :
  dt_weekofyear (z + 146097 * e) = dt_weekofyear z.
Proof.
  unfold dt_weekofyear.
  rewrite dt_dayofyear_period, dt_dayofweek_period.
  destruct (dt_parts_period z e) as (-> & _ & ->).
  replace (dt_year z + 400 * e - 1) with (dt_year z - 1 + 400 * e) by lia.
  by rewrite is_leapyear_period.
Qed.

Lemma next_day_period (y m d e : Z) :
  next_day (y + 400 * e) m d
  = ((next_day y m d).1.1 + 400 * e, (next_day y m d).1.2, (next_day y m d).2).
Proof.
  unfold next_day. rewrite days_in_month_period.
  destruct (d =? _); [destruct (m =? 12)|]; cbn; do 2 f_equal; lia.
Qed.

Lemma calendar_facts_period (z e : Z) :
  calendar_facts z -> calendar_facts (z + 146097 * e).
Proof.
  unfold calendar_facts. cbv zeta.
  replace (z + 146097 * e + 1) with (z + 1 + 146097 * e) by lia.
  rewrite !dt_weekofyear_period, !dt_dayofyear_period, !dt_dayofweek_period.
  rewrite civil_period.
  destruct (dt_parts_period z e) as (-> & -> & ->).
  rewrite !ymd_period, is_leapyear_period, days_in_month_period.
  rewrite next_day_period.
  intros (H1 & H2 & H3 & H4 & H5 & H).
  rewrite <- H5. cbn [fst snd].
  split; [lia|]. by repeat (split; [done|]).
Qed.

(** Every day number has the calendar facts. *)
Lemma calendar_facts_all (z : Z) : calendar_facts z.
Proof.
  rewrite (Z.div_mod z 146097) by lia.
  rewrite Z.add_comm. apply calendar_facts_period.
  apply calendar_facts_of_ok.
  apply (all_days_spec _ _ _ _ calendar_cycle_checked).
  rewrite Z2Nat.id by lia.
  pose proof (Z.mod_pos_bound z 146097). lia.
Qed.

Lemma set_date_column_map (name : string) (f : Z -> Z) (df : DataFrame) :
  set_date_column name f df = with_date_cell name f <$> df.
Proof.
  unfold set_date_column, set_column. apply list_eq. intros i.
  rewrite list_lookup_imap, !list_lookup_fmap.
  by destruct (df !! i).
Qed.

(** What each of the fourteen columns holds in a row. *)
Lemma date_cells (df : DataFrame) (r : nat) (row : Row) :
  df !! r = Some row ->
  let z := transaction_date row in
  let int_cell := int_cell (create_date_features df) r in
  int_cell "month" (dt_month z)
  ∧ int_cell "day_of_month" (dt_day z)
  ∧ int_cell "day_of_year" (dt_dayofyear z)
  ∧ int_cell "week_of_year" (dt_weekofyear z)
  ∧ int_cell "day_of_week" (dt_dayofweek z)
  ∧ int_cell "year" (dt_year z)
  ∧ int_cell "is_wknd" (dt_dayofweek z / 4)
  ∧ int_cell "is_month_start" (astype_int (dt_is_month_start z))
  ∧ int_cell "is_month_end" (astype_int (dt_is_month_end z))
  ∧ int_cell "quarter" (dt_quarter z)
  ∧ int_cell "is_quarter_start" (astype_int (dt_is_quarter_start z))
  ∧ int_cell "is_quarter_end" (astype_int (dt_is_quarter_end z))
  ∧ int_cell "is_year_start" (astype_int (dt_is_year_start z))
  ∧ int_cell "is_year_end" (astype_int (dt_is_year_end z)).
Proof.
  intros Hr z ic. unfold ic, int_cell, create_date_features, cell.
  rewrite !set_date_column_map, !list_lookup_fmap, Hr.
  unfold with_date_cell.
  cbn [fmap option_fmap option_map mbind option_bind features
       transaction_date].
  fold z.
  repeat split;
    repeat (rewrite lookup_insert_ne by done); apply lookup_insert_eq.
Qed.

Lemma dt_next (z : Z) :
  (dt_year (z + 1), dt_month (z + 1), dt_day (z + 1))
  = next_day (dt_year z) (dt_month z) (dt_day z).
Proof.
  destruct (calendar_facts_all z) as (_ & _ & _ & _ & H & _).
  by rewrite <- H.
Qed.

Lemma days_in_month_12 (y : Z) : days_in_month y 12 = 31.
Proof. reflexivity. Qed.

Lemma flags_step (z : Z) :
  dt_is_month_end z = dt_is_month_start (z + 1)
  ∧ dt_is_quarter_end z = dt_is_quarter_start (z + 1)
  ∧ dt_is_year_end z = dt_is_year_start (z + 1).
Proof.
  destruct (calendar_facts_all z) as (_ & Hm & Hd & _).
  pose proof (dt_next z) as Hn. cbv zeta in Hm, Hd.
  unfold dt_is_month_end, dt_is_month_start, dt_is_quarter_end,
    dt_is_quarter_start, dt_is_year_end, dt_is_year_start.
  revert Hn Hm Hd.
  generalize (dt_year z), (dt_month z), (dt_day z), (dt_year (z + 1)),
    (dt_month (z + 1)), (dt_day (z + 1)).
  intros y m d y' m' d'. unfold next_day.
  destruct (Z.eqb_spec d (days_in_month y m)) as [Hdim|Hdim].
  - destruct (Z.eqb_spec m 12) as [->|Hm12]; intros [= -> -> ->] Hm Hd.
    + done.
    + replace (m + 1 - 1) with (m - 12 + 4 * 3) by lia.
      rewrite Z.mod_add by lia. cbn.
      rewrite !andb_true_r. split; [done|]. split; [done|].
      symmetry. apply Z.eqb_neq. lia.
  - intros [= -> -> ->] Hm Hd.
    replace (d + 1 =? 1) with false by (symmetry; apply Z.eqb_neq; lia).
    by rewrite !andb_false_r.
Qed.

Lemma dt_dayofyear_step (z : Z) :
  dt_dayofyear (z + 1)
  = if decide (dt_dayofyear z = if is_leapyear (dt_year z) then 366 else 365)
    then 1 else dt_dayofyear z + 1.
Proof.
  destruct (calendar_facts_all z) as (_ & Hm & Hd & _ & _ & _ & Hlast & _).
  destruct (calendar_facts_all (z + 1)) as (_ & _ & _ & _ & _ & Hfirst & _).
  pose proof (dt_next z) as Hn. cbv zeta in Hm, Hd, Hlast, Hfirst.
  unfold next_day in Hn.
  destruct (decide _) as [Hl|Hl].
  - apply Hlast in Hl as [Hm12 Hd31]. rewrite Hm12, Hd31 in Hn.
    cbn in Hn. injection Hn as _ Hm' Hd'. by apply Hfirst.
  - assert (dt_year (z + 1) = dt_year z) as Hy.
    { destruct (Z.eqb_spec (dt_day z) (days_in_month (dt_year z) (dt_month z)))
        as [Hdim|Hdim]; [|by injection Hn].
      destruct (Z.eqb_spec (dt_month z) 12) as [Hm12|Hm12]; [|by injection Hn].
      exfalso. apply Hl, Hlast. split; [done|].
      by rewrite Hdim, Hm12, days_in_month_12. }
    unfold dt_dayofyear. rewrite Hy. lia.
Qed.

Lemma astype_int_decide (b : bool) (P : Prop) `{!Decision P} :
  (b = true <-> P) -> astype_int b = if decide P then 1 else 0.
Proof.
  intros H. destruct b, (decide P) as [HP|HP]; try done.
  - exfalso. by apply HP, H.
  - by apply H in HP.
Qed.

(** X9: [create_date_features] numbers the weekdays from Monday = 0 to
    Sunday = 6 in [day_of_week] (a row's date is that many days after a
    Monday; 2020-10-05 is one), and [is_wknd], the weekday floor-divided
    by 4, is 1 from Friday to Sunday and 0 from Monday to Thursday: Friday
    counts as weekend. *)
Theorem is_wknd_marks_friday_to_sunday (df : DataFrame) (r : nat)
    (row : Row) :
  df !! r = Some row ->
  ∃ w : Z,
    cell (create_date_features df) r "day_of_week" = Some (Fin (inject_Z w))
    ∧ 0 <= w <= 6
    ∧ (transaction_date row - ymd 2020 10 5 - w) mod 7 = 0
    ∧ cell (create_date_features df) r "is_wknd"
      = Some (Fin (if decide (4 <= w) then 1%Q else 0%Q)).
Proof.
  intros Hr. pose proof (date_cells df r row Hr) as H. cbv zeta in H.
  destruct H as (_ & _ & _ & _ & Hdow & _ & Hwk & _).
  exists (dt_dayofweek (transaction_date row)).
  split; [done|]. rewrite Hwk. unfold dt_dayofweek.
  assert (ymd 2020 10 5 = 18540) as -> by reflexivity.
  set (z := transaction_date row).
  split; [|split].
  - pose proof (Z.mod_pos_bound (z + 3) 7). lia.
  - Z.div_mod_to_equations. lia.
  - do 2 f_equal. destruct (decide _) as [Hw|Hw].
    + replace ((z + 3) mod 7 / 4) with 1; [done|].
      Z.div_mod_to_equations. lia.
    + replace ((z + 3) mod 7 / 4) with 0; [done|].
      Z.div_mod_to_equations. lia.
Qed.

Lemma is_wknd_marks_friday_to_sunday_witness :
  ∃ w : Z,
    cell (create_date_features example_df) 3 "day_of_week"
    = Some (Fin (inject_Z w))
    ∧ 0 <= w <= 6
    ∧ (ymd 2020 10 1 - ymd 2020 10 5 - w) mod 7 = 0
    ∧ cell (create_date_features example_df) 3 "is_wknd"
      = Some (Fin (if decide (4 <= w) then 1%Q else 0%Q)).
Proof.
  exact (is_wknd_marks_friday_to_sunday example_df 3
           (example_row 1 (ymd 2020 10 1) 12) eq_refl).
Defined.

(** X10: the [year], [month] and [day_of_month] columns of
    [create_date_features] hold a proper calendar date, the month between
    1 and 12 and the day between 1 and the length of that month, and that
    date is the row's [transaction_date]; [quarter] holds the quarter of
    that month, months [3q - 2] to [3q] for quarter [q] of 1 to 4. *)
Theorem date_columns_give_back_the_date (df : DataFrame) (r : nat)
    (row : Row) :
  df !! r = Some row ->
  ∃ y m d q : Z,
    cell (create_date_features df) r "year" = Some (Fin (inject_Z y))
    ∧ cell (create_date_features df) r "month" = Some (Fin (inject_Z m))
    ∧ cell (create_date_features df) r "day_of_month"
      = Some (Fin (inject_Z d))
    ∧ cell (create_date_features df) r "quarter" = Some (Fin (inject_Z q))
    ∧ 1 <= m <= 12
    ∧ 1 <= d <= days_in_month y m
    ∧ ymd y m d = transaction_date row
    ∧ 1 <= q <= 4
    ∧ 3 * q - 2 <= m <= 3 * q.
Proof.
  intros Hr. pose proof (date_cells df r row Hr) as H. cbv zeta in H.
  destruct H as (Hmonth & Hday & _ & _ & _ & Hyear & _ & _ & _ & Hq & _).
  destruct (calendar_facts_all (transaction_date row))
    as (Hymd & Hm & Hd & _).
  cbv zeta in Hymd, Hm, Hd.
  eexists _, _, _, _.
  split; [exact Hyear|]. split; [exact Hmonth|]. split; [exact Hday|].
  split; [exact Hq|]. split; [done|]. split; [done|]. split; [done|].
  unfold dt_quarter. split; Z.div_mod_to_equations; lia.
Qed.

Lemma date_columns_give_back_the_date_witness :
  ∃ y m d q : Z,
    cell (create_date_features example_df) 3 "year" = Some (Fin (inject_Z y))
    ∧ cell (create_date_features example_df) 3 "month"
      = Some (Fin (inject_Z m))
    ∧ cell (create_date_features example_df) 3 "day_of_month"
      = Some (Fin (inject_Z d))
    ∧ cell (create_date_features example_df) 3 "quarter"
      = Some (Fin (inject_Z q))
    ∧ 1 <= m <= 12
    ∧ 1 <= d <= days_in_month y m
    ∧ ymd y m d = ymd 2020 10 1
    ∧ 1 <= q <= 4
    ∧ 3 * q - 2 <= m <= 3 * q.
Proof.
  exact (date_columns_give_back_the_date example_df 3
           (example_row 1 (ymd 2020 10 1) 12) eq_refl).
Defined.

(** X11: for two rows of the frame whose dates are one day apart,
    [create_date_features] gives the later row the calendar date that
    follows the earlier row's ([next_day]: the next day of the month, or
    the first of the next month, or January 1 of the next year), and the
    earlier row's [is_month_end], [is_quarter_end] and [is_year_end] are
    the later row's [is_month_start], [is_quarter_start] and
    [is_year_start]. *)
Theorem next_row_has_the_next_date (df : DataFrame) (r r' : nat)
    (row row' : Row) :
  df !! r = Some row -> df !! r' = Some row' ->
  transaction_date row' = transaction_date row + 1 ->
  let out := create_date_features df in
  (∃ y m d y' m' d' : Z,
     cell out r "year" = Some (Fin (inject_Z y))
     ∧ cell out r "month" = Some (Fin (inject_Z m))
     ∧ cell out r "day_of_month" = Some (Fin (inject_Z d))
     ∧ cell out r' "year" = Some (Fin (inject_Z y'))
     ∧ cell out r' "month" = Some (Fin (inject_Z m'))
     ∧ cell out r' "day_of_month" = Some (Fin (inject_Z d'))
     ∧ (y', m', d') = next_day y m d)
  ∧ cell out r "is_month_end" = cell out r' "is_month_start"
  ∧ cell out r "is_quarter_end" = cell out r' "is_quarter_start"
  ∧ cell out r "is_year_end" = cell out r' "is_year_start".
Proof.
  intros Hr Hr' Hnext out.
  pose proof (date_cells df r row Hr) as H. cbv zeta in H.
  destruct H as (Hmonth & Hday & _ & _ & _ & Hyear & _ & _ & Hme & _ & _
                 & Hqe & _ & Hye).
  pose proof (date_cells df r' row' Hr') as H. cbv zeta in H.
  destruct H as (Hmonth' & Hday' & _ & _ & _ & Hyear' & _ & Hms & _ & _
                 & Hqs & _ & Hys & _).
  rewrite Hnext in *.
  destruct (flags_step (transaction_date row)) as (Em & Eq & Ey).
  split.
  { eexists _, _, _, _, _, _. repeat (split; [eassumption|]).
    apply dt_next. }
  unfold out.
  by rewrite Hme, Hms, Hqe, Hqs, Hye, Hys, Em, Eq, Ey.
Qed.

Lemma next_row_has_the_next_date_witness :
  (∃ y m d y' m' d' : Z,
     cell (create_date_features example_df) 2 "year"
     = Some (Fin (inject_Z y))
     ∧ cell (create_date_features example_df) 2 "month"
       = Some (Fin (inject_Z m))
     ∧ cell (create_date_features example_df) 2 "day_of_month"
       = Some (Fin (inject_Z d))
     ∧ cell (create_date_features example_df) 3 "year"
       = Some (Fin (inject_Z y'))
     ∧ cell (create_date_features example_df) 3 "month"
       = Some (Fin (inject_Z m'))
     ∧ cell (create_date_features example_df) 3 "day_of_month"
       = Some (Fin (inject_Z d'))
     ∧ (y', m', d') = next_day y m d)
  ∧ cell (create_date_features example_df) 2 "is_month_end"
    = cell (create_date_features example_df) 3 "is_month_start"
  ∧ cell (create_date_features example_df) 2 "is_quarter_end"
    = cell (create_date_features example_df) 3 "is_quarter_start"
  ∧ cell (create_date_features example_df) 2 "is_year_end"
    = cell (create_date_features example_df) 3 "is_year_start".
Proof.
  exact (next_row_has_the_next_date example_df 2 3
           (example_row 1 (ymd 2020 9 30) 11)
           (example_row 1 (ymd 2020 10 1) 12) eq_refl eq_refl eq_refl).
Defined.

(** X12: in a row of [create_date_features], [day_of_year] counts the
    days of the row's year from 1 on January 1 to 365 on December 31, 366
    in a leap year, and [week_of_year] is a week number from 1 to 53 that
    is 1 on January 4. *)
Theorem day_and_week_of_year_in_range (df : DataFrame) (r : nat)
    (row : Row) :
  df !! r = Some row ->
  ∃ y m d doy w : Z,
    int_cell (create_date_features df) r "year" y
    ∧ int_cell (create_date_features df) r "month" m
    ∧ int_cell (create_date_features df) r "day_of_month" d
    ∧ int_cell (create_date_features df) r "day_of_year" doy
    ∧ int_cell (create_date_features df) r "week_of_year" w
    ∧ 1 <= doy <= days_in_year y
    ∧ (doy = 1 <-> m = 1 ∧ d = 1)
    ∧ (doy = days_in_year y <-> m = 12 ∧ d = 31)
    ∧ 1 <= w <= 53
    ∧ (m = 1 ∧ d = 4 -> w = 1).
Proof.
  intros Hr. pose proof (date_cells df r row Hr) as H. cbv zeta in H.
  destruct H as (Hmonth & Hday & Hdoy & Hwoy & _ & Hyear & _).
  destruct (calendar_facts_all (transaction_date row))
    as (_ & _ & _ & Hrange & _ & Hfirst & Hlast & Hw & _ & _ & Hjan4).
  eexists _, _, _, _, _.
  split; [exact Hyear|]. split; [exact Hmonth|]. split; [exact Hday|].
  split; [exact Hdoy|]. split; [exact Hwoy|]. done.
Qed.

Lemma day_and_week_of_year_in_range_witness :
  ∃ y m d doy w : Z,
    int_cell (create_date_features example_df) 3 "year" y
    ∧ int_cell (create_date_features example_df) 3 "month" m
    ∧ int_cell (create_date_features example_df) 3 "day_of_month" d
    ∧ int_cell (create_date_features example_df) 3 "day_of_year" doy
    ∧ int_cell (create_date_features example_df) 3 "week_of_year" w
    ∧ 1 <= doy <= days_in_year y
    ∧ (doy = 1 <-> m = 1 ∧ d = 1)
    ∧ (doy = days_in_year y <-> m = 12 ∧ d = 31)
    ∧ 1 <= w <= 53
    ∧ (m = 1 ∧ d = 4 -> w = 1).
Proof.
  exact (day_and_week_of_year_in_range example_df 3
           (example_row 1 (ymd 2020 10 1) 12) eq_refl).
Defined.

(** X13: the six start and end flags of [create_date_features] are 0 or 1
    and agree with the other columns of the row: [is_month_start] is 1 on
    day 1 of the month and [is_month_end] on its last day,
    [is_quarter_start] on day 1 of the first month of the row's quarter
    and [is_quarter_end] on the last day of its third month,
    [is_year_start] where [day_of_year] is 1 and [is_year_end] where
    [day_of_year] is the length of the year. *)
Theorem period_flags_agree_with_the_counters (df : DataFrame) (r : nat)
    (row : Row) :
  df !! r = Some row ->
  ∃ y m d q doy : Z,
    int_cell (create_date_features df) r "year" y
    ∧ int_cell (create_date_features df) r "month" m
    ∧ int_cell (create_date_features df) r "day_of_month" d
    ∧ int_cell (create_date_features df) r "quarter" q
    ∧ int_cell (create_date_features df) r "day_of_year" doy
    ∧ int_cell (create_date_features df) r "is_month_start"
        (if decide (d = 1) then 1 else 0)
    ∧ int_cell (create_date_features df) r "is_month_end"
        (if decide (d = days_in_month y m) then 1 else 0)
    ∧ int_cell (create_date_features df) r "is_quarter_start"
        (if decide (m = 3 * q - 2 ∧ d = 1) then 1 else 0)
    ∧ int_cell (create_date_features df) r "is_quarter_end"
        (if decide (m = 3 * q ∧ d = days_in_month y m) then 1 else 0)
    ∧ int_cell (create_date_features df) r "is_year_start"
        (if decide (doy = 1) then 1 else 0)
    ∧ int_cell (create_date_features df) r "is_year_end"
        (if decide (doy = days_in_year y) then 1 else 0).
Proof.
  intros Hr. pose proof (date_cells df r row Hr) as H. cbv zeta in H.
  destruct H as (Hmonth & Hday & Hdoy & _ & _ & Hyear & _ & Hms & Hme & Hq
                 & Hqs & Hqe & Hys & Hye).
  destruct (calendar_facts_all (transaction_date row))
    as (_ & Hm & _ & _ & _ & Hfirst & Hlast & _).
  cbv zeta in Hm, Hfirst, Hlast. fold (days_in_year (dt_year (transaction_date row))) in Hlast.
  eexists _, _, _, _, _.
  split; [exact Hyear|]. split; [exact Hmonth|]. split; [exact Hday|].
  split; [exact Hq|]. split; [exact Hdoy|].
  set (z := transaction_date row) in *.
  split; [|split; [|split; [|split; [|split]]]].
  - rewrite <- (astype_int_decide (dt_is_month_start z)); [done|].
    apply Z.eqb_eq.
  - rewrite <- (astype_int_decide (dt_is_month_end z)); [done|].
    apply Z.eqb_eq.
  - rewrite <- (astype_int_decide (dt_is_quarter_start z)); [done|].
    unfold dt_is_quarter_start, dt_quarter.
    rewrite andb_true_iff, !Z.eqb_eq.
    split; intros [? ?]; (split; [|done]); Z.div_mod_to_equations; lia.
  - rewrite <- (astype_int_decide (dt_is_quarter_end z)); [done|].
    unfold dt_is_quarter_end, dt_quarter.
    rewrite andb_true_iff, !Z.eqb_eq.
    split; intros [? ?]; (split; [|done]); Z.div_mod_to_equations; lia.
  - rewrite <- (astype_int_decide (dt_is_year_start z)); [done|].
    unfold dt_is_year_start. rewrite andb_true_iff, !Z.eqb_eq.
    by rewrite Hfirst.
  - rewrite <- (astype_int_decide (dt_is_year_end z)); [done|].
    unfold dt_is_year_end. rewrite andb_true_iff, !Z.eqb_eq, Hlast.
    split; intros [Hm12 Hd]; (split; [done|]);
      by rewrite Hd, Hm12, ?days_in_month_12.
Qed.

Lemma period_flags_agree_with_the_counters_witness :
  ∃ y m d q doy : Z,
    int_cell (create_date_features example_df) 3 "year" y
    ∧ int_cell (create_date_features example_df) 3 "month" m
    ∧ int_cell (create_date_features example_df) 3 "day_of_month" d
    ∧ int_cell (create_date_features example_df) 3 "quarter" q
    ∧ int_cell (create_date_features example_df) 3 "day_of_year" doy
    ∧ int_cell (create_date_features example_df) 3 "is_month_start"
        (if decide (d = 1) then 1 else 0)
    ∧ int_cell (create_date_features example_df) 3 "is_month_end"
        (if decide (d = days_in_month y m) then 1 else 0)
    ∧ int_cell (create_date_features example_df) 3 "is_quarter_start"
        (if decide (m = 3 * q - 2 ∧ d = 1) then 1 else 0)
    ∧ int_cell (create_date_features example_df) 3 "is_quarter_end"
        (if decide (m = 3 * q ∧ d = days_in_month y m) then 1 else 0)
    ∧ int_cell (create_date_features example_df) 3 "is_year_start"
        (if decide (doy = 1) then 1 else 0)
    ∧ int_cell (create_date_features example_df) 3 "is_year_end"
        (if decide (doy = days_in_year y) then 1 else 0).
Proof.
  exact (period_flags_agree_with_the_counters example_df 3
           (example_row 1 (ymd 2020 10 1) 12) eq_refl).
Defined.

(** X14: for two rows of the frame whose dates are one day apart, the
    counters of [create_date_features] step with the calendar:
    [day_of_week] goes to the next weekday, Sunday to Monday;
    [day_of_year] goes up by one, or from the last day of the year back to
    1; [week_of_year] stays the same unless the later row is a Monday,
    where it goes up by one or back to 1. *)
Theorem counters_step_with_the_calendar (df : DataFrame) (r r' : nat)
    (row row' : Row) :
  df !! r = Some row -> df !! r' = Some row' ->
  transaction_date row' = transaction_date row + 1 ->
  ∃ y dow doy w dow' doy' w' : Z,
    int_cell (create_date_features df) r "year" y
    ∧ int_cell (create_date_features df) r "day_of_week" dow
    ∧ int_cell (create_date_features df) r "day_of_year" doy
    ∧ int_cell (create_date_features df) r "week_of_year" w
    ∧ int_cell (create_date_features df) r' "day_of_week" dow'
    ∧ int_cell (create_date_features df) r' "day_of_year" doy'
    ∧ int_cell (create_date_features df) r' "week_of_year" w'
    ∧ dow' = (dow + 1) mod 7
    ∧ doy' = (if decide (doy = days_in_year y) then 1 else doy + 1)
    ∧ (dow' ≠ 0 -> w' = w)
    ∧ (dow' = 0 -> w' = w + 1 ∨ w' = 1).
Proof.
  intros Hr Hr' Hnext.
  pose proof (date_cells df r row Hr) as H. cbv zeta in H.
  destruct H as (_ & _ & Hdoy & Hwoy & Hdow & Hyear & _).
  pose proof (date_cells df r' row' Hr') as H. cbv zeta in H.
  destruct H as (_ & _ & Hdoy' & Hwoy' & Hdow' & _).
  rewrite Hnext in *.
  destruct (calendar_facts_all (transaction_date row))
    as (_ & _ & _ & _ & _ & _ & _ & _ & Hsame & Hmonday & _).
  eexists _, _, _, _, _, _, _.
  split; [exact Hyear|]. split; [exact Hdow|]. split; [exact Hdoy|].
  split; [exact Hwoy|]. split; [exact Hdow'|]. split; [exact Hdoy'|].
  split; [exact Hwoy'|].
  split; [|split; [|done]].
  - unfold dt_dayofweek. Z.div_mod_to_equations. lia.
  - apply dt_dayofyear_step.
Qed.

Lemma counters_step_with_the_calendar_witness :
  ∃ y dow doy w dow' doy' w' : Z,
    int_cell (create_date_features example_df) 2 "year" y
    ∧ int_cell (create_date_features example_df) 2 "day_of_week" dow
    ∧ int_cell (create_date_features example_df) 2 "day_of_year" doy
    ∧ int_cell (create_date_features example_df) 2 "week_of_year" w
    ∧ int_cell (create_date_features example_df) 3 "day_of_week" dow'
    ∧ int_cell (create_date_features example_df) 3 "day_of_year" doy'
    ∧ int_cell (create_date_features example_df) 3 "week_of_year" w'
    ∧ dow' = (dow + 1) mod 7
    ∧ doy' = (if decide (doy = days_in_year y) then 1 else doy + 1)
    ∧ (dow' ≠ 0 -> w' = w)
    ∧ (dow' = 0 -> w' = w + 1 ∨ w' = 1).
Proof.
  exact (counters_step_with_the_calendar example_df 2 3
           (example_row 1 (ymd 2020 9 30) 11)
           (example_row 1 (ymd 2020 10 1) 12) eq_refl eq_refl eq_refl).
Defined.

Local Close Scope Z_scope.

(** ** Column names *)

Lemma sanitize_app (a b : string) :
  sanitize (a +:+ b) = sanitize a +:+ sanitize b.
Proof.
  induction a as [|c a IH]; [done|].
  change (String c a +:+ b) with (String c (a +:+ b)).
  cbn [sanitize]. rewrite IH. by destruct (name_char c).
Qed.

Lemma name_char_pretty_N_char (x : N) : name_char (pretty_N_char x) = true.
Proof. unfold pretty_N_char. by repeat case_match. Qed.

Lemma sanitize_pretty_N_go (x : N) : ∀ s : string,
  sanitize (pretty_N_go x s) = pretty_N_go x (sanitize s).
Proof.
  induction (N.lt_wf_0 x) as [x _ IH]. intros s.
  assert (x = 0 ∨ 0 < x)%N as [->|Hx] by lia.
  - by rewrite !pretty_N_go_0.
  - rewrite (pretty_N_go_step x s), (pretty_N_go_step x (sanitize s)) by done.
    rewrite IH by (by apply N.div_lt).
    cbn [sanitize]. by rewrite name_char_pretty_N_char.
Qed.

Lemma sanitize_pretty_N (x : N) : sanitize (pretty x) = pretty x.
Proof.
  unfold pretty, pretty_N. case_decide; [done|].
  by rewrite sanitize_pretty_N_go.
Qed.

Lemma sanitize_pretty_nat (n : nat) : sanitize (pretty n) = pretty n.
Proof. apply sanitize_pretty_N. Qed.

Lemma sanitize_pretty_Z (v : Z) : sanitize (pretty v) = pretty (Z.abs v).
Proof.
  destruct v as [|v|v]; [done| |].
  - apply sanitize_pretty_N.
  - change (pretty (Z.neg v)) with ("-" +:+ pretty (N.pos v)).
    rewrite sanitize_app. apply sanitize_pretty_N.
Qed.

Lemma sanitize_idemp (x : string) : sanitize (sanitize x) = sanitize x.
Proof.
  induction x as [|c x IH]; [done|].
  cbn. destruct (name_char c) eqn:Hc; [|done]. cbn. by rewrite Hc, IH.
Qed.

Lemma sanitize_sublist (x : string) :
  sublist (String.list_ascii_of_string (sanitize x))
          (String.list_ascii_of_string x).
Proof.
  induction x as [|c x IH]; [done|].
  cbn. destruct (name_char c); cbn; by constructor.
Qed.

Lemma sanitize_chars (x : string) :
  Forall (fun c => name_char c = true)
         (String.list_ascii_of_string (sanitize x)).
Proof.
  induction x as [|c x IH]; [by constructor|].
  cbn. destruct (name_char c) eqn:Hc; [|done]. cbn. by constructor.
Qed.

Lemma sanitize_fixed (x : string) :
  sanitize x = x
  <-> Forall (fun c => name_char c = true) (String.list_ascii_of_string x).
Proof.
  split.
  - intros <-. apply sanitize_chars.
  - induction x as [|c x IH]; [done|].
    cbn. intros [Hc Hx]%Forall_cons. by rewrite Hc, IH.
Qed.

(** X15: the renaming of line 223, which deletes from every column name
    the characters other than letters, digits and the underscore, changes
    none of the names the script has given its columns: the data columns
    and the calendar indicators, the fourteen date features, the lag and
    rolling-mean columns of every lag and window, the exponentially
    weighted columns of the script's alphas (whose decimal point was
    already removed) and any lag, and the one-hot columns of levels from 0
    up.  A negative level's one-hot name loses its minus sign and becomes
    the name of the positive level. *)
Theorem rename_keeps_the_script_column_names :
  (∀ name : string,
     name ∈ base_and_flag_names ++ date_feature_names ->
     sanitize name = name)
  ∧ (∀ lag : nat, sanitize (lag_name lag) = lag_name lag)
  ∧ (∀ window : nat, sanitize (roll_name window) = roll_name window)
  ∧ (∀ (alpha : pyfloat) (lag : nat),
       alpha ∈ alphas -> sanitize (ewm_name alpha lag) = ewm_name alpha lag)
  ∧ (∀ (col : string) (v : Z),
       col ∈ dummy_columns ->
       sanitize (dummy_name col v) = dummy_name col (Z.abs v)).
Proof.
  split; [|split; [|split; [|split]]].
  - assert (Forall (fun name => sanitize name = name)
                   (base_and_flag_names ++ date_feature_names)) as H
      by (repeat constructor).
    intros name. apply (proj1 (Forall_forall _ _) H).
  - intros lag. unfold lag_name. by rewrite sanitize_app, sanitize_pretty_nat.
  - intros W. unfold roll_name. by rewrite sanitize_app, sanitize_pretty_nat.
  - intros alpha lag Ha. unfold ewm_name.
    rewrite !sanitize_app, sanitize_pretty_nat.
    assert (Forall (fun a => sanitize (replace_dot (fstr a))
                             = replace_dot (fstr a)) alphas) as H
      by (repeat constructor).
    by rewrite (proj1 (Forall_forall _ _) H alpha Ha).
  - intros col v Hcol. unfold dummy_name.
    rewrite !sanitize_app, sanitize_pretty_Z.
    assert (Forall (fun c => sanitize c = c) dummy_columns) as H
      by (repeat constructor).
    by rewrite (proj1 (Forall_forall _ _) H col Hcol).
Qed.

(** X16: what the renaming function of line 223 does to any name: the
    result is the name with some characters left out, it holds letters,
    digits and underscores only, renaming it again changes nothing, and a
    name comes back unchanged exactly when all its characters are of that
    kind. *)
Theorem sanitize_keeps_exactly_the_name_characters (x : string) :
  sublist (String.list_ascii_of_string (sanitize x))
          (String.list_ascii_of_string x)
  ∧ Forall (fun c => name_char c = true)
           (String.list_ascii_of_string (sanitize x))
  ∧ sanitize (sanitize x) = sanitize x
  ∧ (sanitize x = x
     <-> Forall (fun c => name_char c = true)
                (String.list_ascii_of_string x)).
Proof.
  split; [apply sanitize_sublist|]. split; [apply sanitize_chars|].
  split; [apply sanitize_idemp | apply sanitize_fixed].
Qed.

(** ** Feature importance *)

Local Open Scope Q_scope.

Lemma foldl_fadd_Fin (qs : list Q) : ∀ a : Q,
  foldl fadd (Fin a) (Fin <$> qs) = Fin (foldl Qplus a qs).
Proof. induction qs as [|q qs IH]; intros a; [done|]. cbn. apply IH. Qed.

Lemma foldl_Qplus_Qsum (qs : list Q) : ∀ a : Q,
  foldl Qplus a qs == a + Qsum qs.
Proof.
  induction qs as [|q qs IH]; intros a.
  - cbn. unfold Qsum. cbn. ring.
  - cbn [foldl]. rewrite IH, Qsum_cons. ring.
Qed.

Lemma np_sum_Fin (qs : list Q) :
  ∃ t : Q, np_sum (Fin <$> qs) = Fin t ∧ t == Qsum qs.
Proof.
  exists (foldl Qplus 0 qs). split; [apply foldl_fadd_Fin|].
  rewrite foldl_Qplus_Qsum. ring.
Qed.

Lemma Qsum_nonneg (qs : list Q) : Forall (fun g => 0 <= g) qs -> 0 <= Qsum qs.
Proof.
  induction 1 as [|q qs Hq _ IH]; [done|]. rewrite Qsum_cons. lra.
Qed.

Lemma Qsum_bounds_element (qs : list Q) (g : Q) :
  Forall (fun g => 0 <= g) qs -> g ∈ qs -> g <= Qsum qs.
Proof.
  induction 1 as [|q qs Hq Hqs IH]; intros Hin.
  - by apply elem_of_nil in Hin.
  - rewrite Qsum_cons. apply elem_of_cons in Hin as [->|Hin].
    + pose proof (Qsum_nonneg qs Hqs). lra.
    + specialize (IH Hin). lra.
Qed.

Lemma Qsum_scaled (c t : Q) (qs : list Q) :
  ¬ t == 0 -> Qsum ((fun g => c * g / t) <$> qs) == c * Qsum qs / t.
Proof.
  intros Ht. induction qs as [|q qs IH].
  - unfold Qsum. cbn. field. done.
  - cbn [fmap list_fmap]. rewrite !Qsum_cons.
    change (list_fmap Q Q ?f qs) with (f <$> qs).
    rewrite IH. field. done.
Qed.

Lemma gain_percent_finite (gain_values : list Q) :
  0 < Qsum gain_values ->
  ∃ t : Q, t == Qsum gain_values
    ∧ gain_percent gain_values = Fin <$> ((fun g => 100 * g / t) <$> gain_values).
Proof.
  intros Hpos. unfold gain_percent.
  destruct (np_sum_Fin gain_values) as (t & -> & Ht).
  exists t. split; [done|].
  rewrite <- list_fmap_compose. apply list_fmap_ext. intros _ g _.
  cbn. by rewrite (proj2 (Qis_zero_false t)) by lra.
Qed.

Lemma gain_percent_of_zeros (gain_values : list Q) :
  Forall (fun g => g == 0) gain_values ->
  Forall (fun x => x = NaN) (gain_percent gain_values).
Proof.
  intros Hz. unfold gain_percent.
  destruct (np_sum_Fin gain_values) as (t & -> & Ht).
  assert (t == 0) as Ht0.
  { rewrite Ht. clear Ht. induction Hz as [|q qs Hq _ IH]; [done|].
    rewrite Qsum_cons, Hq, IH. ring. }
  apply Forall_fmap, (Forall_impl _ _ _ Hz). intros g Hg. cbn.
  rewrite (proj2 (Qis_zero_true t)) by done.
  rewrite (proj2 (Qis_zero_true (100 * g))); [done|]. rewrite Hg. ring.
Qed.

Lemma pd_DataFrame_returns (feature_name : list string)
    (split_values : list Z) (gain_column : list float64) :
  length feature_name = length split_values ->
  length split_values = length gain_column ->
  pd_DataFrame feature_name split_values gain_column
  = Returns (zip_with (fun '(f, s) g => mkImportance f s g)
                      (zip feature_name split_values) gain_column).
Proof. intros H1 H2. unfold pd_DataFrame. by rewrite decide_True. Qed.

Lemma zip_with_finite_rows (fs : list (string * Z)) (qs : list Q) :
  zip_with (fun '(f, s) g => mkImportance f s g) fs (Fin <$> qs)
  = zip_with finite_row fs qs.
Proof.
  revert qs. induction fs as [|[f s] fs IH]; intros [|q qs]; [done..|].
  cbn. by rewrite <- IH.
Qed.

Lemma elem_of_finite_rows (fs : list (string * Z)) (qs : list Q)
    (row : importance_row) :
  row ∈ zip_with finite_row fs qs -> ∃ q, q ∈ qs ∧ gain row = Fin q.
Proof.
  intros (x & q & -> & _ & Hq)%elem_of_zip_with. by exists q.
Qed.

Section FeatureImportance.
Variable sort_values : list importance_row -> list importance_row.
Hypothesis sort_values_permutes : ∀ l, sort_values l ≡ₚ l.
Hypothesis sort_values_sorts :
  ∀ l, StronglySorted sorted_by_gain (sort_values l).

Lemma feat_imp_finite (feature_name : list string) (split_values : list Z)
    (gain_values : list Q) :
  length feature_name = length split_values ->
  length split_values = length gain_values ->
  0 < Qsum gain_values ->
  ∃ (rows : list importance_row) (t : Q),
    feat_imp sort_values feature_name split_values gain_values = Returns rows
    ∧ t == Qsum gain_values
    ∧ rows ≡ₚ zip_with finite_row (zip feature_name split_values)
                       ((fun g => 100 * g / t) <$> gain_values)
    ∧ StronglySorted sorted_by_gain rows.
Proof.
  intros H1 H2 Hpos. unfold feat_imp.
  destruct (gain_percent_finite gain_values Hpos) as (t & Ht & ->).
  rewrite pd_DataFrame_returns by (by rewrite ?length_fmap).
  rewrite zip_with_finite_rows.
  eexists _, t. split; [reflexivity|]. split; [done|].
  split; [apply sort_values_permutes | apply sort_values_sorts].
Qed.

Lemma sorted_rows_gain_ge (fs : list (string * Z)) (qs : list Q)
    (rows : list importance_row) :
  rows ≡ₚ zip_with finite_row fs qs ->
  StronglySorted sorted_by_gain rows -> StronglySorted gain_ge rows.
Proof.
  intros Hperm Hs.
  assert (Forall (fun row => ∃ q, gain row = Fin q) rows) as Hfin.
  { apply Forall_forall. intros row Hrow. rewrite Hperm in Hrow.
    apply elem_of_finite_rows in Hrow as (q & _ & Hq). by exists q. }
  clear Hperm. induction Hs as [|a l Hl IH Ha]; [constructor|].
  apply Forall_cons in Hfin as [[x Hx] Hfin].
  constructor; [by apply IH|].
  apply Forall_forall. intros b Hb.
  pose proof (proj1 (Forall_forall _ _) Ha b Hb) as Hab.
  destruct (proj1 (Forall_forall _ _) Hfin b Hb) as [y Hy].
  unfold sorted_by_gain in Hab. rewrite Hx, Hy in Hab.
  exists x, y. split; [done|]. split; [done|]. by apply Qle_bool_iff.
Qed.

(** X17: for a model whose gains are not negative and not all zero, the
    importance table of [plot_lgb_importances] holds every feature once
    with its split count and its gain as a percentage of the total gain;
    the percentages lie between 0 and 100 and add up to 100, and the rows
    are in the order of falling gain. *)
Theorem importance_gains_are_percentages (feature_name : list string)
    (split_values : list Z) (gain_values : list Q) :
  length feature_name = length split_values ->
  length split_values = length gain_values ->
  Forall (fun g => 0 <= g) gain_values ->
  0 < Qsum gain_values ->
  ∃ (rows : list importance_row) (pct : list Q),
    feat_imp sort_values feature_name split_values gain_values = Returns rows
    ∧ rows ≡ₚ zip_with finite_row (zip feature_name split_values) pct
    ∧ Forall2 (fun q g => q == 100 * g / Qsum gain_values) pct gain_values
    ∧ Forall (fun q => 0 <= q ∧ q <= 100) pct
    ∧ Qsum pct == 100
    ∧ StronglySorted gain_ge rows.
Proof.
  intros H1 H2 Hnn Hpos.
  destruct (feat_imp_finite feature_name split_values gain_values H1 H2 Hpos)
    as (rows & t & Hrun & Ht & Hperm & Hsorted).
  exists rows, ((fun g => 100 * g / t) <$> gain_values).
  split; [done|]. split; [done|].
  assert (0 < t) as Htpos by lra.
  split; [|split; [|split]].
  - apply Forall2_fmap_l, Forall_Forall2_diag, Forall_forall.
    intros g _. unfold compose. cbn beta. rewrite Ht. reflexivity.
  - apply Forall_fmap, Forall_forall. intros g Hg. cbn.
    pose proof (proj1 (Forall_forall _ _) Hnn g Hg) as Hg0.
    pose proof (Qsum_bounds_element gain_values g Hnn Hg) as Hgt.
    cbn beta in Hg0.
    split.
    + apply Qle_shift_div_l; [done|]. lra.
    + apply Qle_shift_div_r; [done|]. lra.
  - rewrite Qsum_scaled by lra. rewrite <- Ht. field. lra.
  - by apply (sorted_rows_gain_ge _ _ _ Hperm).
Qed.

(** X18: with [plot=True], [plot_lgb_importances] draws the first 25 rows
    of the table whatever [num] is; with [plot=False] it prints the first
    [num] rows, or all but the last [-num] for a negative [num].  In each
    case every row shown has a gain at least as large as every row left
    out. *)
Theorem importance_shows_the_largest_gains (feature_name : list string)
    (split_values : list Z) (gain_values : list Q) (plot : bool) (num : Z) :
  length feature_name = length split_values ->
  length split_values = length gain_values ->
  0 < Qsum gain_values ->
  ∃ (rows : list importance_row) (k : nat),
    feat_imp sort_values feature_name split_values gain_values = Returns rows
    ∧ plot_lgb_importances sort_values feature_name split_values gain_values
                           plot num
      = Returns (take k rows)
    ∧ k = (if plot then 25%nat
           else if decide (0 <= num)%Z then Z.to_nat num
           else (length feature_name - Z.to_nat (- num))%nat)
    ∧ ∀ shown hidden : importance_row,
        shown ∈ take k rows -> hidden ∈ drop k rows -> gain_ge shown hidden.
Proof.
  intros H1 H2 Hpos.
  destruct (feat_imp_finite feature_name split_values gain_values H1 H2 Hpos)
    as (rows & t & Hrun & Ht & Hperm & Hsorted).
  assert (length rows = length feature_name) as Hlen.
  { rewrite Hperm, length_zip_with, length_zip, length_fmap. lia. }
  eexists rows, _. split; [done|]. split; [|split; [reflexivity|]].
  - unfold plot_lgb_importances. rewrite Hrun. cbn.
    destruct plot; [done|]. unfold head.
    destruct (decide (0 <= num)%Z) as [Hn|Hn].
    + by rewrite (proj2 (Z.leb_le _ _) Hn).
    + rewrite (proj2 (Z.leb_gt _ _)) by lia. by rewrite Hlen.
  - intros shown hidden Hs Hh.
    apply (sorted_rows_gain_ge _ _ _ Hperm) in Hsorted.
    rewrite <- (take_drop
      (if plot then 25%nat
       else if decide (0 <= num)%Z then Z.to_nat num
       else (length feature_name - Z.to_nat (- num))%nat) rows) in Hsorted.
    by apply (StronglySorted_app_1_elem_of _ _ _ _ _ Hsorted).
Qed.

(** X19: for a model without any gain (every gain zero, as with no split
    at all) [plot_lgb_importances] raises nothing: the division by the
    zero total makes the gain of every row of the table [NaN]. *)
Theorem importance_without_gain_is_nan (feature_name : list string)
    (split_values : list Z) (gain_values : list Q) :
  length feature_name = length split_values ->
  length split_values = length gain_values ->
  Forall (fun g => g == 0) gain_values ->
  ∃ rows : list importance_row,
    feat_imp sort_values feature_name split_values gain_values = Returns rows
    ∧ length rows = length feature_name
    ∧ Forall (fun row => gain row = NaN) rows.
Proof.
  intros H1 H2 Hz. unfold feat_imp.
  pose proof (gain_percent_of_zeros gain_values Hz) as Hnan.
  assert (length (gain_percent gain_values) = length gain_values) as Hlen
    by (unfold gain_percent; by rewrite length_fmap).
  rewrite pd_DataFrame_returns by (by rewrite ?Hlen).
  eexists. split; [reflexivity|].
  split.
  - rewrite sort_values_permutes, length_zip_with, length_zip. lia.
  - apply Forall_forall. intros row Hrow. rewrite sort_values_permutes in Hrow.
    apply elem_of_zip_with in Hrow as ([f s] & g & -> & _ & Hg).
    cbn. by apply (proj1 (Forall_forall _ _) Hnan).
Qed.

End FeatureImportance.

(** A sort with the two properties: merge sort by falling gain. *)
Lemma desc_nan_last_total (a b : float64) :
  desc_nan_last a b = true ∨ desc_nan_last b a = true.
Proof.
  destruct a as [x| | |], b as [y| | |]; cbn; auto.
  rewrite !Qle_bool_iff. destruct (Qlt_le_dec x y); [right|left]; lra.
Qed.

Lemma desc_nan_last_trans (a b c : float64) :
  desc_nan_last a b = true -> desc_nan_last b c = true ->
  desc_nan_last a c = true.
Proof.
  destruct a as [x| | |], b as [y| | |], c as [z| | |]; cbn; try done.
  rewrite !Qle_bool_iff. lra.
Qed.

#[local] Instance sorted_by_gain_dec : RelDecision sorted_by_gain.
Proof. intros a b. unfold sorted_by_gain. apply _. Defined.

#[local] Instance sorted_by_gain_total : Total sorted_by_gain.
Proof. intros a b. apply desc_nan_last_total. Qed.

#[local] Instance sorted_by_gain_trans : Transitive sorted_by_gain.
Proof. intros a b c. apply desc_nan_last_trans. Qed.

Lemma merge_sort_permutes (l : list importance_row) :
  merge_sort sorted_by_gain l ≡ₚ l.
Proof. apply merge_sort_Permutation. Qed.

Lemma merge_sort_sorts (l : list importance_row) :
  StronglySorted sorted_by_gain (merge_sort sorted_by_gain l).
Proof. apply StronglySorted_merge_sort; apply _. Qed.

Lemma importance_gains_are_percentages_witness :
  ∃ (rows : list importance_row) (pct : list Q),
    feat_imp (merge_sort sorted_by_gain) ["month"; "year"; "is_wknd"]
             [3; 1; 2]%Z [1; 3; 0]
    = Returns rows
    ∧ rows ≡ₚ zip_with finite_row
                       (zip ["month"; "year"; "is_wknd"] [3; 1; 2]%Z) pct
    ∧ Forall2 (fun q g => q == 100 * g / Qsum [1; 3; 0]) pct [1; 3; 0]
    ∧ Forall (fun q => 0 <= q ∧ q <= 100) pct
    ∧ Qsum pct == 100
    ∧ StronglySorted gain_ge rows.
Proof.
  apply (importance_gains_are_percentages (merge_sort sorted_by_gain)
           merge_sort_permutes merge_sort_sorts).
  - reflexivity.
  - reflexivity.
  - repeat constructor; discriminate.
  - reflexivity.
Defined.

Lemma importance_shows_the_largest_gains_witness :
  ∃ (rows : list importance_row) (k : nat),
    feat_imp (merge_sort sorted_by_gain) ["month"; "year"; "is_wknd"]
             [3; 1; 2]%Z [1; 3; 0]
    = Returns rows
    ∧ plot_lgb_importances (merge_sort sorted_by_gain)
        ["month"; "year"; "is_wknd"] [3; 1; 2]%Z [1; 3; 0] false 2
      = Returns (take k rows)
    ∧ k = 2%nat
    ∧ ∀ shown hidden : importance_row,
        shown ∈ take k rows -> hidden ∈ drop k rows -> gain_ge shown hidden.
Proof.
  apply (importance_shows_the_largest_gains (merge_sort sorted_by_gain)
           merge_sort_permutes merge_sort_sorts
           ["month"; "year"; "is_wknd"] [3; 1; 2]%Z [1; 3; 0] false 2).
  - reflexivity.
  - reflexivity.
  - reflexivity.
Defined.

Lemma importance_without_gain_is_nan_witness :
  ∃ rows : list importance_row,
    feat_imp (merge_sort sorted_by_gain) ["month"; "year"] [0; 0]%Z [0; 0]
    = Returns rows
    ∧ length rows = 2%nat
    ∧ Forall (fun row => gain row = NaN) rows.
Proof.
  apply (importance_without_gain_is_nan (merge_sort sorted_by_gain)
           merge_sort_permutes ["month"; "year"] [0; 0]%Z [0; 0]).
  - reflexivity.
  - reflexivity.
  - repeat constructor.
Defined.

Local Close Scope Q_scope.

(** ** When the builders raise *)

Lemma same_base_nonempty (df out : DataFrame) :
  Forall2 same_base df out -> df ≠ [] -> out ≠ [].
Proof. intros H Hne ->. apply Forall2_nil_inv_r in H. done. Qed.

Lemma roll_mean_features_app (df : DataFrame) (ws ws' : list nat)
    (rs : RandomState) :
  roll_mean_features df (ws ++ ws') rs
  = match roll_mean_features df ws rs with
    | Returns (df', rs') => roll_mean_features df' ws' rs'
    | Raises e => Raises e
    end.
Proof. unfold roll_mean_features. apply for_each_app. Qed.

Lemma roll_mean_features_raises (windows : list nat) :
  ∀ (df : DataFrame) (rs : RandomState),
  df ≠ [] -> ¬ Forall (fun w => 10 <= w) windows ->
  roll_mean_features df windows rs = Raises ValueError.
Proof.
  induction windows as [|w ws IH]; intros df rs Hne Hbad.
  - by destruct Hbad.
  - destruct (decide (w < 10)) as [Hw|Hw].
    + by apply roll_mean_features_short_window.
    + assert (10 <= w) as Hw' by lia.
      change (w :: ws) with ([w] ++ ws). rewrite roll_mean_features_app.
      destruct (roll_mean_features_cells df [w] rs) as (out & -> & Hb & _).
      { by constructor. }
      apply IH; [by apply (same_base_nonempty df)|].
      intros Hws. apply Hbad. by constructor.
Qed.

Lemma ewm_features_app (df : DataFrame) (als als' : list pyfloat)
    (lags : list nat) (rs : RandomState) :
  ewm_features df (als ++ als') lags rs
  = match ewm_features df als lags rs with
    | Returns (df', rs') => ewm_features df' als' lags rs'
    | Raises e => Raises e
    end.
Proof. unfold ewm_features. apply for_each_app. Qed.

Lemma valid_alpha_dec (alpha : pyfloat) : valid_alpha alpha ∨ ¬ valid_alpha alpha.
Proof.
  unfold valid_alpha.
  destruct (Qlt_le_dec 0 (fval alpha)) as [H0|H0];
    destruct (Qlt_le_dec 1 (fval alpha)) as [H1|H1];
    [right | left | right | right]; try (intros [? ?]; lra). done.
Qed.

Lemma ewm_features_raises (alphas : list pyfloat) (lag : nat)
    (lags : list nat) :
  ∀ (df : DataFrame) (rs : RandomState),
  df ≠ [] -> ¬ Forall valid_alpha alphas ->
  ewm_features df alphas (lag :: lags) rs = Raises ValueError.
Proof.
  induction alphas as [|a als IH]; intros df rs Hne Hbad.
  - by destruct Hbad.
  - destruct (valid_alpha_dec a) as [Ha|Ha].
    + change (a :: als) with ([a] ++ als). rewrite ewm_features_app.
      destruct (ewm_features_cells df [a] (lag :: lags) rs)
        as (out & -> & Hb & _).
      { by constructor. }
      apply IH; [by apply (same_base_nonempty df)|].
      intros Hals. apply Hbad. by constructor.
    + by apply ewm_features_bad_alpha.
Qed.

(** X20: on a frame with at least one row, [roll_mean_features] returns
    exactly when every window is at least [min_periods = 10]: then it
    returns with one noise vector drawn per window, and otherwise, wherever
    the short window stands in the list, the call ends in the
    [ValueError] that pandas raises for it. *)
Theorem roll_mean_features_needs_windows_of_ten (df : DataFrame)
    (windows : list nat) (rs : RandomState) :
  df ≠ [] ->
  (Forall (fun w => 10 <= w) windows ->
   ∃ out : DataFrame,
     roll_mean_features df windows rs
     = Returns (out, mkRandomState (draws rs)
                       (pos rs + length windows * length df)))
  ∧ (¬ Forall (fun w => 10 <= w) windows ->
     roll_mean_features df windows rs = Raises ValueError).
Proof.
  intros Hne. split.
  - intros Hok.
    destruct (roll_mean_features_cells df windows rs Hok) as (out & -> & _).
    exists out. by rewrite advance_iter.
  - by apply roll_mean_features_raises.
Qed.

Lemma roll_mean_features_needs_windows_of_ten_witness :
  (Forall (fun w => 10 <= w) [91; 5] ->
   ∃ out : DataFrame,
     roll_mean_features example_df [91; 5] example_rs
     = Returns (out, mkRandomState (draws example_rs)
                       (pos example_rs + length [91; 5] * length example_df)))
  ∧ (¬ Forall (fun w => 10 <= w) [91; 5] ->
     roll_mean_features example_df [91; 5] example_rs = Raises ValueError).
Proof.
  apply (roll_mean_features_needs_windows_of_ten example_df [91; 5]
           example_rs).
  discriminate.
Defined.

(** X21: on a frame with at least one row and with at least one lag,
    [ewm_features] returns exactly when every alpha lies in (0, 1]: then it
    returns without drawing noise, and otherwise the call ends in the
    [ValueError] that pandas raises for the alpha. *)
Theorem ewm_features_needs_alphas_in_range (df : DataFrame)
    (alphas : list pyfloat) (lags : list nat) (rs : RandomState) :
  df ≠ [] -> lags ≠ [] ->
  (Forall valid_alpha alphas ->
   ∃ out : DataFrame, ewm_features df alphas lags rs = Returns (out, rs))
  ∧ (¬ Forall valid_alpha alphas ->
     ewm_features df alphas lags rs = Raises ValueError).
Proof.
  intros Hne Hlags. split.
  - intros Hok.
    destruct (ewm_features_cells df alphas lags rs Hok) as (out & -> & _).
    by exists out.
  - destruct lags as [|lag lags]; [done|]. by apply ewm_features_raises.
Qed.

Lemma ewm_features_needs_alphas_in_range_witness :
  (Forall valid_alpha [mkFloat (5 # 10) "0.5"; mkFloat (15 # 10) "1.5"] ->
   ∃ out : DataFrame,
     ewm_features example_df
       [mkFloat (5 # 10) "0.5"; mkFloat (15 # 10) "1.5"] [91] example_rs
     = Returns (out, example_rs))
  ∧ (¬ Forall valid_alpha [mkFloat (5 # 10) "0.5"; mkFloat (15 # 10) "1.5"] ->
     ewm_features example_df
       [mkFloat (5 # 10) "0.5"; mkFloat (15 # 10) "1.5"] [91] example_rs
     = Raises ValueError).
Proof.
  apply (ewm_features_needs_alphas_in_range example_df
           [mkFloat (5 # 10) "0.5"; mkFloat (15 # 10) "1.5"] [91] example_rs);
    discriminate.
Defined.

(** ** The date features in the pipeline *)



